(** * home.lab event store: the hash-chained, append-only event log

    A shallow embedding of [miniapps/event-store/src/store.py]: the [Event]
    model, and the [EventStore] class with its segment files, rotation,
    background compression, filtered query, chain verification, status and
    retention.

    The data directory is a finite map from file names to file contents;
    a content is the string of characters a read of the file returns, and
    its length is the size of the file (the store writes ASCII and no
    carriage return, so decoding and newline translation change nothing).
    The wall clock is an input: every operation that calls [datetime.now]
    receives the formatted reading as an argument.  A task scheduled with
    [asyncio.create_task] waits in a list until the event loop runs it,
    between two calls of the store.  The functions the module imports from
    [hashlib], [json], [gzip] and [pydantic] are the fields of the class
    [Lib]; a reference instance (SHA-256, the printer and a reader of
    JSON, the validation of the [Event] model, and a stand-in for gzip) is
    given for evaluating the model on concrete stores. *)

From Stdlib Require Import ZArith NArith Ascii String List Lia.
From stdpp Require Import base option list gmap strings sorting pretty.

Local Open Scope Z_scope.
#[local] Set Warnings "-register-all".

(** ** Python built-ins used by the module *)

Module Py.

(** [str.isspace] on the code points below 128. *)
Definition is_space (c : ascii) : bool :=
  let n := nat_of_ascii c in
  ((9 <=? n) && (n <=? 13) || (28 <=? n) && (n <=? 32))%nat.

Definition nl : ascii := "010"%char.

Fixpoint lstrip (s : string) : string :=
  match s with
  | EmptyString => EmptyString
  | String c r => if is_space c then lstrip r else s
  end.

Fixpoint rstrip (s : string) : string :=
  match s with
  | EmptyString => EmptyString
  | String c r =>
      match rstrip r with
      | EmptyString => if is_space c then EmptyString else String c EmptyString
      | r' => String c r'
      end
  end.

(** [s.strip()] *)
Definition strip (s : string) : string := rstrip (lstrip s).

(** [s.split(sep)] for a one-character separator: never empty. *)
Fixpoint split (sep : ascii) (s : string) : list string :=
  match s with
  | EmptyString => [EmptyString]
  | String c r =>
      if Ascii.eqb c sep then EmptyString :: split sep r
      else match split sep r with
           | [] => [String c EmptyString]
           | l :: ls => String c l :: ls
           end
  end.

(** [f.readlines()] and [for line in f] on a text file: every line keeps
    its terminating newline, the last one may lack it. *)
Fixpoint readlines (s : string) : list string :=
  match s with
  | EmptyString => []
  | String c r =>
      if Ascii.eqb c nl then String c EmptyString :: readlines r
      else match readlines r with
           | [] => [String c EmptyString]
           | l :: ls => String c l :: ls
           end
  end.

(** [needle in hay] on strings. *)
Fixpoint contains (needle hay : string) : bool :=
  String.prefix needle hay ||
  match hay with
  | EmptyString => false
  | String _ r => contains needle r
  end.

(** [s[:n]] for [n >= 0]. *)
Definition take_str (n : nat) (s : string) : string := String.substring 0 n s.

(** [s[n:]] for [n >= 0]. *)
Fixpoint drop_str (n : nat) (s : string) : string :=
  match n, s with
  | O, _ => s
  | S n', String _ r => drop_str n' r
  | S _, EmptyString => EmptyString
  end.

(** [l[i]] with Python's negative indices; [None] is [IndexError]. *)
Definition index {A} (l : list A) (i : Z) : option A :=
  let n := Z.of_nat (length l) in
  if i <? 0 then (if i + n <? 0 then None else l !! Z.to_nat (i + n))
  else l !! Z.to_nat i.

(** A slice bound, clamped the way [l[a:b]] clamps it. *)
Definition clamp (n i : Z) : Z :=
  if i <? 0 then Z.max (i + n) 0 else Z.min i n.

(** [l[a:b]] *)
Definition slice {A} (l : list A) (a b : Z) : list A :=
  let n := Z.of_nat (length l) in
  let a' := clamp n a in
  let b' := clamp n b in
  take (Z.to_nat (b' - a')) (drop (Z.to_nat a') l).

(** [s1 < s2] on strings: code point by code point. *)
Definition str_lt (s1 s2 : string) : bool := String.ltb s1 s2.

(** [sorted(names)] *)
Definition sorted (l : list string) : list string := merge_sort String.le l.

(** [fnmatch] for patterns whose only wildcard is the star. *)
Fixpoint fnmatch (pat : string) : string → bool :=
  match pat with
  | EmptyString => fun s => match s with EmptyString => true | _ => false end
  | String p pat' =>
      if Ascii.eqb p "*"%char then
        fix star (s : string) : bool :=
          fnmatch pat' s ||
          match s with
          | EmptyString => false
          | String _ s' => star s'
          end
      else
        fun s => match s with
                 | String c s' => Ascii.eqb p c && fnmatch pat' s'
                 | EmptyString => false
                 end
  end.

(** [name.rfind(".")] *)
Fixpoint rfind_dot (s : string) : option nat :=
  match s with
  | EmptyString => None
  | String c r =>
      match rfind_dot r with
      | Some i => Some (S i)
      | None => if Ascii.eqb c "."%char then Some O else None
      end
  end.

(** [PurePath.suffix]: the last dot and what follows it, unless the dot
    is the first or the last character of the name. *)
Definition suffix (name : string) : string :=
  match rfind_dot name with
  | Some i =>
      if ((0 <? i) && (i <? String.length name - 1))%nat
      then drop_str i name else EmptyString
  | None => EmptyString
  end.

(** [PurePath.stem] *)
Definition stem (name : string) : string :=
  match rfind_dot name with
  | Some i =>
      if ((0 <? i) && (i <? String.length name - 1))%nat
      then take_str i name else name
  | None => name
  end.

(** [PurePath.with_suffix(new)] *)
Definition with_suffix (name new : string) : string := stem name +:+ new.

End Py.

(** ** JSON values and the [Event] model *)

(** What [json.loads] returns and [json.dumps] accepts; a dict keeps its
    insertion order.  A float is carried as its literal. *)
Inductive json : Type :=
  | JNull
  | JBool (b : bool)
  | JInt (n : Z)
  | JFloat (lit : string)
  | JStr (s : string)
  | JList (items : list json)
  | JDict (items : list (string * json)).

(** [d.get(key)] *)
Fixpoint dict_get (key : string) (items : list (string * json)) : option json :=
  match items with
  | [] => None
  | (k, v) :: rest => if decide (k = key) then Some v else dict_get key rest
  end.

(** GENESIS_HASH = "0" * 64 *)
Definition GENESIS_HASH : string :=
  "0000000000000000000000000000000000000000000000000000000000000000".

Inductive EventCategory : Type :=
  SYSTEM | SERVICE | SECURITY | AI | USER | CONFIG | ERROR.

#[global] Instance EventCategory_eq_dec : EqDecision EventCategory.
Proof. solve_decision. Defined.

Definition category_value (c : EventCategory) : string :=
  match c with
  | SYSTEM => "system"
  | SERVICE => "service"
  | SECURITY => "security"
  | AI => "ai"
  | USER => "user"
  | CONFIG => "config"
  | ERROR => "error"
  end.

Module Event.
Record t : Type := mk {
  id : string;
  timestamp : string;
  category : EventCategory;
  action : string;
  actor : string;
  target : option string;
  data : list (string * json);
  result : string;
  error : option string;
  previous_hash : string;
  hash : string
}.

Definition set_previous_hash (e : t) (h : string) : t :=
  mk (id e) (timestamp e) (category e) (action e) (actor e) (target e)
     (data e) (result e) (error e) h (hash e).

Definition set_hash (e : t) (h : string) : t :=
  mk (id e) (timestamp e) (category e) (action e) (actor e) (target e)
     (data e) (result e) (error e) (previous_hash e) h.
End Event.

Abbreviation Event := Event.t.

Definition json_of_optional (o : option string) : json :=
  match o with
  | Some s => JStr s
  | None => JNull
  end.

(** The fields [model_dump(exclude={"hash"})] returns, in declaration order. *)
Definition dump_fields (e : Event) : list (string * json) :=
  [ ("id", JStr (Event.id e));
    ("timestamp", JStr (Event.timestamp e));
    ("category", JStr (category_value (Event.category e)));
    ("action", JStr (Event.action e));
    ("actor", JStr (Event.actor e));
    ("target", json_of_optional (Event.target e));
    ("data", JDict (Event.data e));
    ("result", JStr (Event.result e));
    ("error", json_of_optional (Event.error e));
    ("previous_hash", JStr (Event.previous_hash e)) ].

(** [event.model_dump()] *)
Definition model_dump (e : Event) : json :=
  JDict (dump_fields e ++ [("hash", JStr (Event.hash e))]).

(** [event.model_dump(exclude={"hash"})] *)
Definition model_dump_exclude_hash (e : Event) : json :=
  JDict (dump_fields e).

(** ** The imported libraries and the configuration *)

Class Lib : Type := {
  (** [hashlib.sha256(s.encode()).hexdigest()] *)
  sha256_hex : string → string;
  (** [json.dumps(v, sort_keys=...)] *)
  json_dumps : bool → json → string;
  (** [json.loads(s)]; [None] is [JSONDecodeError] *)
  json_loads : string → option json;
  (** [Event.model_validate_json(s)]; [None] is [ValidationError] *)
  model_validate_json : string → option Event;
  (** [gzip.compress(b)] *)
  gzip_compress : string → string;
  (** [gzip.decompress(b).decode()]; [None] is any exception of the two *)
  gzip_decompress : string → option string;
  (** MAX_FILE_SIZE_MB, read from the environment at import *)
  MAX_FILE_SIZE_MB : Z
}.

(** The result of a call that can raise. *)
Inductive outcome (A : Type) : Type :=
  | Ok (a : A)
  | Raised (exn : string).
Arguments Ok {A} a.
Arguments Raised {A} exn.

(** ** Query and status models *)

Module EventQuery.
Record t : Type := mk {
  category : option EventCategory;
  action : option string;
  actor : option string;
  target : option string;
  start_time : option string;
  end_time : option string;
  limit : Z;
  offset : Z
}.
End EventQuery.

Abbreviation EventQuery := EventQuery.t.

Module ChainStatus.
Record t : Type := mk {
  total_events : Z;
  chain_valid : bool;
  first_event_time : option string;
  last_event_time : option string;
  last_hash : string;
  file_count : Z;
  total_size_bytes : Z
}.
End ChainStatus.

Abbreviation ChainStatus := ChainStatus.t.

(** ** The store *)

(** The fields of an [EventStore] object ([data_dir] is the key space of
    the disk map, [_lock] has no sequential content). *)
Module Store.
Record t : Type := mk {
  current_file : option string;
  last_hash : string;
  event_count : Z
}.
End Store.

Abbreviation Store := Store.t.

(** The data directory: file name to content. *)
Abbreviation Disk := (gmap string string).

(** A store object, its directory, and the compression tasks
    [asyncio.create_task] has scheduled and the loop has not run yet. *)
Record World : Type := mkWorld {
  store : Store;
  disk : Disk;
  tasks : list string
}.

(** How the write of one [append] call ends: it succeeds, [open] raises
    before anything is written, or [write] raises after [written] bytes. *)
Inductive write_fault : Type :=
  | WriteOk
  | OpenFails
  | WriteFails (written : nat).

(** What one [append] call reads from its surroundings. *)
Record AppendEnv : Type := mkAppendEnv {
  (** datetime.now(timezone.utc).strftime("%Y%m%d_%H%M%S") *)
  now_stamp : string;
  fault : write_fault
}.

(** Where a [_compress_file] task fails, if it does. *)
Inductive compress_fault : Type :=
  | NoFault
  | ReadFails
  | OpenOutFails
  | WriteOutFails (written : nat)
  | UnlinkFails.

Section EventStore.
Context {L : Lib}.

(** *** Event.compute_hash, Event.with_hash *)

Definition compute_hash (e : Event) : string :=
  let data := model_dump_exclude_hash e in
  let content := json_dumps true data in
  sha256_hex content.

Definition with_hash (e : Event) : Event :=
  Event.set_hash e (compute_hash e).

(** *** EventStore.__init__ *)

Definition init_store : Store :=
  Store.mk None GENESIS_HASH 0.

(** [data_dir.glob(pattern)]: the names in the directory that match. *)
Definition glob (pattern : string) (d : Disk) : list string :=
  filter (λ name, Py.fnmatch pattern name = true) (map fst (map_to_list d)).

(** *** EventStore._create_new_file *)

Definition new_file_name (stamp : string) : string :=
  "events_" +:+ stamp +:+ ".jsonl".

Definition _create_new_file (st : Store) (stamp : string) : Store :=
  Store.mk (Some (new_file_name stamp)) (Store.last_hash st) (Store.event_count st).

(** *** EventStore.initialize *)

(** The loop over [reversed(lines)]: blank lines and lines [json.loads]
    rejects are passed over; the first line it accepts ends the loop.
    [.get] on a value that is no dict raises [AttributeError]; a [hash]
    that is no string makes the slice-and-concatenate of the log call
    raise [TypeError]. *)
Fixpoint initialize_scan (n_lines : Z) (st : Store) (rev_lines : list string)
  : outcome Store :=
  match rev_lines with
  | [] => Ok st
  | line :: rest =>
      let line := Py.strip line in
      if decide (line = EmptyString) then initialize_scan n_lines st rest
      else
        match json_loads line with
        | None => initialize_scan n_lines st rest
        | Some (JDict last_event) =>
            match default (JStr GENESIS_HASH) (dict_get "hash" last_event) with
            | JStr h => Ok (Store.mk (Store.current_file st) h n_lines)
            | _ => Raised "TypeError"
            end
        | Some _ => Raised "AttributeError"
        end
  end.

Definition initialize (st : Store) (d : Disk) (stamp : string) : outcome Store :=
  let event_files := Py.sorted (glob "events_*.jsonl" d) in
  match last event_files with
  | Some f =>
      let st := Store.mk (Some f) (Store.last_hash st) (Store.event_count st) in
      let lines := Py.readlines (default EmptyString (d !! f)) in
      initialize_scan (Z.of_nat (length lines)) st (reverse lines)
  | None => Ok (_create_new_file st stamp)
  end.

(** *** EventStore._rotate_file *)

Definition _rotate_file (w : World) (stamp : string) : World :=
  let old_file := Store.current_file (store w) in
  let st := _create_new_file (store w) stamp in
  match old_file with
  | Some old =>
      if decide (is_Some (disk w !! old))
      then mkWorld st (disk w) (tasks w ++ [old])
      else mkWorld st (disk w) (tasks w)
  | None => mkWorld st (disk w) (tasks w)
  end.

(** *** EventStore.append *)

(** [size_mb >= MAX_FILE_SIZE_MB] with [size_mb = st_size / (1024 * 1024)]:
    the division by a power of two is exact. *)
Definition needs_rotation (w : World) : bool :=
  match Store.current_file (store w) with
  | Some f =>
      match disk w !! f with
      | Some content =>
          bool_decide (MAX_FILE_SIZE_MB * (1024 * 1024)
                       ≤ Z.of_nat (String.length content))
      | None => false
      end
  | None => false
  end.

(** [json.dumps(event.model_dump()) + "\n"] *)
Definition event_line (e : Event) : string :=
  json_dumps false (model_dump e) +:+ String Py.nl EmptyString.

Definition append (env : AppendEnv) (w : World) (event : Event)
  : World * outcome Event :=
  let w1 := if needs_rotation w then _rotate_file w (now_stamp env) else w in
  let st2 :=
    match Store.current_file (store w1) with
    | Some _ => store w1
    | None => _create_new_file (store w1) (now_stamp env)
    end in
  let file := default EmptyString (Store.current_file st2) in
  let event := Event.set_previous_hash event (Store.last_hash st2) in
  let event := with_hash event in
  let old := default EmptyString (disk w1 !! file) in
  match fault env with
  | OpenFails =>
      (mkWorld st2 (disk w1) (tasks w1), Raised "OSError")
  | WriteFails written =>
      (mkWorld st2
         (<[file := old +:+ Py.take_str written (event_line event)]> (disk w1))
         (tasks w1),
       Raised "OSError")
  | WriteOk =>
      let d := <[file := old +:+ event_line event]> (disk w1) in
      let st3 := Store.mk (Store.current_file st2) (Event.hash event)
                   (Store.event_count st2 + 1) in
      (mkWorld st3 d (tasks w1), Ok event)
  end.

(** *** EventStore._compress_file *)

(** The directory after each file operation of one task, the state the
    task starts from first.  Every exception is caught and logged, so a
    fault only ends the trace. *)
Definition compress_trace (f : compress_fault) (d : Disk) (file_path : string)
  : list Disk :=
  let compressed_path := Py.with_suffix file_path ".jsonl.gz" in
  match f, d !! file_path with
  | ReadFails, _ | _, None => [d]
  | OpenOutFails, Some _ => [d]
  | WriteOutFails written, Some content =>
      let d1 := <[compressed_path := EmptyString]> d in
      [d; d1;
       <[compressed_path := Py.take_str written (gzip_compress content)]> d1]
  | UnlinkFails, Some content =>
      let d1 := <[compressed_path := EmptyString]> d in
      [d; d1; <[compressed_path := gzip_compress content]> d1]
  | NoFault, Some content =>
      let d1 := <[compressed_path := EmptyString]> d in
      let d2 := <[compressed_path := gzip_compress content]> d1 in
      [d; d1; d2; delete file_path d2]
  end.

Definition _compress_file (f : compress_fault) (d : Disk) (file_path : string)
  : Disk :=
  default d (last (compress_trace f d file_path)).

(** The event loop runs the oldest scheduled task to its end. *)
Definition run_task (f : compress_fault) (w : World) : World :=
  match tasks w with
  | [] => w
  | file_path :: rest =>
      mkWorld (store w) (_compress_file f (disk w) file_path) rest
  end.

(** *** EventStore._read_file_forward, EventStore._read_file *)

(** The body of the two generators: an exception of
    [model_validate_json] is caught outside the loop, which ends the
    generator. *)
Fixpoint yield_lines (strip_each : bool) (lines : list string) : list Event :=
  match lines with
  | [] => []
  | line :: rest =>
      let line := if strip_each then Py.strip line else line in
      if decide (line = EmptyString) then yield_lines strip_each rest
      else
        match model_validate_json line with
        | Some ev => ev :: yield_lines strip_each rest
        | None => []
        end
  end.

Definition is_gz (file_path : string) : bool :=
  bool_decide (Py.suffix file_path = ".gz").

Definition _read_file_forward (d : Disk) (file_path : string) : list Event :=
  match d !! file_path with
  | None => []
  | Some raw =>
      if is_gz file_path then
        match gzip_decompress raw with
        | Some content => yield_lines false (Py.split Py.nl (Py.strip content))
        | None => []
        end
      else yield_lines true (Py.readlines raw)
  end.

Definition _read_file (d : Disk) (file_path : string) : list Event :=
  match d !! file_path with
  | None => []
  | Some raw =>
      if is_gz file_path then
        match gzip_decompress raw with
        | Some content =>
            yield_lines false (reverse (Py.split Py.nl (Py.strip content)))
        | None => []
        end
      else yield_lines true (reverse (Py.readlines raw))
  end.

(** *** EventStore._matches_query *)

(** [q and event_field != q] for an optional string filter: [None] and
    the empty string are both falsy. *)
Definition rejects (q : option string) (test : string → bool) : bool :=
  match q with
  | Some s => negb (bool_decide (s = EmptyString)) && test s
  | None => false
  end.

Definition _matches_query (event : Event) (query : EventQuery) : bool :=
  if match EventQuery.category query with
     | Some c => negb (bool_decide (Event.category event = c))
     | None => false
     end then false
  else if rejects (EventQuery.action query)
            (λ a, negb (Py.contains a (Event.action event))) then false
  else if rejects (EventQuery.actor query)
            (λ a, negb (bool_decide (Event.actor event = a))) then false
  else if rejects (EventQuery.target query)
            (λ t, negb (bool_decide (Event.target event = Some t))) then false
  else if rejects (EventQuery.start_time query)
            (λ t, Py.str_lt (Event.timestamp event) t) then false
  else if rejects (EventQuery.end_time query)
            (λ t, Py.str_lt t (Event.timestamp event)) then false
  else true.

(** *** EventStore.query *)

(** The inner loop over the events of one file: it ends with the file or
    with the append that reaches the bound. *)
Fixpoint query_file (query : EventQuery) (evs : list Event) (events : list Event)
  : list Event :=
  match evs with
  | [] => events
  | event :: rest =>
      if _matches_query event query then
        let events := events ++ [event] in
        if bool_decide (EventQuery.limit query + EventQuery.offset query
                        ≤ Z.of_nat (length events))
        then events
        else query_file query rest events
      else query_file query rest events
  end.

Fixpoint query_files (d : Disk) (query : EventQuery) (files : list string)
  (events : list Event) : list Event :=
  match files with
  | [] => events
  | file_path :: rest =>
      if bool_decide (EventQuery.limit query + EventQuery.offset query
                      ≤ Z.of_nat (length events))
      then events
      else query_files d query rest
             (query_file query (_read_file d file_path) events)
  end.

Definition query (d : Disk) (query : EventQuery) : list Event :=
  let event_files := Py.sorted (glob "events_*.jsonl*" d) in
  let events := query_files d query (reverse event_files) [] in
  Py.slice events (EventQuery.offset query)
    (EventQuery.offset query + EventQuery.limit query).

(** *** EventStore.verify_chain *)

Definition chain_broken_msg (event : Event) (previous_hash : string) : string :=
  "Chain broken at event " +:+ Event.id event +:+ ": expected "
    +:+ Py.take_str 16 previous_hash +:+ ", got "
    +:+ Py.take_str 16 (Event.previous_hash event).

Definition hash_mismatch_msg (event : Event) (computed : string) : string :=
  "Hash mismatch at event " +:+ Event.id event +:+ ": expected "
    +:+ Py.take_str 16 computed +:+ ", got "
    +:+ Py.take_str 16 (Event.hash event).

(** The inner loop: the hash to carry on with, or the early return. *)
Fixpoint verify_events (previous_hash : string) (evs : list Event)
  : string + string :=
  match evs with
  | [] => inl previous_hash
  | event :: rest =>
      if decide (Event.previous_hash event ≠ previous_hash)
      then inr (chain_broken_msg event previous_hash)
      else
        let computed := compute_hash event in
        if decide (Event.hash event ≠ computed)
        then inr (hash_mismatch_msg event computed)
        else verify_events (Event.hash event) rest
  end.

Fixpoint verify_files (d : Disk) (previous_hash : string) (files : list string)
  : bool * option string :=
  match files with
  | [] => (true, None)
  | file_path :: rest =>
      match verify_events previous_hash (_read_file_forward d file_path) with
      | inr msg => (false, Some msg)
      | inl previous_hash => verify_files d previous_hash rest
      end
  end.

Definition verify_chain (d : Disk) : bool * option string :=
  let event_files := Py.sorted (glob "events_*.jsonl*" d) in
  verify_files d GENESIS_HASH event_files.

(** *** EventStore.get_status *)

Definition file_size (d : Disk) (f : string) : Z :=
  Z.of_nat (String.length (default EmptyString (d !! f))).

(** The counting loop; [gzip.decompress] is not guarded here. *)
Fixpoint count_events (d : Disk) (files : list string) (total_events : Z)
  : outcome Z :=
  match files with
  | [] => Ok total_events
  | file_path :: rest =>
      let raw := default EmptyString (d !! file_path) in
      if is_gz file_path then
        match gzip_decompress raw with
        | Some content =>
            count_events d rest
              (total_events
               + Z.of_nat (length (Py.split Py.nl (Py.strip content))))
        | None => Raised "BadGzipFile"
        end
      else
        count_events d rest
          (total_events
           + Z.of_nat (length (filter (λ l, Py.strip l ≠ EmptyString)
                                 (Py.readlines raw))))
  end.

(** [now_iso] is [datetime.now(timezone.utc).isoformat()]. *)
Definition get_status (st : Store) (d : Disk) (now_iso : string)
  : outcome ChainStatus :=
  let event_files := glob "events_*.jsonl*" d in
  let total_size := foldr Z.add 0 (map (file_size d) event_files) in
  let sorted_files := Py.sorted event_files in
  let first_time :=
    match sorted_files with
    | [] => None
    | f :: _ => Event.timestamp <$> head (_read_file_forward d f)
    end in
  match count_events d sorted_files 0 with
  | Raised exn => Raised exn
  | Ok total_events =>
      Ok (ChainStatus.mk total_events true first_time (Some now_iso)
            (Store.last_hash st) (Z.of_nat (length event_files)) total_size)
  end.

(** *** EventStore.cleanup_old_events *)

(** [file_path.stem.split("_")[1][:8]] *)
Definition date_part (file_path : string) : option string :=
  Py.take_str 8 <$> Py.index (Py.split "_"%char (Py.stem file_path)) 1.

(** [cutoff_str] is [(now - timedelta(days=RETENTION_DAYS)).strftime("%Y%m%d")]. *)
Fixpoint cleanup_files (cutoff_str : string) (d : Disk) (files : list string)
  : Disk * outcome unit :=
  match files with
  | [] => (d, Ok ())
  | file_path :: rest =>
      match date_part file_path with
      | None => (d, Raised "IndexError")
      | Some date =>
          if Py.str_lt date cutoff_str
          then cleanup_files cutoff_str (delete file_path d) rest
          else cleanup_files cutoff_str d rest
      end
  end.

Definition cleanup_old_events (cutoff_str : string) (d : Disk)
  : Disk * outcome unit :=
  let event_files := Py.sorted (glob "events_*.jsonl*" d) in
  cleanup_files cutoff_str d event_files.

End EventStore.

(** ** Reference instance of the libraries *)

(** SHA-256 (FIPS 180-4) on byte strings, words as [N] below [2^32]. *)
Module Sha256.
Local Open Scope N_scope.

Definition w32 (x : N) : N := N.land x 4294967295.
Definition add32 (a b : N) : N := w32 (a + b).
Definition rotr (n x : N) : N :=
  N.lor (N.shiftr x n) (w32 (N.shiftl x (32 - n))).
Definition not32 (x : N) : N := N.lxor x 4294967295.

Definition ch (x y z : N) : N := N.lxor (N.land x y) (N.land (not32 x) z).
Definition maj (x y z : N) : N :=
  N.lxor (N.lxor (N.land x y) (N.land x z)) (N.land y z).
Definition bsig0 (x : N) : N := N.lxor (N.lxor (rotr 2 x) (rotr 13 x)) (rotr 22 x).
Definition bsig1 (x : N) : N := N.lxor (N.lxor (rotr 6 x) (rotr 11 x)) (rotr 25 x).
Definition ssig0 (x : N) : N := N.lxor (N.lxor (rotr 7 x) (rotr 18 x)) (N.shiftr x 3).
Definition ssig1 (x : N) : N := N.lxor (N.lxor (rotr 17 x) (rotr 19 x)) (N.shiftr x 10).

Definition K : list N :=
  [ 1116352408; 1899447441; 3049323471; 3921009573;
    961987163; 1508970993; 2453635748; 2870763221;
    3624381080; 310598401; 607225278; 1426881987;
    1925078388; 2162078206; 2614888103; 3248222580;
    3835390401; 4022224774; 264347078; 604807628;
    770255983; 1249150122; 1555081692; 1996064986;
    2554220882; 2821834349; 2952996808; 3210313671;
    3336571891; 3584528711; 113926993; 338241895;
    666307205; 773529912; 1294757372; 1396182291;
    1695183700; 1986661051; 2177026350; 2456956037;
    2730485921; 2820302411; 3259730800; 3345764771;
    3516065817; 3600352804; 4094571909; 275423344;
    430227734; 506948616; 659060556; 883997877;
    958139571; 1322822218; 1537002063; 1747873779;
    1955562222; 2024104815; 2227730452; 2361852424;
    2428436474; 2756734187; 3204031479; 3329325298 ].

Definition H0 : list N :=
  [ 1779033703; 3144134277; 1013904242; 2773480762;
    1359893119; 2600822924; 528734635; 1541459225 ].

Definition bytes_of (s : string) : list N :=
  map N_of_ascii (list_ascii_of_string s).

(** Big-endian bytes of [x], [n] of them. *)
Fixpoint be_bytes (n : nat) (x : N) : list N :=
  match n with
  | O => []
  | S n' => be_bytes n' (N.shiftr x 8) ++ [N.land x 255]
  end.

(** The message, the bit 1, zeros up to 56 modulo 64, the bit length. *)
Definition pad (msg : list N) : list N :=
  let len := N.of_nat (length msg) in
  let zeros := N.to_nat ((119 - len mod 64) mod 64) in
  msg ++ [128] ++ replicate zeros 0 ++ be_bytes 8 (8 * len).

Fixpoint words (fuel : nat) (bytes : list N) : list N :=
  match fuel, bytes with
  | S fuel', a :: b :: c :: d :: rest =>
      (N.shiftl a 24 + N.shiftl b 16 + N.shiftl c 8 + d) :: words fuel' rest
  | _, _ => []
  end.

(** The message schedule: [window] holds the last sixteen words. *)
Fixpoint schedule (n : nat) (window : list N) : list N :=
  match n, window with
  | S n', w0 :: rest =>
      let w1 := nth 0 rest 0 in
      let w9 := nth 8 rest 0 in
      let w14 := nth 13 rest 0 in
      let next := add32 (add32 (add32 (ssig1 w14) w9) (ssig0 w1)) w0 in
      w0 :: schedule n' (rest ++ [next])
  | _, _ => []
  end.

Definition round (st : list N) (kw : N * N) : list N :=
  match st with
  | [a; b; c; d; e; f; g; h] =>
      let t1 := add32 (add32 (add32 (add32 h (bsig1 e)) (ch e f g)) (fst kw)) (snd kw) in
      let t2 := add32 (bsig0 a) (maj a b c) in
      [add32 t1 t2; a; b; c; add32 d t1; e; f; g]
  | _ => st
  end.

Definition compress (h : list N) (block : list N) : list N :=
  let w := schedule 64 block in
  let st := fold_left round (combine K w) h in
  zip_with add32 h st.

Fixpoint blocks (fuel : nat) (h : list N) (ws : list N) : list N :=
  match fuel, ws with
  | S fuel', _ :: _ => blocks fuel' (compress h (take 16 ws)) (drop 16 ws)
  | _, _ => h
  end.

Definition hex_digit (x : N) : ascii :=
  if x <? 10 then ascii_of_N (48 + x) else ascii_of_N (87 + x).

(** Eight lower-case hexadecimal digits. *)
Definition hex8 (x : N) : string :=
  String (hex_digit (N.land (N.shiftr x 28) 15))
 (String (hex_digit (N.land (N.shiftr x 24) 15))
 (String (hex_digit (N.land (N.shiftr x 20) 15))
 (String (hex_digit (N.land (N.shiftr x 16) 15))
 (String (hex_digit (N.land (N.shiftr x 12) 15))
 (String (hex_digit (N.land (N.shiftr x 8) 15))
 (String (hex_digit (N.land (N.shiftr x 4) 15))
 (String (hex_digit (N.land x 15)) EmptyString))))))).

Definition hexdigest (s : string) : string :=
  let ws := words (String.length s + 72) (pad (bytes_of s)) in
  let h := blocks (length ws) H0 ws in
  foldr (λ x acc, hex8 x +:+ acc) EmptyString h.
End Sha256.

(** The printer of [json.dumps] (default separators, [ensure_ascii]) and a
    reader for the JSON grammar, on byte strings.  Outside the model:
    code points above 255 and the literals [NaN] and [Infinity]. *)
Module Json.

Definition dquote : ascii := "034"%char.
Definition backslash : ascii := "092"%char.

Definition hex4 (c : ascii) : string :=
  Py.drop_str 4 (Sha256.hex8 (N_of_ascii c)).

Definition escape_char (c : ascii) : string :=
  let n := nat_of_ascii c in
  if Ascii.eqb c dquote then String backslash (String dquote EmptyString)
  else if Ascii.eqb c backslash then String backslash (String backslash EmptyString)
  else if (n =? 10)%nat then "\n"
  else if (n =? 13)%nat then "\r"
  else if (n =? 9)%nat then "\t"
  else if (n =? 8)%nat then "\b"
  else if (n =? 12)%nat then "\f"
  else if ((n <? 32) || (126 <? n))%nat then "\u" +:+ hex4 c
  else String c EmptyString.

Fixpoint escape (s : string) : string :=
  match s with
  | EmptyString => EmptyString
  | String c r => escape_char c +:+ escape r
  end.

Definition quote (s : string) : string :=
  String dquote (escape s +:+ String dquote EmptyString).

Fixpoint join (sep : string) (l : list string) : string :=
  match l with
  | [] => EmptyString
  | [x] => x
  | x :: r => x +:+ sep +:+ join sep r
  end.

Fixpoint insert_by_key (kv : string * string) (l : list (string * string))
  : list (string * string) :=
  match l with
  | [] => [kv]
  | kv' :: r =>
      if String.ltb kv.1 kv'.1 then kv :: l else kv' :: insert_by_key kv r
  end.

Definition sort_by_key (l : list (string * string)) : list (string * string) :=
  foldr insert_by_key [] l.

Fixpoint dumps (sort_keys : bool) (v : json) : string :=
  match v with
  | JNull => "null"
  | JBool true => "true"
  | JBool false => "false"
  | JInt n => pretty n
  | JFloat lit => lit
  | JStr s => quote s
  | JList items =>
      "[" +:+ join ", " (map (dumps sort_keys) items) +:+ "]"
  | JDict items =>
      let printed := map (λ kv, (kv.1, dumps sort_keys kv.2)) items in
      let printed := if sort_keys then sort_by_key printed else printed in
      "{" +:+ join ", " (map (λ kv, quote kv.1 +:+ ": " +:+ kv.2) printed) +:+ "}"
  end.

Definition is_ws (c : ascii) : bool :=
  let n := nat_of_ascii c in
  ((n =? 32) || (n =? 9) || (n =? 10) || (n =? 13))%nat.

Fixpoint skip_ws (s : string) : string :=
  match s with
  | String c r => if is_ws c then skip_ws r else s
  | EmptyString => s
  end.

Definition hex_value (c : ascii) : option N :=
  let n := N_of_ascii c in
  if ((48 <=? n) && (n <=? 57))%N then Some (n - 48)%N
  else if ((97 <=? n) && (n <=? 102))%N then Some (n - 87)%N
  else if ((65 <=? n) && (n <=? 70))%N then Some (n - 55)%N
  else None.

(** The body of a string literal, after the opening quote. *)
Fixpoint read_string (s : string) : option (string * string) :=
  match s with
  | EmptyString => None
  | String c r =>
      if Ascii.eqb c dquote then Some (EmptyString, r)
      else if Ascii.eqb c backslash then
        match r with
        | String e r' =>
            let plain (x : nat) :=
              '(str, rest) ← read_string r'; Some (String (ascii_of_nat x) str, rest) in
            if Ascii.eqb e dquote then plain 34%nat
            else if Ascii.eqb e backslash then plain 92%nat
            else if Ascii.eqb e "/"%char then plain 47%nat
            else if Ascii.eqb e "b"%char then plain 8%nat
            else if Ascii.eqb e "f"%char then plain 12%nat
            else if Ascii.eqb e "n"%char then plain 10%nat
            else if Ascii.eqb e "r"%char then plain 13%nat
            else if Ascii.eqb e "t"%char then plain 9%nat
            else if Ascii.eqb e "u"%char then
              match r' with
              | String h1 (String h2 (String h3 (String h4 r''))) =>
                  a ← hex_value h1; b ← hex_value h2;
                  c3 ← hex_value h3; d ← hex_value h4;
                  if ((a =? 0) && (b =? 0))%N then
                    '(str, rest) ← read_string r'';
                    Some (String (ascii_of_N (16 * c3 + d)) str, rest)
                  else None
              | _ => None
              end
            else None
        | EmptyString => None
        end
      else if (nat_of_ascii c <? 32)%nat then None
      else '(str, rest) ← read_string r; Some (String c str, rest)
  end.

Definition is_digit (c : ascii) : bool :=
  let n := nat_of_ascii c in ((48 <=? n) && (n <=? 57))%nat.

Fixpoint span_digits (s : string) : string * string :=
  match s with
  | String c r =>
      if is_digit c then let '(d, rest) := span_digits r in (String c d, rest)
      else (EmptyString, s)
  | EmptyString => (EmptyString, EmptyString)
  end.

Fixpoint digits_value (acc : Z) (s : string) : Z :=
  match s with
  | String c r => digits_value (10 * acc + (Z.of_nat (nat_of_ascii c) - 48)) r
  | EmptyString => acc
  end.

(** An optional minus, an integer part without leading zeros, then an
    optional fraction and an optional exponent; an integer when it has
    neither. *)
Definition read_number (s : string) : option (json * string) :=
  let '(neg, s1) :=
    match s with
    | String "-"%char r => (true, r)
    | _ => (false, s)
    end in
  let '(int_part, s2) := span_digits s1 in
  match int_part with
  | EmptyString => None
  | String d ds =>
      if Ascii.eqb d "0"%char && negb (bool_decide (ds = EmptyString)) then None
      else
        let frac :=
          match s2 with
          | String "."%char r =>
              let '(f, r') := span_digits r in
              if bool_decide (f = EmptyString) then None
              else Some ("." +:+ f, r')
          | _ => Some (EmptyString, s2)
          end in
        '(f, s3) ← frac;
        let expo :=
          match s3 with
          | String e r =>
              if Ascii.eqb e "e"%char || Ascii.eqb e "E"%char then
                let '(sign, r1) :=
                  match r with
                  | String "+"%char r1 => ("+", r1)
                  | String "-"%char r1 => ("-", r1)
                  | _ => (EmptyString, r)
                  end in
                let '(x, r2) := span_digits r1 in
                if bool_decide (x = EmptyString) then None
                else Some (String e sign +:+ x, r2)
              else Some (EmptyString, s3)
          | EmptyString => Some (EmptyString, s3)
          end in
        '(x, s4) ← expo;
        let sign := if neg then "-" else EmptyString in
        if bool_decide (f = EmptyString) && bool_decide (x = EmptyString)
        then Some (JInt (if neg then - digits_value 0 int_part
                         else digits_value 0 int_part), s4)
        else Some (JFloat (sign +:+ int_part +:+ f +:+ x), s4)
  end.

(** [d[k] = v] on an insertion-ordered dict. *)
Fixpoint dict_set (k : string) (v : json) (items : list (string * json))
  : list (string * json) :=
  match items with
  | [] => [(k, v)]
  | (k', v') :: r =>
      if decide (k' = k) then (k, v) :: r else (k', v') :: dict_set k v r
  end.

Definition expect (word : string) (v : json) (s : string) : option (json * string) :=
  if String.prefix word s then Some (v, Py.drop_str (String.length word) s)
  else None.

Fixpoint read_value (fuel : nat) (s : string) : option (json * string) :=
  match fuel with
  | O => None
  | S fuel' =>
      match skip_ws s with
      | String c r =>
          if Ascii.eqb c "n"%char then expect "null" JNull (String c r)
          else if Ascii.eqb c "t"%char then expect "true" (JBool true) (String c r)
          else if Ascii.eqb c "f"%char then expect "false" (JBool false) (String c r)
          else if Ascii.eqb c dquote then
            '(str, rest) ← read_string r; Some (JStr str, rest)
          else if Ascii.eqb c "["%char then
            match skip_ws r with
            | String "]"%char r' => Some (JList [], r')
            | _ => read_items fuel' r []
            end
          else if Ascii.eqb c "{"%char then
            match skip_ws r with
            | String "}"%char r' => Some (JDict [], r')
            | _ => read_members fuel' r []
            end
          else read_number (String c r)
      | EmptyString => None
      end
  end
with read_items (fuel : nat) (s : string) (acc : list json)
  : option (json * string) :=
  match fuel with
  | O => None
  | S fuel' =>
      '(v, rest) ← read_value fuel' s;
      match skip_ws rest with
      | String c r =>
          if Ascii.eqb c ","%char then read_items fuel' r (acc ++ [v])
          else if Ascii.eqb c "]"%char then Some (JList (acc ++ [v]), r)
          else None
      | EmptyString => None
      end
  end
with read_members (fuel : nat) (s : string) (acc : list (string * json))
  : option (json * string) :=
  match fuel with
  | O => None
  | S fuel' =>
      match skip_ws s with
      | String "034"%char r =>
          '(k, rest) ← read_string r;
          match skip_ws rest with
          | String ":"%char r1 =>
              '(v, rest1) ← read_value fuel' r1;
              match skip_ws rest1 with
              | String c r2 =>
                  if Ascii.eqb c ","%char then read_members fuel' r2 (dict_set k v acc)
                  else if Ascii.eqb c "}"%char then Some (JDict (dict_set k v acc), r2)
                  else None
              | EmptyString => None
              end
          | _ => None
          end
      | _ => None
      end
  end.

Definition loads (s : string) : option json :=
  '(v, rest) ← read_value (S (String.length s)) s;
  if bool_decide (skip_ws rest = EmptyString) then Some v else None.

End Json.

(** The validation pydantic derives from the field declarations of
    [Event], on a parsed record.  The default factories of [id] and
    [timestamp] read the clock and [os.urandom]: a record that lacks one
    of the two is outside this instance. *)
Module Pydantic.

Definition category_of (s : string) : option EventCategory :=
  if decide (s = "system") then Some SYSTEM
  else if decide (s = "service") then Some SERVICE
  else if decide (s = "security") then Some SECURITY
  else if decide (s = "ai") then Some AI
  else if decide (s = "user") then Some USER
  else if decide (s = "config") then Some CONFIG
  else if decide (s = "error") then Some ERROR
  else None.

Definition str_field (items : list (string * json)) (key : string)
  (dflt : option string) : option string :=
  match dict_get key items with
  | Some (JStr s) => Some s
  | Some _ => None
  | None => dflt
  end.

Definition optional_field (items : list (string * json)) (key : string)
  : option (option string) :=
  match dict_get key items with
  | Some (JStr s) => Some (Some s)
  | Some JNull | None => Some None
  | Some _ => None
  end.

Definition validate (v : json) : option Event :=
  match v with
  | JDict items =>
      id ← str_field items "id" None;
      timestamp ← str_field items "timestamp" None;
      category ← match dict_get "category" items with
                 | Some (JStr s) => category_of s
                 | Some _ => None
                 | None => Some SYSTEM
                 end;
      action ← str_field items "action" None;
      actor ← str_field items "actor" None;
      target ← optional_field items "target";
      data ← match dict_get "data" items with
             | Some (JDict d) => Some d
             | Some _ => None
             | None => Some []
             end;
      result ← str_field items "result" (Some "success");
      error ← optional_field items "error";
      previous_hash ← str_field items "previous_hash" (Some GENESIS_HASH);
      hash ← str_field items "hash" (Some EmptyString);
      Some (Event.mk id timestamp category action actor target data result
              error previous_hash hash)
  | _ => None
  end.

Definition model_validate_json (s : string) : option Event :=
  Json.loads s ≫= validate.

End Pydantic.

(** A stand-in for gzip: a header with the magic number and the length,
    then the content stored as it is.  Like gzip, reading back checks the
    whole file, so a truncated file is rejected. *)
Module Gzip.
Definition compress (content : string) : string :=
  String "031"%char (String "139"%char
    (Sha256.hex8 (N.of_nat (String.length content)) +:+ content)).

Definition decompress (raw : string) : option string :=
  let content := Py.drop_str 10 raw in
  if decide (raw = compress content) then Some content else None.
End Gzip.

Definition ref_lib (max_file_size_mb : Z) : Lib :=
  {| sha256_hex := Sha256.hexdigest;
     json_dumps := Json.dumps;
     json_loads := Json.loads;
     model_validate_json := Pydantic.model_validate_json;
     gzip_compress := Gzip.compress;
     gzip_decompress := Gzip.decompress;
     MAX_FILE_SIZE_MB := max_file_size_mb |}.

(** ** Runs of a store *)

(** What happens to a store between its start and a later call: appends,
    and the event loop running a scheduled compression task. *)
Inductive action : Type :=
  | Append (env : AppendEnv) (event : Event)
  | RunTask (f : compress_fault).

Section Runs.
Context {L : Lib}.

Definition step (w : World) (a : action) : World :=
  match a with
  | Append env event => (append env w event).1
  | RunTask f => run_task f w
  end.

Definition run (w : World) (acts : list action) : World :=
  fold_left step acts w.

(** A store object started on an empty directory. *)
Definition fresh_world (stamp : string) : World :=
  mkWorld (_create_new_file init_store stamp) ∅ [].

(** The events of a run, in the order of their appends. *)
Definition appended (acts : list action) : list Event :=
  omap (λ a, match a with Append _ e => Some e | RunTask _ => None end) acts.

(** The chain the appends of a run build: every event linked to its
    predecessor's hash, the first one to [prev]. *)
Fixpoint link (prev : string) (events : list Event) : list Event :=
  match events with
  | [] => []
  | e :: rest =>
      let e' := with_hash (Event.set_previous_hash e prev) in
      e' :: link (Event.hash e') rest
  end.

Definition no_newline (s : string) : bool :=
  negb (Py.contains (String Py.nl EmptyString) s).

(** A line of text without a newline inside and without white space
    around it: what [json.dumps] prints for a dict. *)
Definition tight_line (s : string) : Prop :=
  no_newline s = true ∧ Py.strip s = s ∧ s ≠ EmptyString.

(** The record of an event is one tight line that reads back as the
    event: what [json.dumps] and [model_validate_json] guarantee for a
    record whose values are JSON values. *)
Definition line_ok (e : Event) : Prop :=
  tight_line (json_dumps false (model_dump e)) ∧
  model_validate_json (json_dumps false (model_dump e)) = Some e.

(** The clock condition of a run: whenever an append rotates, the clock
    reading that names the new segment is later, to the second, than the
    one that named the active segment. *)
Definition stamp_of (file : option string) : string :=
  match file with
  | Some name => Py.take_str (String.length name - 13) (Py.drop_str 7 name)
  | None => EmptyString
  end.

Fixpoint clock_ok (w : World) (acts : list action) : Prop :=
  match acts with
  | [] => True
  | a :: rest =>
      match a with
      | Append env _ =>
          fault env = WriteOk ∧ String.length (now_stamp env) = 15%nat ∧
          (needs_rotation w = true →
           Py.str_lt (stamp_of (Store.current_file (store w))) (now_stamp env) = true)
      | RunTask f => f = NoFault
      end ∧ clock_ok (step w a) rest
  end.

(** Every append of a run returned its event. *)
Fixpoint appends_ok (w : World) (acts : list action) : bool :=
  match acts with
  | [] => true
  | a :: rest =>
      match a with
      | Append env e =>
          match (append env w e).2 with
          | Ok _ => true
          | Raised _ => false
          end
      | RunTask _ => true
      end && appends_ok (step w a) rest
  end.

(** The events [verify_chain] reads, oldest segment first, and its
    answer from the result of the inner loop. *)
Definition forward_events (d : Disk) (files : list string) : list Event :=
  concat (map (_read_file_forward d) files).

Definition verdict (r : string + string) : bool * option string :=
  match r with
  | inl _ => (true, None)
  | inr msg => (false, Some msg)
  end.

(** What the directory may show of a segment while a task works on it:
    the segment whole, or the segment gone and its compressed file
    whole. *)
Definition segment_safe (file_path content : string) (d : Disk) : Prop :=
  d !! file_path = Some content ∨
  (d !! file_path = None ∧
   d !! (file_path +:+ ".gz") = Some (gzip_compress content)).

(** The date test of [cleanup_old_events] on one file name. *)
Definition expired (cutoff_str file_path : string) : bool :=
  match date_part file_path with
  | Some date => Py.str_lt date cutoff_str
  | None => false
  end.

(** A text that is empty or ends with a newline. *)
Fixpoint line_aligned (s : string) : bool :=
  match s with
  | EmptyString => true
  | String c EmptyString => Ascii.eqb c Py.nl
  | String _ r => line_aligned r
  end.

(** The lines one of the two readers iterates over for a segment, and
    whether it strips each of them: a plain segment is split by the file
    iterator, a compressed one is decompressed, stripped and split. *)
Definition segment_lines (d : Disk) (file_path : string)
  : option (bool * list string) :=
  match d !! file_path with
  | None => None
  | Some raw =>
      if is_gz file_path then
        match gzip_decompress raw with
        | Some content => Some (false, Py.split Py.nl (Py.strip content))
        | None => None
        end
      else Some (true, Py.readlines raw)
  end.

(** A line the readers pass: blank, or a valid record. *)
Definition readable (strip_each : bool) (line : string) : bool :=
  let line := if strip_each then Py.strip line else line in
  match model_validate_json line with
  | Some _ => true
  | None => bool_decide (line = EmptyString)
  end.

(** A line the readers yield the event [e] for. *)
Definition reads_as (strip_each : bool) (line : string) (e : Event) : Prop :=
  let line := if strip_each then Py.strip line else line in
  line ≠ EmptyString ∧ model_validate_json line = Some e.

End Runs.

(** A change of one field of a stored event. *)
Inductive mutation : Type :=
  | MutId (v : string)
  | MutTimestamp (v : string)
  | MutCategory (v : EventCategory)
  | MutAction (v : string)
  | MutActor (v : string)
  | MutTarget (v : option string)
  | MutData (v : list (string * json))
  | MutResult (v : string)
  | MutError (v : option string)
  | MutPreviousHash (v : string)
  | MutHash (v : string).

Definition mutate (m : mutation) (e : Event) : Event :=
  let '(Event.mk id ts cat act actor tgt data res err prev h) := e in
  match m with
  | MutId v => Event.mk v ts cat act actor tgt data res err prev h
  | MutTimestamp v => Event.mk id v cat act actor tgt data res err prev h
  | MutCategory v => Event.mk id ts v act actor tgt data res err prev h
  | MutAction v => Event.mk id ts cat v actor tgt data res err prev h
  | MutActor v => Event.mk id ts cat act v tgt data res err prev h
  | MutTarget v => Event.mk id ts cat act actor v data res err prev h
  | MutData v => Event.mk id ts cat act actor tgt v res err prev h
  | MutResult v => Event.mk id ts cat act actor tgt data v err prev h
  | MutError v => Event.mk id ts cat act actor tgt data res v prev h
  | MutPreviousHash v => Event.mk id ts cat act actor tgt data res err v h
  | MutHash v => Event.mk id ts cat act actor tgt data res err prev v
  end.

(** The mutations of the two chain fields, which [verify_chain] compares
    directly; the others are seen through the recomputed hash. *)
Definition on_chain_field (m : mutation) : bool :=
  match m with
  | MutPreviousHash _ | MutHash _ => true
  | _ => false
  end.

(** ** The segments behind a store *)

(** One segment: the clock reading in its name, whether the compressor
    has replaced it by its compressed file, and the events written to
    it. *)
Record Seg : Type := mkSeg {
  seg_stamp : string;
  seg_gz : bool;
  seg_events : list Event
}.

Section Segments.
Context {L : Lib}.

(** The text [append] has written for a list of events. *)
Definition text_of (events : list Event) : string :=
  foldr (λ e acc, event_line e +:+ acc) EmptyString events.

(** The same text without its last newline. *)
Fixpoint joined (es : list Event) : string :=
  match es with
  | [] => EmptyString
  | [e] => json_dumps false (model_dump e)
  | e :: rest => json_dumps false (model_dump e) +:+ String Py.nl (joined rest)
  end.

Definition seg_plain (s : Seg) : string := new_file_name (seg_stamp s).

Definition seg_file (s : Seg) : string :=
  if seg_gz s then seg_plain s +:+ ".gz" else seg_plain s.

Definition seg_content (s : Seg) : string :=
  if seg_gz s then gzip_compress (text_of (seg_events s))
  else text_of (seg_events s).

(** A segment is on disk from its first event on. *)
Definition seg_on_disk (d : Disk) (s : Seg) : Prop :=
  d !! seg_file s
  = match seg_events s with
    | [] => None
    | _ => Some (seg_content s)
    end.

Definition seg_used (s : Seg) : bool :=
  match seg_events s with
  | [] => false
  | _ => true
  end.

(** The stamps of two segments, as the names order them. *)
Definition seg_before (a b : Seg) : Prop :=
  Py.str_lt (seg_stamp a) (seg_stamp b) = true ∧
  String.length (seg_stamp a) = String.length (seg_stamp b).

(** The hash the next event links to. *)
Definition tip (prev : string) (chain : list Event) : string :=
  default prev (Event.hash <$> last chain).

(** What a run keeps true of a store: the closed segments and the
    active one, in the order of their creation, account for the
    directory, the chain and the scheduled tasks. *)
Record store_inv (w : World) (closed : list Seg) (cur : Seg)
    (events : list Event) : Prop := {
  inv_current : Store.current_file (store w) = Some (seg_plain cur);
  inv_cur_plain : seg_gz cur = false;
  inv_width : String.length (seg_stamp cur) = 15%nat;
  inv_closed : Forall (λ s, seg_used s = true) closed;
  inv_chain :
    concat (map seg_events (closed ++ [cur])) = link GENESIS_HASH events;
  inv_tip :
    Store.last_hash (store w) = tip GENESIS_HASH (link GENESIS_HASH events);
  inv_disk : Forall (seg_on_disk (disk w)) (closed ++ [cur]);
  inv_names :
    ∀ n, is_Some (disk w !! n) → ∃ s, s ∈ closed ++ [cur] ∧ n = seg_file s;
  inv_order : StronglySorted seg_before (closed ++ [cur]);
  inv_tasks :
    NoDup (tasks w) ∧
    ∀ p, p ∈ tasks w → ∃ s, s ∈ closed ∧ seg_gz s = false ∧ seg_plain s = p
}.

End Segments.
(** ** The HTTP application *)

(** What an endpoint hands to FastAPI: the value it returns, or the
    [HTTPException] it raises. *)
Inductive response (A : Type) : Type :=
  | Returned (a : A)
  | HTTPException (status_code : Z) (detail : json).
Arguments Returned {A} a.
Arguments HTTPException {A} status_code detail.

Module App.
Section Endpoints.
Context {L : Lib}.

(** GET /events/{event_id}: the loop over the events of the query. *)
Fixpoint first_with_id (event_id : string) (events : list Event)
  : response Event :=
  match events with
  | [] => HTTPException 404 (JStr "Event not found")
  | event :: rest =>
      if decide (Event.id event = event_id) then Returned event
      else first_with_id event_id rest
  end.

Definition get_event (d : Disk) (event_id : string) : response Event :=
  let query_ := EventQuery.mk None None None None None None 1000 0 in
  let events := query d query_ in
  first_with_id event_id events.

(** POST /verify *)
Definition verify_chain (d : Disk) : response json :=
  let '(valid, error) := verify_chain d in
  if valid
  then Returned (JDict [("status", JStr "valid");
                        ("message", JStr "Chain integrity verified")])
  else HTTPException 500
         (JDict [("status", JStr "invalid"); ("error", json_of_optional error)]).

End Endpoints.
End App.

(** ** Histories *)

Section Histories.
Context {L : Lib}.

(** The events the [append] calls of a run return, in order. *)
Fixpoint returned (w : World) (acts : list action) : list Event :=
  match acts with
  | [] => []
  | a :: rest =>
      match a with
      | Append env e =>
          match (append env w e).2 with
          | Ok e' => e' :: returned (step w a) rest
          | Raised _ => returned (step w a) rest
          end
      | RunTask _ => returned (step w a) rest
      end
  end.

(** The chain conditions of the data model on a sequence of events:
    every event carries the hash of its own fields and the hash of its
    predecessor, the first one [prev]. *)
Fixpoint chained (prev : string) (events : list Event) : Prop :=
  match events with
  | [] => True
  | e :: rest =>
      Event.previous_hash e = prev ∧ Event.hash e = compute_hash e ∧
      chained (Event.hash e) rest
  end.

(** The events of the directory as [verify_chain] reads them, and as
    [query] reads them. *)
Definition history (d : Disk) : list Event :=
  forward_events d (Py.sorted (glob "events_*.jsonl*" d)).

Definition history_newest_first (d : Disk) : list Event :=
  concat (map (_read_file d) (reverse (Py.sorted (glob "events_*.jsonl*" d)))).

(** A store object started on the directory another one has left. *)
Definition restart (w : World) (stamp : string) : outcome World :=
  match initialize init_store (disk w) stamp with
  | Ok st => Ok (mkWorld st (disk w) [])
  | Raised exn => Raised exn
  end.

(** A line [initialize] passes over: blank, or rejected by [json.loads]. *)
Definition passed_over (line : string) : bool :=
  let line := Py.strip line in
  if decide (line = EmptyString) then true
  else match json_loads line with
       | Some _ => false
       | None => true
       end.

End Histories.

(** ** Concrete stores, for evaluating the model *)

Module Scenario.

(** The libraries with the default segment size, and with a segment
    size of zero, under which every append to an existing segment
    rotates. *)
Definition lib100 : Lib := ref_lib 100.
Definition lib0 : Lib := ref_lib 0.

Definition event (id action : string) : Event :=
  Event.mk id "2025-01-01T00:00:00+00:00" SYSTEM action "svc" None []
    "success" None GENESIS_HASH EmptyString.

Definition A : Event := event "A" "boot".
Definition B : Event := event "B" "login".
Definition C : Event := event "C" "logout".

Definition at_ (stamp : string) : AppendEnv := mkAppendEnv stamp WriteOk.

Definition t0 : string := "20250101_000000".
Definition t1 : string := "20250101_000001".
Definition seg0 : string := "events_20250101_000000.jsonl".

(** A, B and C appended to a fresh store within one second. *)
Definition abc : World :=
  run (L := lib100) (fresh_world t0)
    [Append (at_ t0) A; Append (at_ t0) B; Append (at_ t0) C].

(** The three events as the store persisted them. *)
Definition chain_abc : list Event := link (L := lib100) GENESIS_HASH [A; B; C].
Definition A' : Event := default A (chain_abc !! 0%nat).
Definition B' : Event := default B (chain_abc !! 1%nat).
Definition C' : Event := default C (chain_abc !! 2%nat).

(** The same history with the action of B rewritten on disk. *)
Definition B_action : Event := mutate (MutAction "logout") B'.
Definition abc_action : Disk :=
  <[seg0 := event_line (L := lib100) A' +:+ event_line (L := lib100) B_action
            +:+ event_line (L := lib100) C']> (disk abc).

(** The same history with the category of B rewritten on disk to a
    value outside the enumeration. *)
Definition B_bogus_line : string :=
  Json.dumps false
    (JDict (Json.dict_set "category" (JStr "bogus")
              (dump_fields B' ++ [("hash", JStr (Event.hash B'))])))
  +:+ String Py.nl EmptyString.
Definition abc_bogus : Disk :=
  <[seg0 := event_line (L := lib100) A' +:+ B_bogus_line
            +:+ event_line (L := lib100) C']> (disk abc).

(** The same history with the record of B replaced by a line that is
    no JSON. *)
Definition abc_garbage : Disk :=
  <[seg0 := event_line (L := lib100) A' +:+ "not json"
            +:+ String Py.nl (event_line (L := lib100) C')]> (disk abc).
Definition abc_cut : Disk :=
  <[seg0 := event_line (L := lib100) A']> (disk abc).

Definition t2 : string := "20250101_000002".

(** With a segment size of zero: A starts the segment, the append of B
    rotates within the second that named the segment, the compression
    task the rotation scheduled runs, and C is appended. *)
Definition same_second : list action :=
  [Append (at_ t0) A; Append (at_ t0) B; RunTask NoFault; Append (at_ t0) C].

(** The same appends, each rotation at a later second. *)
Definition later_seconds : list action :=
  [Append (at_ t0) A; Append (at_ t1) B; RunTask NoFault; Append (at_ t2) C].

(** A directory whose only segment is compressed. *)
Definition only_gz : Disk :=
  {[ "events_20250101_000000.jsonl.gz" :=
       Gzip.compress (event_line (L := lib100) A') ]}.

(** A store whose active segment carries a date of 2020. *)
Definition old_active : World :=
  run (L := lib100) (fresh_world "20200101_000000")
    [Append (at_ "20200101_000000") A].

Definition all_events (limit offset : Z) : EventQuery :=
  EventQuery.mk None None None None None None limit offset.

Definition D : Event := event "D" "stop".
Definition t_old : string := "20240101_000000".
Definition t_next_day : string := "20250102_000000".

(** With a segment size of zero: A is appended in 2024, B a year
    later, so that each has a segment of its own. *)
Definition two_days : list action :=
  [Append (at_ t_old) A; Append (at_ t0) B].

(** The store of A, B and C after an append of D whose write has
    stopped after forty bytes. *)
Definition torn : World :=
  (append (L := lib100) (mkAppendEnv t0 (WriteFails 40)) abc D).1.

(** A segment whose only line is JSON but no object, and a compressed
    segment that is no gzip file. *)
Definition no_object : Disk :=
  {[ seg0 := "[1, 2]" +:+ String Py.nl EmptyString ]}.
Definition bad_gz : Disk :=
  {[ "events_20250101_000000.jsonl.gz" := "not gzip" ]}.



End Scenario.

(** * Properties *)

(** ** Text *)

Section Text.

Lemma str_app_cons (c : ascii) (a b : string) :
  String c a +:+ b = String c (a +:+ b).
Proof. done. Qed.

Lemma str_app_nil_l (s : string) : EmptyString +:+ s = s.
Proof. done. Qed.

Lemma str_app_nil_r (s : string) : s +:+ EmptyString = s.
Proof. induction s as [|c s IH]; [done|]. by rewrite str_app_cons, IH. Qed.

Lemma str_app_assoc (a b c : string) : (a +:+ b) +:+ c = a +:+ b +:+ c.
Proof. induction a as [|x a IH]; [done|]. by rewrite !str_app_cons, IH. Qed.

Lemma str_app_length (a b : string) :
  String.length (a +:+ b) = (String.length a + String.length b)%nat.
Proof.
  induction a as [|x a IH]; [done|]. rewrite str_app_cons. cbn. by rewrite IH.
Qed.

End Text.

(** ** Status *)

Section Status.
Context {L : Lib}.

Lemma get_status_inv st d now_iso s :
  get_status st d now_iso = Ok s →
  ChainStatus.chain_valid s = true ∧
  ChainStatus.last_event_time s = Some now_iso ∧
  ChainStatus.last_hash s = Store.last_hash st.
Proof.
  unfold get_status. destruct (count_events _ _ _) as [n|exn]; [|done].
  intros [= <-]. done.
Qed.

(** C10. Whatever the store and its directory hold, a status that
    [get_status] returns has [chain_valid] set to true: the field is a
    constant of the constructor call, no verification feeds it. *)
Theorem get_status_chain_valid_constant st d now_iso s :
  get_status st d now_iso = Ok s → ChainStatus.chain_valid s = true.
Proof. intros H. by apply get_status_inv in H as (? & _). Qed.

End Status.

(** The status of a tampered history, which [verify_chain] rejects, still
    says the chain is valid. *)
Lemma get_status_chain_valid_on_tampered_chain :
  ∃ s msg,
    verify_chain (L := Scenario.lib100) Scenario.abc_action = (false, Some msg) ∧
    get_status (L := Scenario.lib100) (store Scenario.abc) Scenario.abc_action
      "2026-11-04T12:00:00+00:00" = Ok s ∧
    ChainStatus.chain_valid s = true.
Proof.
  eexists _, _. split; [vm_compute; reflexivity|].
  split; [vm_compute; reflexivity|].
  apply (get_status_chain_valid_constant (L := Scenario.lib100)
           (store Scenario.abc) Scenario.abc_action "2026-11-04T12:00:00+00:00").
  vm_compute; reflexivity.
Defined.

(** C9. The store holds A, B and C, all stamped 2025-01-01; asked on
    2026-11-04, [get_status] counts the three events and reports the
    timestamp of A as the first, but the clock reading of the call as the
    last event time. *)
Theorem get_status_last_event_time_is_the_clock :
  get_status (L := Scenario.lib100) (store Scenario.abc) (disk Scenario.abc)
    "2026-11-04T12:00:00+00:00"
  = Ok (ChainStatus.mk 3 true (Some "2025-01-01T00:00:00+00:00")
          (Some "2026-11-04T12:00:00+00:00")
          (Event.hash Scenario.C') 1 1008)
  ∧ Event.timestamp <$> last (_read_file_forward (L := Scenario.lib100)
                                (disk Scenario.abc) Scenario.seg0)
    = Some "2025-01-01T00:00:00+00:00".
Proof. split; vm_compute; reflexivity. Qed.

(** ** Append *)

Section AppendFault.
Context {L : Lib}.

Lemma rotate_keeps_chain_state w stamp :
  Store.last_hash (store (_rotate_file w stamp)) = Store.last_hash (store w) ∧
  Store.event_count (store (_rotate_file w stamp)) = Store.event_count (store w).
Proof.
  unfold _rotate_file.
  destruct (Store.current_file (store w)) as [old|]; [|done].
  by case_decide.
Qed.

(** C4. When the write of an [append] call raises (at [open] or in
    [write]), the call raises [OSError] to its caller, and [last_hash]
    and [event_count] of the store are what they were before the call. *)
Theorem append_io_error_keeps_chain_state env w event :
  fault env ≠ WriteOk →
  (append env w event).2 = Raised "OSError" ∧
  Store.last_hash (store (append env w event).1) = Store.last_hash (store w) ∧
  Store.event_count (store (append env w event).1) = Store.event_count (store w).
Proof.
  intros Hfault. unfold append.
  pose proof (rotate_keeps_chain_state w (now_stamp env)) as [Hh Hc].
  destruct (needs_rotation w);
    destruct (fault env) as [| |n]; try done; cbn;
    repeat match goal with
           | |- context [Store.current_file ?s] =>
               destruct (Store.current_file s); cbn
           end; auto.
Qed.

End AppendFault.

(** The disk fills up while C is written to the store that holds A and
    B: the call raises, and the store still carries the hash of B and a
    count of two. *)
Lemma append_io_error_keeps_chain_state_witness :
  let w := run (L := Scenario.lib100) (fresh_world Scenario.t0)
             [Append (Scenario.at_ Scenario.t0) Scenario.A;
              Append (Scenario.at_ Scenario.t0) Scenario.B] in
  let env := mkAppendEnv Scenario.t0 (WriteFails 40) in
  fault env ≠ WriteOk ∧
  (append (L := Scenario.lib100) env w Scenario.C).2 = Raised "OSError" ∧
  Store.last_hash (store (append (L := Scenario.lib100) env w Scenario.C).1)
    = Event.hash Scenario.B' ∧
  Store.event_count (store (append (L := Scenario.lib100) env w Scenario.C).1) = 2.
Proof.
  intros w env.
  destruct (append_io_error_keeps_chain_state (L := Scenario.lib100)
              env w Scenario.C) as (Hr & Hh & Hc); [done|].
  split; [done|]. split; [exact Hr|].
  split; [rewrite Hh | rewrite Hc]; vm_compute; reflexivity.
Defined.

(** ** Segment names *)

Section Paths.

Lemma take_str_app (a b : string) : Py.take_str (String.length a) (a +:+ b) = a.
Proof.
  unfold Py.take_str. induction a as [|c a IH]; cbn.
  - by destruct b.
  - rewrite str_app_cons. cbn. by rewrite IH.
Qed.

Lemma drop_str_app (a b : string) : Py.drop_str (String.length a) (a +:+ b) = b.
Proof. induction a as [|c a IH]; [done|]. by rewrite str_app_cons. Qed.

Lemma rfind_dot_ext (a ext : string) :
  Py.rfind_dot ext = None →
  Py.rfind_dot (a +:+ String "."%char ext) = Some (String.length a).
Proof.
  intros Hext. induction a as [|c a IH].
  - rewrite str_app_nil_l. cbn. by rewrite Hext.
  - rewrite str_app_cons. cbn. by rewrite IH.
Qed.

Lemma suffix_ext (a ext : string) :
  a ≠ EmptyString → ext ≠ EmptyString → Py.rfind_dot ext = None →
  Py.suffix (a +:+ String "."%char ext) = String "."%char ext ∧
  Py.stem (a +:+ String "."%char ext) = a.
Proof.
  intros Ha Hext Hdot. unfold Py.suffix, Py.stem.
  rewrite (rfind_dot_ext _ _ Hdot), str_app_length.
  assert (0 < String.length a)%nat by (destruct a; [done | cbn; lia]).
  assert (0 < String.length ext)%nat by (destruct ext; [done | cbn; lia]).
  assert (((0 <? String.length a)
           && (String.length a
               <? String.length a + String.length (String "."%char ext) - 1))%nat
          = true) as ->.
  { cbn [String.length]. apply andb_true_iff.
    split; apply Nat.ltb_lt; lia. }
  by rewrite drop_str_app, take_str_app.
Qed.

Lemma new_file_name_split (stamp : string) :
  new_file_name stamp = ("events_" +:+ stamp) +:+ String "."%char "jsonl".
Proof. unfold new_file_name. by rewrite str_app_assoc. Qed.

Lemma events_prefix_ne (stamp : string) : "events_" +:+ stamp ≠ EmptyString.
Proof. by rewrite str_app_cons. Qed.

Lemma new_file_name_ne (stamp : string) : new_file_name stamp ≠ EmptyString.
Proof. unfold new_file_name. by rewrite str_app_cons. Qed.

Lemma new_file_name_suffix (stamp : string) :
  Py.suffix (new_file_name stamp) = ".jsonl".
Proof.
  rewrite new_file_name_split.
  by apply suffix_ext; [apply events_prefix_ne|..].
Qed.

(** The path [_compress_file] writes to is the segment name with [.gz]
    added. *)
Lemma compressed_path_eq (stamp : string) :
  Py.with_suffix (new_file_name stamp) ".jsonl.gz" = new_file_name stamp +:+ ".gz".
Proof.
  unfold Py.with_suffix. rewrite new_file_name_split.
  destruct (suffix_ext ("events_" +:+ stamp) "jsonl") as [_ ->];
    [apply events_prefix_ne | done..|].
  rewrite !str_app_assoc. reflexivity.
Qed.

Lemma gz_name_suffix (name : string) :
  name ≠ EmptyString → Py.suffix (name +:+ ".gz") = ".gz".
Proof. intros. by apply (suffix_ext name "gz"). Qed.

Lemma str_app_ne_self (a b : string) : b ≠ EmptyString → a +:+ b ≠ a.
Proof.
  intros Hb Heq. apply (f_equal String.length) in Heq.
  rewrite str_app_length in Heq. destruct b; [done | cbn in Heq; lia].
Qed.

End Paths.

(** ** Compression *)

Section Compression.
Context {L : Lib}.

(** C8. A task compresses the closed segment [file_path], of content
    [content], and may fail at any of its file operations.  In every
    directory state of the task the segment is whole, or it is gone and
    the compressed file is whole; a state without the segment comes
    right after a state that holds both the segment and the whole
    compressed file; a task that fails leaves the segment as it was, and
    one that does not fail ends with the compressed file alone. *)
Theorem compress_file_keeps_segment_or_whole_gz f (d : Disk) stamp content :
  let file_path := new_file_name stamp in
  let trace := compress_trace f d file_path in
  d !! file_path = Some content →
  Forall (segment_safe file_path content) trace ∧
  (∀ i d', trace !! S i = Some d' → d' !! file_path = None →
     ∃ d0, trace !! i = Some d0 ∧ d0 !! file_path = Some content ∧
           d0 !! (file_path +:+ ".gz") = Some (gzip_compress content)) ∧
  (f ≠ NoFault → _compress_file f d file_path !! file_path = Some content) ∧
  (f = NoFault →
     _compress_file f d file_path !! file_path = None ∧
     _compress_file f d file_path !! (file_path +:+ ".gz")
       = Some (gzip_compress content)).
Proof.
  intros file_path trace Hfile. subst file_path trace.
  unfold _compress_file, compress_trace. rewrite compressed_path_eq.
  set (file_path := new_file_name stamp) in *.
  assert (file_path +:+ ".gz" ≠ file_path) as Hne by by apply str_app_ne_self.
  rewrite Hfile.
  unfold segment_safe.
  destruct f as [| | |n|]; cbn [last default].
  - (* no fault *)
    split; [|split; [|split]]; [| |done|].
    + repeat apply Forall_cons_2; try apply Forall_nil_2;
        first [left; by simplify_map_eq | right; by simplify_map_eq].
    + intros [|[|[|i]]] d'; cbn; intros [= <-]; simplify_map_eq; try done.
      intros _. eexists; split; [done|]. by simplify_map_eq.
    + intros _. by simplify_map_eq.
  - split; [|split; [|split]]; [| | |done].
    + repeat apply Forall_cons_2; try apply Forall_nil_2; by left.
    + by intros [|i] d'.
    + done.
  - split; [|split; [|split]]; [| | |done].
    + repeat apply Forall_cons_2; try apply Forall_nil_2; by left.
    + by intros [|i] d'.
    + done.
  - split; [|split; [|split]]; [| | |done].
    + repeat apply Forall_cons_2; try apply Forall_nil_2;
        first [left; by simplify_map_eq | right; by simplify_map_eq].
    + intros [|[|[|i]]] d'; cbn; intros [= <-]; by simplify_map_eq.
    + intros _. by simplify_map_eq.
  - split; [|split; [|split]]; [| | |done].
    + repeat apply Forall_cons_2; try apply Forall_nil_2;
        first [left; by simplify_map_eq | right; by simplify_map_eq].
    + intros [|[|[|i]]] d'; cbn; intros [= <-]; by simplify_map_eq.
    + intros _. by simplify_map_eq.
Qed.

End Compression.

(** The segment of A, B and C is handed to the compressor and the write
    of the compressed file stops after twenty bytes. *)
Lemma compress_file_keeps_segment_or_whole_gz_witness :
  ∃ content,
    disk Scenario.abc !! new_file_name Scenario.t0 = Some content ∧
    Forall (segment_safe (L := Scenario.lib100) (new_file_name Scenario.t0) content)
      (compress_trace (L := Scenario.lib100) (WriteOutFails 20)
         (disk Scenario.abc) (new_file_name Scenario.t0)) ∧
    _compress_file (L := Scenario.lib100) (WriteOutFails 20) (disk Scenario.abc)
      (new_file_name Scenario.t0) !! new_file_name Scenario.t0 = Some content.
Proof.
  eexists. split; [vm_compute; reflexivity|].
  match goal with
  | |- context [segment_safe _ ?c] =>
      destruct (compress_file_keeps_segment_or_whole_gz (L := Scenario.lib100)
                  (WriteOutFails 20) (disk Scenario.abc) Scenario.t0 c)
        as (Hsafe & _ & Hfail & _); [vm_compute; reflexivity|]
  end.
  split; [exact Hsafe | by apply Hfail].
Defined.

(** ** Query *)

Section Query.
Context {L : Lib}.

(** The inner loop adds the matching events of one file until the
    bound is reached. *)
Lemma query_file_spec q evs acc (n : Z) :
  n = EventQuery.limit q + EventQuery.offset q →
  Z.of_nat (length acc) < n →
  query_file q evs acc
  = acc ++ take (Z.to_nat (n - Z.of_nat (length acc)))
             (filter (λ e, _matches_query e q = true) evs).
Proof.
  intros Hn. revert acc.
  induction evs as [|e evs IH]; intros acc Hlt; cbn [query_file].
  - by rewrite filter_nil, take_nil, app_nil_r.
  - rewrite filter_cons, <- Hn. destruct (_matches_query e q) eqn:He.
    + rewrite decide_True by done.
      rewrite length_app. cbn [length].
      case_bool_decide as Hb.
      * replace (Z.to_nat (n - Z.of_nat (length acc))) with 1%nat by lia.
        cbn. by rewrite take_0.
      * rewrite IH by (rewrite length_app; cbn; lia).
        rewrite <- app_assoc. f_equal. rewrite length_app. cbn [length app].
        replace (Z.to_nat (n - Z.of_nat (length acc)))
          with (S (Z.to_nat (n - Z.of_nat (length acc + 1)))) by lia.
        done.
    + rewrite decide_False by done. by apply IH.
Qed.

Lemma query_files_spec d q files acc (n : Z) :
  n = EventQuery.limit q + EventQuery.offset q →
  query_files d q files acc
  = acc ++ take (Z.to_nat (n - Z.of_nat (length acc)))
             (filter (λ e, _matches_query e q = true)
                (concat (map (_read_file d) files))).
Proof.
  intros Hn. revert acc.
  induction files as [|f files IH]; intros acc; cbn [query_files].
  - cbn [map concat]. by rewrite filter_nil, take_nil, app_nil_r.
  - rewrite <- Hn. case_bool_decide as Hb.
    + replace (Z.to_nat (n - Z.of_nat (length acc))) with 0%nat by lia.
      by rewrite take_0, app_nil_r.
    + rewrite IH, (query_file_spec _ _ _ n) by (done || lia).
      cbn [map concat]. rewrite filter_app, take_app, <- app_assoc.
      f_equal. f_equal. f_equal.
      rewrite length_app, length_take. lia.
Qed.

(** Slicing the collected prefix is slicing the whole list of matches. *)
Lemma slice_of_prefix {A} (m : list A) (o l : Z) :
  0 ≤ o →
  Py.slice (take (Z.to_nat (l + o)) m) o (o + l)
  = take (Z.to_nat l) (drop (Z.to_nat o) m).
Proof.
  intros Ho. unfold Py.slice, Py.clamp.
  rewrite length_take.
  destruct (Z.ltb_spec o 0) as [?|_]; [lia|].
  destruct (Z.ltb_spec (o + l) 0) as [Hneg|Hpos].
  - replace (Z.to_nat (l + o)) with 0%nat by lia.
    replace (Z.to_nat l) with 0%nat by lia.
    by rewrite !take_0, drop_nil, take_nil.
  - apply list_eq. intros i.
    rewrite !lookup_take, !lookup_drop, lookup_take.
    repeat case_decide; try done; try lia.
    + f_equal. lia.
    + symmetry. apply lookup_ge_None. lia.
Qed.

End Query.

(** ** Directory listings *)

Section Listings.

Lemma elem_of_glob pat (d : Disk) f :
  f ∈ glob pat d ↔ Py.fnmatch pat f = true ∧ is_Some (d !! f).
Proof.
  unfold glob. rewrite list_elem_of_filter, list_elem_of_fmap. split.
  - intros [Hm ([k v] & -> & Hin)]. split; [done|].
    apply elem_of_map_to_list in Hin. by eexists.
  - intros [Hm [v Hv]]. split; [done|]. exists (f, v). split; [done|].
    by apply elem_of_map_to_list.
Qed.

Lemma NoDup_glob pat (d : Disk) : NoDup (glob pat d).
Proof. unfold glob. apply NoDup_filter, NoDup_fst_map_to_list. Qed.

Lemma elem_of_sorted l f : f ∈ Py.sorted l ↔ f ∈ l.
Proof. unfold Py.sorted. by rewrite merge_sort_Permutation. Qed.

Lemma NoDup_sorted l : NoDup l → NoDup (Py.sorted l).
Proof. unfold Py.sorted. by rewrite merge_sort_Permutation. Qed.

Lemma Sorted_sorted l : Sorted String.le (Py.sorted l).
Proof. apply (Sorted_merge_sort String.le). Qed.

(** Sorting depends on the set of names only. *)
Lemma sorted_perm l1 l2 : l1 ≡ₚ l2 → Py.sorted l1 = Py.sorted l2.
Proof.
  intros Hp. apply (Sorted_unique String.le); [apply Sorted_sorted..|].
  unfold Py.sorted. by rewrite !merge_sort_Permutation.
Qed.

(** A listing that is already in order is its own sorting. *)
Lemma sorted_of_Sorted l1 l2 :
  Sorted String.le l2 → l1 ≡ₚ l2 → Py.sorted l1 = l2.
Proof.
  intros Hs Hp. apply (Sorted_unique String.le); [apply Sorted_sorted|done|].
  unfold Py.sorted. by rewrite merge_sort_Permutation.
Qed.

(** Two directories with the same file names list the same segments. *)
Lemma sorted_glob_ext pat (d1 d2 : Disk) :
  (∀ f, is_Some (d1 !! f) ↔ is_Some (d2 !! f)) →
  Py.sorted (glob pat d1) = Py.sorted (glob pat d2).
Proof.
  intros Hdom. apply sorted_perm, NoDup_Permutation; [apply NoDup_glob..|].
  intros f. rewrite !elem_of_glob. by rewrite Hdom.
Qed.

End Listings.

(** ** Retention *)

Section Retention.

Lemma fnmatch_literal p pat s :
  p ≠ "*"%char →
  Py.fnmatch (String p pat) s
  = match s with
    | String c s' => Ascii.eqb p c && Py.fnmatch pat s'
    | EmptyString => false
    end.
Proof.
  intros Hp. cbn [Py.fnmatch].
  destruct (Ascii.eqb_spec p "*"%char) as [->|_]; [done|]. by destruct s.
Qed.

Lemma fnmatch_events_prefix pat f :
  Py.fnmatch ("events_" +:+ pat) f = true → ∃ r, f = "events_" +:+ r.
Proof.
  intros H.
  do 7 (rewrite ?str_app_cons, ?str_app_nil_l, fnmatch_literal in H by done;
        destruct f as [|? f]; [done|];
        apply andb_prop in H as [<-%Ascii.eqb_eq H]).
  by exists f.
Qed.

Lemma split_nonempty sep s : Py.split sep s ≠ [].
Proof.
  destruct s as [|c s]; [done|]. cbn.
  destruct (Ascii.eqb c sep); [done|]. by destruct (Py.split sep s).
Qed.

Lemma events_app r :
  "events_" +:+ r
  = String "e" (String "v" (String "e" (String "n" (String "t"
      (String "s" (String "_" r)))))).
Proof. reflexivity. Qed.

Lemma stem_events_prefix r : ∃ r', Py.stem ("events_" +:+ r) = "events_" +:+ r'.
Proof.
  rewrite events_app. unfold Py.stem. cbn [Py.rfind_dot].
  destruct (Py.rfind_dot r) as [i|]; cbn; [|by exists r].
  match goal with |- context [if ?b then _ else _] => destruct b end;
    [|by exists r].
  by exists (Py.take_str i r).
Qed.

(** Every name the pattern of the store matches has a date part. *)
Lemma date_part_is_Some pat f :
  Py.fnmatch ("events_" +:+ pat) f = true → is_Some (date_part f).
Proof.
  intros [r ->]%fnmatch_events_prefix. unfold date_part.
  destruct (stem_events_prefix r) as [r' ->]. rewrite events_app. cbn.
  pose proof (split_nonempty "_"%char r') as Hne.
  destruct (Py.split "_"%char r') as [|l ls]; [done|]. by eexists.
Qed.

Lemma cleanup_files_spec cutoff (d : Disk) files :
  (∀ g, g ∈ files → is_Some (date_part g)) →
  (cleanup_files cutoff d files).2 = Ok () ∧
  ∀ f, (cleanup_files cutoff d files).1 !! f
       = if decide (f ∈ files ∧ expired cutoff f = true) then None else d !! f.
Proof.
  revert d. induction files as [|g files IH]; intros d Hdate; cbn [cleanup_files].
  - split; [done|]. intros f. rewrite decide_False; [done|].
    intros [[]%elem_of_nil _].
  - destruct (Hdate g) as [date Hg]; [left|]. rewrite Hg.
    assert (expired cutoff g = Py.str_lt date cutoff) as Hexp
      by (unfold expired; by rewrite Hg).
    destruct (Py.str_lt date cutoff) eqn:Hlt.
    + destruct (IH (delete g d)) as [Hok Hlook];
        [intros; apply Hdate; by right|].
      split; [done|]. intros f. rewrite Hlook.
      destruct (decide (f = g)) as [->|Hne].
      * rewrite lookup_delete_eq.
        rewrite (decide_True (P := g ∈ g :: files ∧ _)) by (split; [left|done]).
        by case_decide.
      * rewrite lookup_delete_ne by done.
        apply decide_ext. rewrite elem_of_cons.
        split; [intros [? ?]; auto | intros [[?|?] ?]; done].
    + destruct (IH d) as [Hok Hlook]; [intros; apply Hdate; by right|].
      split; [done|]. intros f. rewrite Hlook.
      apply decide_ext. rewrite elem_of_cons.
      split; [intros [? ?]; auto|]. intros [[->|?] He]; [congruence|done].
Qed.

(** C5, as the code has it.  The date expression of
    [cleanup_old_events] is defined on every listed file, so the call
    ends normally; it deletes exactly the files named like a segment
    whose date part is before the cutoff date, the active segment among
    them when its date is that old; a segment dated on or after the
    cutoff is kept. *)
Theorem cleanup_old_events_deletes_by_date cutoff (d : Disk) :
  (cleanup_old_events cutoff d).2 = Ok () ∧
  (∀ f, (cleanup_old_events cutoff d).1 !! f
        = if Py.fnmatch "events_*.jsonl*" f && expired cutoff f
          then None else d !! f) ∧
  (∀ f date, date_part f = Some date → Py.str_lt date cutoff = false →
             (cleanup_old_events cutoff d).1 !! f = d !! f).
Proof.
  unfold cleanup_old_events.
  destruct (cleanup_files_spec cutoff d
              (Py.sorted (glob "events_*.jsonl*" d))) as [Hok Hlook].
  { intros g [Hm _]%elem_of_sorted%elem_of_glob.
    by apply (date_part_is_Some "*.jsonl*"). }
  assert (∀ f, (cleanup_files cutoff d
                  (Py.sorted (glob "events_*.jsonl*" d))).1 !! f
               = if Py.fnmatch "events_*.jsonl*" f && expired cutoff f
                 then None else d !! f) as Hall.
  { intros f. rewrite Hlook. case_decide as Hd.
    - destruct Hd as [[-> _]%elem_of_sorted%elem_of_glob ->]. done.
    - destruct (Py.fnmatch "events_*.jsonl*" f) eqn:Hm; [|done].
      destruct (expired cutoff f) eqn:He; [|done]. cbn.
      destruct (d !! f) eqn:Hf; [|done].
      exfalso. apply Hd. split; [|done].
      apply elem_of_sorted, elem_of_glob. split; [done|by eexists]. }
  split; [done|]. split; [done|].
  intros f date Hdate Hlt. rewrite Hall.
  unfold expired. rewrite Hdate, Hlt. by rewrite andb_false_r.
Qed.

End Retention.

(** The claim of C5 fails: the active segment of the store, created in
    2020 and still the file the next append writes to, is deleted by a
    cleanup whose cutoff date is in 2025. *)
Lemma cleanup_old_events_deletes_active_segment :
  ¬ (∀ (w : World) (cutoff f : string),
       Store.current_file (store w) = Some f →
       is_Some (disk w !! f) →
       is_Some ((cleanup_old_events cutoff (disk w)).1 !! f)).
Proof.
  intros Hclaim.
  specialize (Hclaim Scenario.old_active "20250806" "events_20200101_000000.jsonl").
  destruct Hclaim as [c Hc]; [vm_compute; reflexivity | vm_compute; eauto |].
  vm_compute in Hc. discriminate Hc.
Qed.

(** ** Lines *)

Section Lines.

Lemma no_newline_cons c s :
  no_newline (String c s) = true ↔ c ≠ Py.nl ∧ no_newline s = true.
Proof.
  unfold no_newline. cbn [Py.contains String.prefix].
  destruct (ascii_dec Py.nl c) as [<-|Hne].
  - split; [by destruct s | by intros [? _]].
  - cbn [orb]. split; [intros H; split; [congruence|done] | by intros [_ ?]].
Qed.

Lemma readlines_line l rest :
  no_newline l = true →
  Py.readlines (l +:+ String Py.nl rest)
  = (l +:+ String Py.nl EmptyString) :: Py.readlines rest.
Proof.
  induction l as [|c l IH]; intros Hl; [done|].
  apply no_newline_cons in Hl as [Hc Hl].
  rewrite !str_app_cons. cbn [Py.readlines].
  destruct (Ascii.eqb_spec c Py.nl) as [?|_]; [done|]. by rewrite IH.
Qed.

Lemma readlines_nil_inv s : Py.readlines s = [] → s = EmptyString.
Proof.
  destruct s as [|c s]; [done|]. cbn.
  destruct (Ascii.eqb c Py.nl); [done|]. by destruct (Py.readlines s).
Qed.

Lemma line_aligned_cons c s :
  s ≠ EmptyString → line_aligned (String c s) = line_aligned s.
Proof. by destruct s. Qed.

Lemma readlines_app pre s :
  line_aligned pre = true →
  Py.readlines (pre +:+ s) = Py.readlines pre ++ Py.readlines s.
Proof.
  induction pre as [|c pre IH]; intros Hpre; [done|].
  rewrite str_app_cons. cbn [Py.readlines].
  destruct (decide (pre = EmptyString)) as [->|Hne].
  - cbn in Hpre. rewrite Hpre. by rewrite str_app_nil_l.
  - rewrite line_aligned_cons in Hpre by done. rewrite IH by done.
    destruct (Ascii.eqb c Py.nl); [done|].
    destruct (Py.readlines pre) as [|l ls] eqn:Hr; [|done].
    by apply readlines_nil_inv in Hr.
Qed.

(** *** strip *)

Lemma lstrip_length s : (String.length (Py.lstrip s) ≤ String.length s)%nat.
Proof.
  induction s as [|c s IH]; [done|]. cbn.
  destruct (Py.is_space c); cbn; lia.
Qed.

Lemma rstrip_length s : (String.length (Py.rstrip s) ≤ String.length s)%nat.
Proof.
  induction s as [|c s IH]; [done|]. cbn.
  destruct (Py.rstrip s); [destruct (Py.is_space c)|]; cbn in *; lia.
Qed.

Lemma strip_fixed_inv s :
  Py.strip s = s → s ≠ EmptyString →
  Py.rstrip s = s ∧ ∃ c r, s = String c r ∧ Py.is_space c = false.
Proof.
  unfold Py.strip. intros Hs Hne. destruct s as [|c r]; [done|].
  cbn [Py.lstrip] in Hs. destruct (Py.is_space c) eqn:Hc.
  - apply (f_equal String.length) in Hs.
    pose proof (rstrip_length (Py.lstrip r)). pose proof (lstrip_length r).
    cbn in Hs. lia.
  - split; [done|]. by eexists _, _.
Qed.

Lemma rstrip_app_space s c :
  Py.is_space c = true → Py.rstrip (s +:+ String c EmptyString) = Py.rstrip s.
Proof.
  intros Hc. induction s as [|x s IH].
  - rewrite str_app_nil_l. cbn. by rewrite Hc.
  - rewrite str_app_cons. cbn [Py.rstrip]. by rewrite IH.
Qed.

Lemma rstrip_app_tight a t :
  Py.rstrip t = t → t ≠ EmptyString → Py.rstrip (a +:+ t) = a +:+ t.
Proof.
  intros Ht Hne. induction a as [|x a IH]; [done|].
  rewrite str_app_cons. cbn [Py.rstrip]. rewrite IH.
  destruct (a +:+ t) eqn:Hat; [|done].
  destruct a; [by rewrite str_app_nil_l in Hat | by rewrite str_app_cons in Hat].
Qed.

(** A tight line read from a text file strips back to itself. *)
Lemma strip_line s :
  Py.strip s = s → s ≠ EmptyString →
  Py.strip (s +:+ String Py.nl EmptyString) = s.
Proof.
  intros Hs Hne. destruct (strip_fixed_inv s Hs Hne) as (Hr & c & r & -> & Hc).
  unfold Py.strip. rewrite str_app_cons. cbn [Py.lstrip]. rewrite Hc.
  rewrite <- str_app_cons. by rewrite rstrip_app_space.
Qed.

(** *** split *)

Lemma split_line l rest :
  no_newline l = true →
  Py.split Py.nl (l +:+ String Py.nl rest) = l :: Py.split Py.nl rest.
Proof.
  induction l as [|c l IH]; intros Hl; [done|].
  apply no_newline_cons in Hl as [Hc Hl].
  rewrite str_app_cons. cbn [Py.split].
  destruct (Ascii.eqb_spec c Py.nl) as [?|_]; [done|]. by rewrite IH.
Qed.

Lemma split_last_line l :
  no_newline l = true → Py.split Py.nl l = [l].
Proof.
  induction l as [|c l IH]; intros Hl; [done|].
  apply no_newline_cons in Hl as [Hc Hl]. cbn [Py.split].
  destruct (Ascii.eqb_spec c Py.nl) as [?|_]; [done|]. by rewrite IH.
Qed.

End Lines.

(** ** Reading segments *)

Section Reading.
Context {L : Lib}.

(** A line that is not blank and not a valid record ends the
    generator: nothing after it is yielded. *)
Lemma yield_lines_stop (b : bool) ls1 bad ls2 :
  (if b then Py.strip bad else bad) ≠ EmptyString →
  model_validate_json (if b then Py.strip bad else bad) = None →
  yield_lines b (ls1 ++ bad :: ls2) = yield_lines b ls1.
Proof.
  intros Hne Hbad. induction ls1 as [|l ls1 IH]; cbn [app yield_lines].
  - rewrite decide_False by done. by rewrite Hbad.
  - by rewrite IH.
Qed.

Lemma yield_lines_app (b : bool) ls1 ls2 :
  forallb (readable b) ls1 = true →
  yield_lines b (ls1 ++ ls2) = yield_lines b ls1 ++ yield_lines b ls2.
Proof.
  induction ls1 as [|l ls1 IH]; [done|]. cbn [forallb app yield_lines].
  intros [Hl Hls]%andb_prop. unfold readable in Hl. cbv zeta in Hl.
  case_decide as Hblank; [by apply IH|].
  destruct (model_validate_json (if b then Py.strip l else l)) as [ev|].
  - cbn [app]. by rewrite IH.
  - by apply bool_decide_eq_true in Hl.
Qed.

Lemma yield_lines_reads_as (b : bool) l e ls :
  reads_as b l e → yield_lines b (l :: ls) = e :: yield_lines b ls.
Proof.
  intros [Hne Hval]. cbn [yield_lines].
  rewrite decide_False by done. by rewrite Hval.
Qed.

(** The record of an event, read back from a text file. *)
Lemma reads_as_event_line e : line_ok e → reads_as true (event_line e) e.
Proof.
  intros ((Hnl & Hstrip & Hne) & Hval). unfold reads_as, event_line.
  by rewrite strip_line.
Qed.

Lemma yield_lines_event e ls :
  line_ok e →
  yield_lines true (event_line e :: ls) = e :: yield_lines true ls.
Proof. intros He. by apply yield_lines_reads_as, reads_as_event_line. Qed.

(** The generator is the loop body run over the lines of the segment. *)
Lemma read_forward_lines (d : Disk) f :
  _read_file_forward d f
  = match segment_lines d f with
    | Some (b, ls) => yield_lines b ls
    | None => []
    end.
Proof.
  unfold _read_file_forward, segment_lines.
  destruct (d !! f) as [raw|]; [|done].
  destruct (is_gz f); [|done]. by destruct (gzip_decompress raw).
Qed.

Lemma segment_lines_is_Some (d : Disk) f r :
  segment_lines d f = Some r → is_Some (d !! f).
Proof. unfold segment_lines. by destruct (d !! f). Qed.

Lemma read_forward_same (d d' : Disk) g :
  d' !! g = d !! g → _read_file_forward d' g = _read_file_forward d g.
Proof. intros Hg. unfold _read_file_forward. by rewrite Hg. Qed.

(** Two directories that differ in the content of [f] only list the same
    segments. *)
Lemma sorted_glob_same_names pat (d d' : Disk) f :
  (∀ g, g ≠ f → d' !! g = d !! g) →
  is_Some (d !! f) → is_Some (d' !! f) →
  Py.sorted (glob pat d') = Py.sorted (glob pat d).
Proof.
  intros Hother Hf Hf'. apply sorted_glob_ext. intros g.
  destruct (decide (g = f)) as [->|Hne]; [done|]. by rewrite Hother.
Qed.

(** *** The chain check as one pass over the events read *)

Lemma verify_events_app p es1 es2 :
  verify_events p (es1 ++ es2)
  = match verify_events p es1 with
    | inl p' => verify_events p' es2
    | inr msg => inr msg
    end.
Proof.
  revert p. induction es1 as [|e es1 IH]; intros p; [done|].
  cbn [app verify_events]. by repeat case_decide.
Qed.

Lemma verify_files_events d p files :
  verify_files d p files = verdict (verify_events p (forward_events d files)).
Proof.
  revert p. induction files as [|f files IH]; intros p; [done|].
  cbn [verify_files]. unfold forward_events. cbn [map concat].
  rewrite verify_events_app.
  destruct (verify_events p (_read_file_forward d f)); [apply IH | done].
Qed.

Lemma forward_events_ext (d1 d2 : Disk) files :
  (∀ g, g ∈ files → _read_file_forward d1 g = _read_file_forward d2 g) →
  forward_events d1 files = forward_events d2 files.
Proof.
  intros Hext. unfold forward_events. f_equal.
  apply map_ext_in. intros g Hg. apply Hext. by apply list_elem_of_In.
Qed.

(** C3, as the code has it.  The segment [f], plain or compressed, holds
    a line that is not blank and that [model_validate_json] rejects.  The
    exception ends the reading of the segment: [verify_chain] gives the
    answer it gives for the directory [d'] that differs in [f] only and
    holds there just the lines before the malformed one.  No failure is
    reported at the line, and the lines after it in the segment are not
    checked. *)
Theorem verify_chain_ends_segment_at_malformed_line
    (d d' : Disk) f (b : bool) ls1 bad ls2 :
  (∀ g, g ≠ f → d' !! g = d !! g) →
  segment_lines d f = Some (b, ls1 ++ bad :: ls2) →
  segment_lines d' f = Some (b, ls1) →
  (if b then Py.strip bad else bad) ≠ EmptyString →
  model_validate_json (if b then Py.strip bad else bad) = None →
  verify_chain d = verify_chain d'.
Proof.
  intros Hother Hlines Hlines' Hne Hbad. unfold verify_chain.
  rewrite (sorted_glob_same_names _ d d' f Hother)
    by (by eapply segment_lines_is_Some).
  rewrite !verify_files_events. f_equal. f_equal.
  apply forward_events_ext. intros g _.
  destruct (decide (g = f)) as [->|Hgf].
  - rewrite !read_forward_lines, Hlines, Hlines'. by apply yield_lines_stop.
  - symmetry. by apply read_forward_same, Hother.
Qed.

End Reading.

(** The history of A, B and C with the record of B replaced by a line
    that is no JSON verifies like the history cut after A: as valid. *)
Lemma verify_chain_ends_segment_at_malformed_line_witness :
  verify_chain (L := Scenario.lib100) Scenario.abc_garbage
    = verify_chain (L := Scenario.lib100) Scenario.abc_cut ∧
  verify_chain (L := Scenario.lib100) Scenario.abc_cut = (true, None).
Proof.
  split; [|vm_compute; reflexivity].
  apply (verify_chain_ends_segment_at_malformed_line (L := Scenario.lib100)
           Scenario.abc_garbage Scenario.abc_cut Scenario.seg0 true
           [event_line (L := Scenario.lib100) Scenario.A']
           ("not json" +:+ String Py.nl EmptyString)
           [event_line (L := Scenario.lib100) Scenario.C']).
  - intros g Hg. unfold Scenario.abc_garbage, Scenario.abc_cut.
    by rewrite !lookup_insert_ne.
  - vm_compute; reflexivity.
  - vm_compute; reflexivity.
  - by vm_compute.
  - vm_compute; reflexivity.
Defined.

(** The claim of C3 fails: the second line of the only segment is no
    JSON, and [verify_chain] reports no failure at all. *)
Lemma verify_chain_valid_with_malformed_line :
  Py.readlines <$> Scenario.abc_garbage !! Scenario.seg0
    = Some [event_line (L := Scenario.lib100) Scenario.A';
            "not json" +:+ String Py.nl EmptyString;
            event_line (L := Scenario.lib100) Scenario.C'] ∧
  Pydantic.model_validate_json "not json" = None ∧
  verify_chain (L := Scenario.lib100) Scenario.abc_garbage = (true, None).
Proof. split; [|split]; vm_compute; reflexivity. Qed.

(** ** Tamper detection *)

Section Tamper.
Context {L : Lib}.

(** The hash of an event does not depend on its [hash] field. *)
Lemma compute_hash_mutate_hash v e :
  compute_hash (mutate (MutHash v) e) = compute_hash e.
Proof. by destruct e. Qed.

Lemma mutate_chain_fields m e :
  on_chain_field m = false →
  Event.previous_hash (mutate m e) = Event.previous_hash e ∧
  Event.hash (mutate m e) = Event.hash e.
Proof. by destruct e, m. Qed.

(** The check of one mutated event, after a valid chain up to it. *)
Lemma verify_events_mutated m e p rest :
  Event.previous_hash e = p →
  Event.hash e = compute_hash e →
  mutate m e ≠ e →
  (on_chain_field m = false → compute_hash (mutate m e) ≠ compute_hash e) →
  verify_events p (mutate m e :: rest) = inr (chain_broken_msg (mutate m e) p) ∨
  verify_events p (mutate m e :: rest)
    = inr (hash_mismatch_msg (mutate m e) (compute_hash (mutate m e))).
Proof.
  intros Hp Hh Hchg Hcol. cbn [verify_events].
  case_decide as Hprev; [by left|]. right.
  case_decide as Hhash; [done|]. exfalso.
  destruct (on_chain_field m) eqn:Hm.
  - destruct m; try done.
    + (* previous_hash *) apply Hchg. destruct e. cbn in *. congruence.
    + (* hash *) rewrite compute_hash_mutate_hash in Hhash.
      apply Hchg. destruct e. cbn in *. congruence.
  - destruct (mutate_chain_fields m e Hm) as [_ Hsame].
    apply Hcol; [done|]. congruence.
Qed.

Lemma verify_events_valid_app p es1 e es2 :
  verdict (verify_events p (es1 ++ e :: es2)) = (true, None) →
  ∃ p', verify_events p es1 = inl p' ∧
        Event.previous_hash e = p' ∧ Event.hash e = compute_hash e.
Proof.
  rewrite verify_events_app.
  destruct (verify_events p es1) as [p'|msg]; [|done].
  cbn [verify_events]. intros Hv. exists p'. split; [done|].
  case_decide as Hprev; [done|]. by case_decide as Hhash.
Qed.

(** C2, as the code has it.  The chain verifies; in the segment [f],
    plain or compressed, the record of the event [e] comes after
    readable lines.  One field of the record is changed to another value
    that leaves the record a valid event (for a field other than the two
    hash fields, to a value whose SHA-256 does not collide with the
    original's), everything else in the directory staying as it is.  Then
    [verify_chain] answers invalid, and the failure it reports is at the
    changed event: a broken link to the hash before it, or a mismatch of
    its stored and recomputed hash. *)
Theorem verify_chain_detects_valid_mutation
    (d d' : Disk) f (b : bool) ls1 l l' ls2 e m :
  Py.fnmatch "events_*.jsonl*" f = true →
  (∀ g, g ≠ f → d' !! g = d !! g) →
  segment_lines d f = Some (b, ls1 ++ l :: ls2) →
  segment_lines d' f = Some (b, ls1 ++ l' :: ls2) →
  forallb (readable b) ls1 = true →
  reads_as b l e →
  reads_as b l' (mutate m e) →
  mutate m e ≠ e →
  (on_chain_field m = false → compute_hash (mutate m e) ≠ compute_hash e) →
  verify_chain d = (true, None) →
  verify_chain d'
    = (false, Some (chain_broken_msg (mutate m e) (Event.previous_hash e)))
  ∨ verify_chain d'
    = (false, Some (hash_mismatch_msg (mutate m e) (compute_hash (mutate m e)))).
Proof.
  intros Hmatch Hother Hlines Hlines' Hread Hl Hl' Hchg Hcol Hvalid.
  pose proof (segment_lines_is_Some _ _ _ Hlines) as Hf.
  pose proof (segment_lines_is_Some _ _ _ Hlines') as Hf'.
  unfold verify_chain in *.
  rewrite (sorted_glob_same_names _ d d' f Hother Hf Hf').
  assert (f ∈ Py.sorted (glob "events_*.jsonl*" d)) as Hin
    by by apply elem_of_sorted, elem_of_glob.
  pose proof (NoDup_sorted _ (NoDup_glob "events_*.jsonl*" d)) as Hnd.
  apply list_elem_of_split in Hin as (fs1 & fs2 & Hfs).
  rewrite Hfs in *. apply NoDup_app in Hnd as (_ & Hnot & _).
  rewrite verify_files_events in *.
  assert (∀ x x', reads_as b x x' →
            yield_lines b (ls1 ++ x :: ls2)
            = yield_lines b ls1 ++ x' :: yield_lines b ls2) as Hyield.
  { intros x x' Hx. rewrite yield_lines_app by done. f_equal.
    by apply yield_lines_reads_as. }
  assert (forward_events d (fs1 ++ f :: fs2)
          = (forward_events d fs1 ++ yield_lines b ls1)
              ++ e :: (yield_lines b ls2 ++ forward_events d fs2)) as Hd.
  { unfold forward_events. rewrite map_app, concat_app. cbn [map concat].
    rewrite (read_forward_lines d f), Hlines, (Hyield l e Hl).
    by rewrite <- !app_assoc. }
  assert (forward_events d' (fs1 ++ f :: fs2)
          = (forward_events d fs1 ++ yield_lines b ls1)
              ++ mutate m e :: (yield_lines b ls2 ++ forward_events d' fs2))
    as Hd'.
  { unfold forward_events. rewrite map_app, concat_app. cbn [map concat].
    rewrite (read_forward_lines d' f), Hlines', (Hyield l' _ Hl').
    rewrite <- !app_assoc. f_equal.
    fold (forward_events d' fs1). fold (forward_events d fs1).
    apply forward_events_ext. intros g Hg.
    apply read_forward_same, Hother. intros Heq. rewrite Heq in Hg.
    apply (Hnot f Hg). by left. }
  rewrite Hd in Hvalid. rewrite Hd'.
  apply verify_events_valid_app in Hvalid as (p & Hp & Hprev & Hhash).
  rewrite verify_events_app, Hp. rewrite Hprev.
  destruct (verify_events_mutated m e p
              (yield_lines b ls2 ++ forward_events d' fs2))
    as [-> | ->]; auto.
Qed.

End Tamper.

(** The action of B is rewritten on disk from login to logout: the
    spec's scenario.  The failure is reported at B, as a hash mismatch. *)
Lemma verify_chain_detects_valid_mutation_witness :
  verify_chain (L := Scenario.lib100) Scenario.abc_action
  = (false,
     Some (hash_mismatch_msg Scenario.B_action
             (compute_hash (L := Scenario.lib100) Scenario.B_action))).
Proof.
  destruct (verify_chain_detects_valid_mutation (L := Scenario.lib100)
              (disk Scenario.abc) Scenario.abc_action Scenario.seg0 true
              [event_line (L := Scenario.lib100) Scenario.A']
              (event_line (L := Scenario.lib100) Scenario.B')
              (event_line (L := Scenario.lib100) Scenario.B_action)
              [event_line (L := Scenario.lib100) Scenario.C']
              Scenario.B' (MutAction "logout")) as [Hbroken | Hmismatch].
  - by vm_compute.
  - intros g Hg. unfold Scenario.abc_action. by rewrite lookup_insert_ne.
  - vm_compute; reflexivity.
  - vm_compute; reflexivity.
  - by vm_compute.
  - split; by vm_compute.
  - split; by vm_compute.
  - by vm_compute.
  - intros _. by vm_compute.
  - vm_compute; reflexivity.
  - exfalso. vm_compute in Hbroken. discriminate Hbroken.
  - exact Hmismatch.
Defined.

(** The claim of C2 fails: the category of B is rewritten on disk to a
    value outside the enumeration, a change of that one field of the
    record, and [verify_chain] answers valid. *)
Lemma verify_chain_valid_after_mutation_to_invalid_value :
  ∃ line_A line_B line_B' line_C items,
    Py.readlines <$> disk Scenario.abc !! Scenario.seg0
      = Some [line_A; line_B; line_C] ∧
    Py.readlines <$> Scenario.abc_bogus !! Scenario.seg0
      = Some [line_A; line_B'; line_C] ∧
    Json.loads line_B = Some (JDict items) ∧
    Json.loads line_B'
      = Some (JDict (Json.dict_set "category" (JStr "bogus") items)) ∧
    verify_chain (L := Scenario.lib100) (disk Scenario.abc) = (true, None) ∧
    verify_chain (L := Scenario.lib100) Scenario.abc_bogus = (true, None).
Proof.
  eexists _, _, _, _, _.
  split; [vm_compute; reflexivity|].
  split; [vm_compute; reflexivity|].
  split; [vm_compute; reflexivity|].
  split; [vm_compute; reflexivity|].
  split; vm_compute; reflexivity.
Qed.

(** ** Start-up *)

Section Startup.
Context {L : Lib}.

Lemma dict_get_hash_of_dump e :
  dict_get "hash" (dump_fields e ++ [("hash", JStr (Event.hash e))])
  = Some (JStr (Event.hash e)).
Proof. reflexivity. Qed.

Lemma sorted_glob_insert_unmatched pat (d : Disk) g c :
  Py.fnmatch pat g = false →
  Py.sorted (glob pat (<[g := c]> d)) = Py.sorted (glob pat d).
Proof.
  intros Hg. apply sorted_perm, NoDup_Permutation; [apply NoDup_glob..|].
  intros f. rewrite !elem_of_glob.
  destruct (decide (f = g)) as [->|Hne].
  - rewrite Hg. by split; intros [? _].
  - by rewrite lookup_insert_ne.
Qed.

(** C7, as the code has it.  [initialize] looks at plain segments
    only.  Without one it opens a new file name and leaves [last_hash]
    and [event_count] as they are (genesis and zero for a new store
    object).  A file that is no plain segment, such as a compressed
    one, is never consulted, whatever it holds.  When the newest plain
    segment ends with the record of an event that [json.loads] reads
    back, [last_hash] becomes the hash of that event and [event_count]
    the number of lines of that one segment. *)
Theorem initialize_reads_newest_plain_segment (st : Store) (d : Disk) stamp :
  (glob "events_*.jsonl" d = [] →
   initialize st d stamp = Ok (_create_new_file st stamp)) ∧
  (∀ g c, Py.fnmatch "events_*.jsonl" g = false →
          initialize st (<[g := c]> d) stamp = initialize st d stamp) ∧
  (∀ f pre e,
     last (Py.sorted (glob "events_*.jsonl" d)) = Some f →
     d !! f = Some (pre +:+ event_line e) →
     line_aligned pre = true →
     tight_line (json_dumps false (model_dump e)) →
     json_loads (json_dumps false (model_dump e)) = Some (model_dump e) →
     initialize st d stamp
     = Ok (Store.mk (Some f) (Event.hash e)
             (Z.of_nat (length (Py.readlines (pre +:+ event_line e)))))).
Proof.
  split; [|split].
  - intros Hnone. unfold initialize. rewrite Hnone. done.
  - intros g c Hg. unfold initialize.
    rewrite sorted_glob_insert_unmatched by done.
    destruct (last (Py.sorted (glob "events_*.jsonl" d))) as [f|] eqn:Hlast;
      [|done].
    assert (f ≠ g) as Hne.
    { intros ->. apply last_Some_elem_of, elem_of_sorted, elem_of_glob in Hlast.
      destruct Hlast as [Hm _]. congruence. }
    by rewrite lookup_insert_ne.
  - intros f pre e Hlast Hf Hpre (Hnl & Hstrip & Hne) Hloads.
    unfold initialize. rewrite Hlast, Hf. cbn [default from_option id].
    unfold event_line. rewrite !readlines_app, !readlines_line by done.
    cbn [Py.readlines]. rewrite reverse_snoc. cbn [initialize_scan].
    rewrite strip_line by done. rewrite decide_False by done.
    rewrite Hloads. unfold model_dump. by rewrite dict_get_hash_of_dump.
Qed.

End Startup.

(** Started on the directory that holds A, B and C in one plain
    segment, the store takes up the hash of C and counts three lines. *)
Lemma initialize_reads_newest_plain_segment_witness :
  initialize (L := Scenario.lib100) init_store (disk Scenario.abc) Scenario.t1
  = Ok (Store.mk (Some Scenario.seg0) (Event.hash Scenario.C') 3).
Proof.
  destruct (initialize_reads_newest_plain_segment (L := Scenario.lib100)
              init_store (disk Scenario.abc) Scenario.t1) as (_ & _ & Hlast).
  etrans.
  - apply (Hlast Scenario.seg0
             (event_line (L := Scenario.lib100) Scenario.A'
              +:+ event_line (L := Scenario.lib100) Scenario.B')
             Scenario.C').
    + vm_compute; reflexivity.
    + vm_compute; reflexivity.
    + by vm_compute.
    + split; [|split]; by vm_compute.
    + vm_compute; reflexivity.
  - vm_compute; reflexivity.
Defined.

(** The claim of C7 fails: the directory holds one compressed segment
    with the record of A and no plain segment; the store starts with the
    genesis hash and a count of zero, not with the hash of A. *)
Lemma initialize_ignores_compressed_segments :
  _read_file_forward (L := Scenario.lib100) Scenario.only_gz
    "events_20250101_000000.jsonl.gz" = [Scenario.A'] ∧
  initialize (L := Scenario.lib100) init_store Scenario.only_gz Scenario.t1
    = Ok (Store.mk (Some "events_20250101_000001.jsonl") GENESIS_HASH 0) ∧
  Event.hash Scenario.A' ≠ GENESIS_HASH.
Proof. split; [|split]; by vm_compute. Qed.

(** ** The order of segment names *)

Section NameOrder.

Lemma ascii_compare_refl c : Ascii.compare c c = Eq.
Proof. unfold Ascii.compare. apply N.compare_refl. Qed.

Lemma str_compare_refl s : String.compare s s = Eq.
Proof. induction s as [|c s IH]; [done|]. cbn. by rewrite ascii_compare_refl. Qed.

Lemma str_compare_app_prefix p a b :
  String.compare (p +:+ a) (p +:+ b) = String.compare a b.
Proof.
  induction p as [|c p IH]; [done|]. rewrite !str_app_cons. cbn.
  by rewrite ascii_compare_refl.
Qed.

(** Between two strings of one length the order is decided inside
    them, whatever follows. *)
Lemma str_compare_lt_app a b x y :
  String.length a = String.length b →
  String.compare a b = Lt → String.compare (a +:+ x) (b +:+ y) = Lt.
Proof.
  revert b. induction a as [|c a IH]; intros [|c' b] Hlen Hlt; try done.
  rewrite !str_app_cons. cbn in *.
  destruct (Ascii.compare c c'); [|done..]. apply IH; [lia|done].
Qed.

Lemma str_lt_le a b : Py.str_lt a b = true → String.le a b.
Proof.
  unfold Py.str_lt, String.ltb, String.le, String.leb.
  by destruct (String.compare a b).
Qed.

Lemma str_lt_ne a b : Py.str_lt a b = true → a ≠ b.
Proof.
  unfold Py.str_lt, String.ltb. intros Hlt ->.
  by rewrite str_compare_refl in Hlt.
Qed.

Lemma str_lt_iff a b : Py.str_lt a b = true ↔ String.le a b ∧ a ≠ b.
Proof.
  split; [intros H; split; [by apply str_lt_le | by apply str_lt_ne]|].
  unfold Py.str_lt, String.ltb, String.le, String.leb.
  destruct (String.compare a b) eqn:Hc; [|done|by intros [[] _]].
  intros [_ Hne]. by apply String.compare_eq_iff in Hc.
Qed.

Lemma str_lt_trans a b c :
  Py.str_lt a b = true → Py.str_lt b c = true → Py.str_lt a c = true.
Proof.
  rewrite !str_lt_iff. intros [Hab Hne1] [Hbc Hne2]. split; [by etrans|].
  intros ->. apply Hne1. by apply (anti_symm String.le).
Qed.

(** A later stamp of the same width gives a later file name, compressed
    or not. *)
Lemma segment_name_lt (a b : string) (ga gb : bool) :
  String.length a = String.length b →
  Py.str_lt a b = true →
  Py.str_lt (if ga then new_file_name a +:+ ".gz" else new_file_name a)
            (if gb then new_file_name b +:+ ".gz" else new_file_name b) = true.
Proof.
  intros Hlen Hlt. unfold Py.str_lt, String.ltb, new_file_name in *.
  destruct (String.compare a b) eqn:Hc; try done.
  assert (∀ x y, String.compare ("events_" +:+ a +:+ x) ("events_" +:+ b +:+ y) = Lt)
    as Hall.
  { intros x y. rewrite str_compare_app_prefix. by apply str_compare_lt_app. }
  destruct ga, gb; rewrite ?str_app_assoc; by rewrite Hall.
Qed.

(** The stamp in the name of a segment. *)
Lemma stamp_of_new_file_name stamp :
  stamp_of (Some (new_file_name stamp)) = stamp.
Proof.
  unfold stamp_of, new_file_name.
  rewrite events_app. cbn [Py.drop_str String.length].
  rewrite str_app_length. cbn [String.length].
  replace (S (S (S (S (S (S (S (String.length stamp + 6))))))) - 13)%nat
    with (String.length stamp) by lia.
  apply take_str_app.
Qed.

End NameOrder.

(** ** Whole segments *)

Section SegmentText.
Context {L : Lib}.

Lemma text_of_snoc es e : text_of (es ++ [e]) = text_of es +:+ event_line e.
Proof.
  induction es as [|x es IH]; cbn [app text_of foldr].
  - by rewrite str_app_nil_r.
  - fold (text_of (es ++ [e])). fold (text_of es).
    by rewrite IH, str_app_assoc.
Qed.

Lemma text_of_cons e es :
  text_of (e :: es)
  = json_dumps false (model_dump e) +:+ String Py.nl (text_of es).
Proof.
  unfold text_of at 1. cbn [foldr]. fold (text_of es). unfold event_line.
  by rewrite str_app_assoc.
Qed.

(** A plain segment reads back as the events written to it. *)
Lemma read_text_plain es :
  Forall line_ok es → yield_lines true (Py.readlines (text_of es)) = es.
Proof.
  induction 1 as [|e es He _ IH]; [done|].
  rewrite text_of_cons, readlines_line by apply He.
  fold (event_line e). rewrite yield_lines_event by done. by rewrite IH.
Qed.

Lemma joined_cons e e' es :
  joined (e :: e' :: es)
  = json_dumps false (model_dump e) +:+ String Py.nl (joined (e' :: es)).
Proof. done. Qed.

Lemma text_of_joined es :
  es ≠ [] → text_of es = joined es +:+ String Py.nl EmptyString.
Proof.
  induction es as [|e es IH]; [done|]. intros _. rewrite text_of_cons.
  destruct es as [|e' es]; [done|].
  rewrite IH by done. rewrite joined_cons. by rewrite str_app_assoc.
Qed.

Lemma joined_tight es :
  Forall line_ok es → es ≠ [] →
  Py.strip (joined es) = joined es ∧ joined es ≠ EmptyString.
Proof.
  induction 1 as [|e es He Hes IH]; [done|]. intros _.
  destruct He as ((Hnl & Hstrip & Hne) & _).
  destruct es as [|e' es]; [done|].
  destruct IH as [IHs IHne]; [done|].
  destruct (strip_fixed_inv _ IHs IHne) as (Hr & _).
  destruct (strip_fixed_inv _ Hstrip Hne) as (_ & c & r & Hd & Hc).
  rewrite joined_cons. set (j := joined (e' :: es)) in *. rewrite Hd.
  split; [|by rewrite str_app_cons].
  unfold Py.strip. rewrite str_app_cons. cbn [Py.lstrip]. rewrite Hc.
  rewrite <- str_app_cons.
  change (String Py.nl j) with (String Py.nl EmptyString +:+ j).
  rewrite <- str_app_assoc. by apply rstrip_app_tight.
Qed.

Lemma split_joined es :
  Forall line_ok es → es ≠ [] →
  Py.split Py.nl (joined es) = map (λ e, json_dumps false (model_dump e)) es.
Proof.
  induction 1 as [|e es He Hes IH]; [done|]. intros _.
  destruct es as [|e' es].
  - cbn [joined map]. apply split_last_line, He.
  - rewrite joined_cons, split_line by apply He. by rewrite IH.
Qed.

Lemma yield_dumped es :
  Forall line_ok es →
  yield_lines false (map (λ e, json_dumps false (model_dump e)) es) = es.
Proof.
  induction 1 as [|e es ((_ & _ & Hne) & Hval) _ IH]; [done|].
  cbn [map yield_lines]. rewrite decide_False by done. by rewrite Hval, IH.
Qed.

(** A compressed segment, once decompressed, reads back as the events
    written to it. *)
Lemma read_text_gz es :
  Forall line_ok es → es ≠ [] →
  yield_lines false (Py.split Py.nl (Py.strip (text_of es))) = es.
Proof.
  intros Hok Hne. rewrite text_of_joined by done.
  destruct (joined_tight es Hok Hne) as [Hs Hj].
  rewrite strip_line, split_joined by done. by apply yield_dumped.
Qed.

(** *** Segment names *)

Lemma fnmatch_star pat a b :
  Py.fnmatch pat b = true →
  Py.fnmatch (String "*"%char pat) (a +:+ b) = true.
Proof.
  intros Hb. induction a as [|c a IH].
  - rewrite str_app_nil_l. cbn [Py.fnmatch]. cbn [Ascii.eqb Bool.eqb].
    destruct b; by rewrite Hb.
  - rewrite str_app_cons. cbn [Py.fnmatch] in *. cbn [Ascii.eqb Bool.eqb] in *.
    rewrite IH. apply orb_true_r.
Qed.

Lemma fnmatch_segment stamp sfx :
  Py.fnmatch "events_*.jsonl*" (new_file_name stamp +:+ sfx) = true.
Proof.
  unfold new_file_name. rewrite !str_app_assoc, events_app.
  do 7 (rewrite fnmatch_literal by done; rewrite Ascii.eqb_refl, andb_true_l).
  apply fnmatch_star.
  change (".jsonl" +:+ sfx)
    with (String "." (String "j" (String "s" (String "o" (String "n"
            (String "l" sfx)))))).
  do 6 (rewrite fnmatch_literal by done; rewrite Ascii.eqb_refl, andb_true_l).
  rewrite <- (str_app_nil_r sfx). by apply fnmatch_star.
Qed.

Lemma fnmatch_seg_file s : Py.fnmatch "events_*.jsonl*" (seg_file s) = true.
Proof.
  unfold seg_file, seg_plain. destruct (seg_gz s); [apply fnmatch_segment|].
  rewrite <- (str_app_nil_r (new_file_name _)). apply fnmatch_segment.
Qed.

Lemma is_gz_seg_file s : is_gz (seg_file s) = seg_gz s.
Proof.
  unfold is_gz, seg_file, seg_plain. destruct (seg_gz s).
  - rewrite gz_name_suffix by apply new_file_name_ne. by apply bool_decide_eq_true.
  - rewrite new_file_name_suffix. by apply bool_decide_eq_false.
Qed.

(** What [_read_file_forward] yields for a segment of the store. *)
Lemma read_forward_segment (d : Disk) s :
  (∀ c, gzip_decompress (gzip_compress c) = Some c) →
  seg_on_disk d s →
  Forall line_ok (seg_events s) →
  _read_file_forward d (seg_file s) = seg_events s.
Proof.
  intros Hgzip Hdisk Hok. unfold _read_file_forward, seg_on_disk in *.
  rewrite Hdisk, is_gz_seg_file. unfold seg_content.
  destruct (seg_events s) as [|e es] eqn:Hes; [done|].
  destruct (seg_gz s).
  - rewrite Hgzip. by apply read_text_gz.
  - by apply read_text_plain.
Qed.

End SegmentText.

(** ** The chain a run builds *)

Section Chain.
Context {L : Lib}.

Lemma compute_hash_with_hash e : compute_hash (with_hash e) = compute_hash e.
Proof. by destruct e. Qed.

Lemma tip_cons p e chain : tip p (e :: chain) = tip (Event.hash e) chain.
Proof. unfold tip. rewrite last_cons. by destruct (last chain). Qed.

Lemma tip_snoc p chain e : tip p (chain ++ [e]) = Event.hash e.
Proof. unfold tip. by rewrite last_snoc. Qed.

Lemma link_snoc p events e :
  link p (events ++ [e])
  = link p events
      ++ [with_hash (Event.set_previous_hash e (tip p (link p events)))].
Proof.
  revert p. induction events as [|x events IH]; intros p; [done|].
  cbn [app link]. by rewrite IH, tip_cons.
Qed.

(** The chain of a run passes the two checks of [verify_chain]. *)
Lemma verify_events_link p events :
  verify_events p (link p events) = inl (tip p (link p events)).
Proof.
  revert p. induction events as [|e events IH]; intros p; [done|].
  cbn [link verify_events]. rewrite tip_cons.
  rewrite decide_False by (by destruct e; intros []).
  rewrite decide_False; [apply IH|].
  rewrite compute_hash_with_hash. by destruct e; intros [].
Qed.

Lemma appended_cons_append env e acts :
  appended (Append env e :: acts) = e :: appended acts.
Proof. done. Qed.

Lemma appended_cons_task f acts : appended (RunTask f :: acts) = appended acts.
Proof. done. Qed.

End Chain.

(** The stand-in for gzip gives back what it was given. *)
Lemma Gzip_round_trip c : Gzip.decompress (Gzip.compress c) = Some c.
Proof.
  unfold Gzip.decompress.
  assert (Py.drop_str 10 (Gzip.compress c) = c) as ->; [done|].
  by rewrite decide_True.
Qed.

(** ** Segments in the order of their names *)

Section SegmentOrder.
Context {L : Lib}.

Lemma seg_before_trans a b c : seg_before a b → seg_before b c → seg_before a c.
Proof.
  intros [Hab Hlab] [Hbc Hlbc]. split; [by eapply str_lt_trans | congruence].
Qed.

(** The order looks at the stamps only. *)
Lemma StronglySorted_same_stamps l l' :
  Forall2 (λ a b, seg_stamp a = seg_stamp b) l l' →
  StronglySorted seg_before l → StronglySorted seg_before l'.
Proof.
  induction 1 as [|a b l l' Hab Hl IH]; [done|].
  rewrite !StronglySorted_cons. intros [Hall Hs]. split; [|by apply IH].
  clear IH Hs. induction Hl as [|x y l l' Hxy _ IHl]; [done|].
  apply Forall_cons in Hall as [[Hlt Hlen] Hall].
  constructor; [|by apply IHl]. split; congruence.
Qed.

Lemma seg_file_lt a b :
  seg_before a b → Py.str_lt (seg_file a) (seg_file b) = true.
Proof. intros [Hlt Hlen]. by apply segment_name_lt. Qed.

Lemma seg_file_ne a b : seg_before a b → seg_file a ≠ seg_file b.
Proof. intros H. by apply str_lt_ne, seg_file_lt. Qed.

(** Two segments of a sorted list, at different places. *)
Lemma sorted_middle l1 s l2 :
  StronglySorted seg_before (l1 ++ s :: l2) →
  (∀ x, x ∈ l1 → seg_before x s) ∧ (∀ x, x ∈ l2 → seg_before s x).
Proof.
  rewrite StronglySorted_app, StronglySorted_cons, Forall_forall.
  intros (H12 & _ & Hs & _). split; [|done].
  intros x Hx. apply H12; [done | left].
Qed.

End SegmentOrder.

(** ** The invariant of a run *)

Section Invariant.
Context {L : Lib}.

Lemma inv_fresh stamp :
  String.length stamp = 15%nat →
  store_inv (fresh_world stamp) [] (mkSeg stamp false []) [].
Proof.
  intros Hwidth. split; try done.
  - by repeat constructor.
  - intros n [c Hc]. unfold fresh_world in Hc. cbn [disk] in Hc.
    by rewrite lookup_empty in Hc.
  - by repeat constructor.
  - split; [constructor|]. by intros p []%elem_of_nil.
Qed.

(** What the active segment holds on disk is the text of its events. *)
Lemma inv_cur_text w closed cur events :
  store_inv w closed cur events →
  default EmptyString (disk w !! seg_plain cur) = text_of (seg_events cur).
Proof.
  intros Hinv. pose proof (inv_disk _ _ _ _ Hinv) as Hdisk.
  rewrite Forall_forall in Hdisk.
  assert (seg_on_disk (disk w) cur) as Hcur
    by (apply Hdisk, elem_of_app; right; by left).
  unfold seg_on_disk, seg_file, seg_content in Hcur.
  rewrite (inv_cur_plain _ _ _ _ Hinv) in Hcur. rewrite Hcur.
  by destruct (seg_events cur).
Qed.

Lemma inv_closed_before_cur w closed cur events s :
  store_inv w closed cur events → s ∈ closed → seg_before s cur.
Proof.
  intros Hinv Hs.
  eapply StronglySorted_app_1_elem_of; [apply (inv_order _ _ _ _ Hinv)|done|].
  by left.
Qed.

Lemma seg_file_cur w closed cur events :
  store_inv w closed cur events → seg_file cur = seg_plain cur.
Proof. intros Hinv. unfold seg_file. by rewrite (inv_cur_plain _ _ _ _ Hinv). Qed.

(** An append that does not rotate adds its event to the active
    segment. *)
Lemma inv_append_keep env w closed cur events e :
  store_inv w closed cur events →
  needs_rotation w = false →
  fault env = WriteOk →
  ∃ e', store_inv (append env w e).1 closed
          (mkSeg (seg_stamp cur) false (seg_events cur ++ [e']))
          (events ++ [e]).
Proof.
  intros Hinv Hrot Hfault.
  pose proof (inv_cur_text _ _ _ _ Hinv) as Htext.
  pose proof (seg_file_cur _ _ _ _ Hinv) as Hfile.
  destruct Hinv as [Hcur Hplain Hwidth Hclosed Hchain Htip Hdisk Hnames Horder Htasks].
  unfold append. rewrite Hrot. cbv zeta. rewrite Hfault, Hcur.
  cbn [default from_option id fst]. rewrite !Hcur.
  cbn [default from_option id]. rewrite Htext, Htip.
  set (e' := with_hash (Event.set_previous_hash e
                          (tip GENESIS_HASH (link GENESIS_HASH events)))).
  exists e'. cbn [fst].
  assert (∀ s, s ∈ closed → seg_file s ≠ seg_plain cur) as Hne.
  { intros s Hs. rewrite <- Hfile. apply seg_file_ne.
    eapply StronglySorted_app_1_elem_of; [done..|by left]. }
  split; cbn [store disk tasks Store.current_file Store.last_hash seg_stamp
              seg_gz seg_events]; try done.
  - rewrite map_app, concat_app in *. cbn [map concat] in *.
    rewrite !app_nil_r in *. cbn [seg_events].
    by rewrite app_assoc, Hchain, link_snoc.
  - by rewrite link_snoc, tip_snoc.
  - rewrite Forall_forall in Hdisk |- *.
    intros s [Hs|Hs%list_elem_of_singleton]%elem_of_app.
    + unfold seg_on_disk. rewrite lookup_insert_ne by (symmetry; by apply Hne).
      apply Hdisk, elem_of_app. by left.
    + subst s. unfold seg_on_disk, seg_file, seg_content, seg_plain.
      cbn [seg_gz seg_stamp seg_events]. rewrite lookup_insert_eq.
      rewrite text_of_snoc. by destruct (seg_events cur).
  - intros n Hn. destruct (decide (n = seg_plain cur)) as [->|Hneq].
    + eexists. split; [apply elem_of_app; right; by left|done].
    + rewrite lookup_insert_ne in Hn by done.
      destruct (Hnames n Hn) as (s & [Hs|Hs%list_elem_of_singleton]%elem_of_app & ->).
      * exists s. split; [apply elem_of_app; by left|done].
      * subst s. by rewrite Hfile in Hneq.
  - eapply StronglySorted_same_stamps; [|done].
    apply Forall2_app; [by apply Forall_Forall2_diag, Forall_true|].
    by repeat constructor.
Qed.

(** An append that rotates closes the active segment, schedules its
    compression and starts a new segment with its event. *)
Lemma inv_append_rotate env w closed cur events e :
  store_inv w closed cur events →
  needs_rotation w = true →
  fault env = WriteOk →
  String.length (now_stamp env) = 15%nat →
  Py.str_lt (stamp_of (Store.current_file (store w))) (now_stamp env) = true →
  ∃ e', store_inv (append env w e).1 (closed ++ [cur])
          (mkSeg (now_stamp env) false [e']) (events ++ [e]).
Proof.
  intros Hinv Hrot Hfault Hlen Hlater.
  pose proof (seg_file_cur _ _ _ _ Hinv) as Hfile.
  pose proof (λ s, inv_closed_before_cur w closed cur events s Hinv) as Hbefore.
  destruct Hinv as [Hcur Hplain Hwidth Hclosed Hchain Htip Hdisk Hnames Horder Htasks].
  rewrite Hcur in Hlater. unfold seg_plain in Hlater.
  rewrite stamp_of_new_file_name in Hlater.
  set (new := mkSeg (now_stamp env) false []).
  assert (seg_before cur new) as Hcn by (split; [done | cbn; congruence]).
  assert (∀ s, s ∈ closed ++ [cur] → seg_before s new) as Hall.
  { intros s [Hs|Hs%list_elem_of_singleton]%elem_of_app; [|by subst].
    eapply seg_before_trans; [by apply Hbefore | done]. }
  rewrite Forall_forall in Hdisk.
  (* the active segment is on disk, with events *)
  assert (seg_used cur = true ∧ is_Some (disk w !! seg_plain cur))
    as [Hused Hexists].
  { unfold needs_rotation in Hrot. rewrite Hcur in Hrot.
    destruct (disk w !! seg_plain cur) as [c|] eqn:Hc; [|done].
    split; [|by eexists].
    assert (seg_on_disk (disk w) cur) as Hon
      by (apply Hdisk, elem_of_app; right; by left).
    unfold seg_on_disk, seg_used in *. rewrite Hfile, Hc in Hon.
    by destruct (seg_events cur). }
  (* the new name is not in the directory *)
  assert (disk w !! new_file_name (now_stamp env) = None) as Hfree.
  { apply eq_None_not_Some. intros (s & Hs & Heq)%Hnames.
    by apply (seg_file_ne s new (Hall s Hs)). }
  unfold append. rewrite Hrot. cbv zeta. unfold _rotate_file.
  rewrite Hcur. rewrite decide_True by done.
  cbn [store disk tasks _create_new_file Store.current_file Store.last_hash
       Store.event_count default from_option id fst].
  rewrite Hfault, Hfree. cbn [default from_option id fst].
  rewrite str_app_nil_l, Htip.
  set (e' := with_hash (Event.set_previous_hash e
                          (tip GENESIS_HASH (link GENESIS_HASH events)))).
  exists e'.
  split; cbn [store disk tasks Store.current_file Store.last_hash seg_stamp
              seg_gz seg_events]; try done.
  - apply Forall_app. split; [done|]. by apply Forall_singleton.
  - rewrite map_app, concat_app. cbn [map concat seg_events].
    by rewrite app_nil_r, Hchain, link_snoc.
  - by rewrite link_snoc, tip_snoc.
  - rewrite Forall_forall.
    intros s [Hs|Hs%list_elem_of_singleton]%elem_of_app.
    + unfold seg_on_disk. rewrite lookup_insert_ne; [by apply Hdisk|].
      intros Heq. by apply (seg_file_ne s new (Hall s Hs)).
    + subst s. unfold seg_on_disk, seg_file, seg_content, seg_plain.
      cbn [seg_gz seg_stamp seg_events]. rewrite lookup_insert_eq.
      unfold text_of. cbn [foldr]. by rewrite str_app_nil_r.
  - intros n Hn. destruct (decide (n = new_file_name (now_stamp env))) as [->|Hneq].
    + eexists. split; [apply elem_of_app; right; by left|done].
    + rewrite lookup_insert_ne in Hn by done.
      destruct (Hnames n Hn) as (s & Hs & ->).
      exists s. split; [apply elem_of_app; by left|done].
  - apply StronglySorted_app_2; [|done|by repeat constructor].
    intros s x Hs Hx%list_elem_of_singleton. subst x.
    destruct (Hall s Hs) as [Hlt Hl]. by split.
  - destruct Htasks as [Hnd Htasks]. split.
    + apply NoDup_app. split; [done|]. split; [|apply NoDup_singleton].
      intros p Hp Hq%list_elem_of_singleton. subst p.
      destruct (Htasks _ Hp) as (s & Hs & Hgz & Hplain').
      apply (seg_file_ne s cur (Hbefore s Hs)).
      unfold seg_file. by rewrite Hgz, Hplain.
    + intros p [Hp|Hp%list_elem_of_singleton]%elem_of_app.
      * destruct (Htasks _ Hp) as (s & Hs & Hgz & Hplain').
        exists s. split; [apply elem_of_app; by left|done].
      * subst p. exists cur. split; [apply elem_of_app; right; by left|done].
Qed.

(** The event loop runs the oldest compression task: the segment it
    names is replaced by its compressed file. *)
Lemma inv_run_task w closed cur events :
  store_inv w closed cur events →
  ∃ closed', store_inv (run_task NoFault w) closed' cur events.
Proof.
  intros Hinv. unfold run_task.
  destruct (tasks w) as [|p rest] eqn:Htasks_eq; [by exists closed|].
  pose proof (seg_file_cur _ _ _ _ Hinv) as Hfile.
  destruct Hinv as [Hcur Hplain Hwidth Hclosed Hchain Htip Hdisk Hnames Horder Htasks].
  rewrite Htasks_eq in Htasks. destruct Htasks as [Hnd Htasks].
  destruct (Htasks p) as (s & Hs & Hgz & Hp); [by left|].
  apply list_elem_of_split in Hs as (c1 & c2 & ->).
  set (s' := mkSeg (seg_stamp s) true (seg_events s)).
  assert (seg_file s' = seg_plain s +:+ ".gz") as Hfile' by done.
  assert (seg_events s' = seg_events s) as Hev' by done.
  assert (seg_stamp s' = seg_stamp s) as Hstamp' by done.
  assert (seg_gz s' = true) as Hgz' by done.
  clearbody s'.
  exists (c1 ++ s' :: c2).
  rewrite <- app_assoc in Horder, Hdisk, Hnames, Hchain. cbn [app] in *.
  destruct (sorted_middle _ _ _ Horder) as [Hleft Hright].
  rewrite Forall_forall in Hdisk.
  assert (seg_used s = true) as Hused.
  { rewrite Forall_forall in Hclosed. apply Hclosed, elem_of_app. right. by left. }
  assert (seg_file s = p) as Hsp by (unfold seg_file; by rewrite Hgz).
  assert (disk w !! p = Some (text_of (seg_events s))) as Hpfile.
  { assert (seg_on_disk (disk w) s) as Hon
      by (apply Hdisk, elem_of_app; right; by left).
    unfold seg_on_disk, seg_content, seg_used in *. rewrite Hsp, Hgz in Hon.
    rewrite Hon. by destruct (seg_events s). }
  (* the other segments have other names *)
  assert (∀ x, x ∈ c1 ∨ x ∈ c2 ++ [cur] →
               seg_file x ≠ p ∧ seg_file x ≠ p +:+ ".gz") as Hother.
  { intros x [Hx|Hx].
    - split.
      + rewrite <- Hsp. by apply seg_file_ne, Hleft.
      + rewrite <- Hp, <- Hfile'. apply seg_file_ne.
        destruct (Hleft x Hx) as [? ?]. split; congruence.
    - split; apply not_eq_sym.
      + rewrite <- Hsp. by apply seg_file_ne, Hright.
      + rewrite <- Hp, <- Hfile'. apply seg_file_ne.
        destruct (Hright x Hx) as [? ?]. split; congruence. }
  assert (_compress_file NoFault (disk w) p
          = delete p (<[p +:+ ".gz" := gzip_compress (text_of (seg_events s))]>
                        (<[p +:+ ".gz" := EmptyString]> (disk w)))) as ->.
  { assert (Py.with_suffix p ".jsonl.gz" = p +:+ ".gz") as Hws
      by (rewrite <- Hp; apply compressed_path_eq).
    unfold _compress_file, compress_trace. by rewrite Hws, Hpfile. }
  assert (p +:+ ".gz" ≠ p) as Hgzne by by apply str_app_ne_self.
  split; cbn [store disk tasks]; try done.
  - rewrite Forall_forall in Hclosed |- *.
    intros x [Hx|[->|Hx]%elem_of_cons]%elem_of_app;
      [|unfold seg_used in *; by rewrite Hev'|];
      apply Hclosed, elem_of_app; [by left | right; by right].
  - rewrite <- Hchain, <- app_assoc. cbn [app].
    rewrite !map_app. cbn [map]. by rewrite Hev'.
  - rewrite <- app_assoc. cbn [app]. rewrite Forall_forall.
    intros x [Hx|[->|Hx]%elem_of_cons]%elem_of_app.
    + destruct (Hother x) as [Hn1 Hn2]; [by left|].
      unfold seg_on_disk. rewrite lookup_delete_ne, !lookup_insert_ne by done.
      apply Hdisk, elem_of_app. by left.
    + unfold seg_on_disk, seg_content. rewrite Hfile', Hp, Hgz', Hev'.
      rewrite lookup_delete_ne by done.
      rewrite lookup_insert_eq. unfold seg_used in Hused.
      by destruct (seg_events s).
    + destruct (Hother x) as [Hn1 Hn2]; [by right|].
      unfold seg_on_disk. rewrite lookup_delete_ne, !lookup_insert_ne by done.
      apply Hdisk, elem_of_app. right. by right.
  - rewrite <- app_assoc. cbn [app]. intros n Hn.
    destruct (decide (n = p)) as [->|Hnp];
      [by rewrite lookup_delete_eq in Hn; destruct Hn|].
    rewrite lookup_delete_ne in Hn by done.
    destruct (decide (n = p +:+ ".gz")) as [->|Hngz].
    + exists s'. split; [apply elem_of_app; right; by left|].
      by rewrite Hfile', Hp.
    + rewrite !lookup_insert_ne in Hn by done.
      destruct (Hnames n Hn) as (x & Hx & ->).
      exists x. split; [|done].
      apply elem_of_app in Hx as [Hx|[->|Hx]%elem_of_cons].
      * apply elem_of_app. by left.
      * done.
      * apply elem_of_app. right. by right.
  - rewrite <- app_assoc. cbn [app].
    eapply StronglySorted_same_stamps; [|done].
    apply Forall2_app; [by apply Forall_Forall2_diag, Forall_true|].
    constructor; [done|]. by apply Forall_Forall2_diag, Forall_true.
  - apply NoDup_cons in Hnd as [Hnotin Hnd]. split; [done|].
    intros q Hq. destruct (Htasks q) as (x & Hx & Hxgz & Hxq); [by right|].
    exists x. split; [|done].
    apply elem_of_app in Hx as [Hx|[->|Hx]%elem_of_cons].
    + apply elem_of_app. by left.
    + congruence.
    + apply elem_of_app. right. by right.
Qed.

End Invariant.

(** ** Verification after a run *)

Section VerifyRun.
Context {L : Lib}.

Lemma inv_run acts : ∀ w closed cur events,
  store_inv w closed cur events →
  clock_ok w acts →
  ∃ closed' cur',
    store_inv (run w acts) closed' cur' (events ++ appended acts).
Proof.
  induction acts as [|a acts IH]; intros w closed cur events Hinv Hclock.
  - exists closed, cur. by rewrite app_nil_r.
  - cbn [clock_ok] in Hclock. destruct Hclock as [Ha Hrest].
    unfold run. cbn [fold_left]. fold (run (step w a) acts).
    destruct a as [env e|f].
    + destruct Ha as (Hfault & Hlen & Hlater).
      rewrite appended_cons_append.
      replace (events ++ e :: appended acts)
        with ((events ++ [e]) ++ appended acts) by by rewrite <- app_assoc.
      destruct (needs_rotation w) eqn:Hrot.
      * destruct (inv_append_rotate env w closed cur events e) as [e' He'];
          [by auto..|].
        by eapply IH.
      * destruct (inv_append_keep env w closed cur events e) as [e' He'];
          [done..|].
        by eapply IH.
    + subst f. rewrite appended_cons_task.
      destruct (inv_run_task w closed cur events Hinv) as [closed' Hinv'].
      by eapply IH.
Qed.

Lemma StronglySorted_filter {A} (R : relation A) (P : A → Prop)
    `{∀ x, Decision (P x)} l :
  StronglySorted R l → StronglySorted R (filter P l).
Proof.
  induction 1 as [|x l Hl IH Hx]; [constructor|].
  rewrite filter_cons. case_decide; [|done].
  constructor; [done|]. rewrite Forall_forall in Hx |- *.
  intros y [_ Hy]%list_elem_of_filter. by apply Hx.
Qed.

Lemma Forall_concat_elem {A} (P : A → Prop) ls l :
  Forall P (concat ls) → l ∈ ls → Forall P l.
Proof.
  induction ls as [|l' ls IH]; [by intros _ []%elem_of_nil|].
  cbn [concat]. intros [Hl' Hls]%Forall_app [->|Hin]%elem_of_cons; auto.
Qed.

Lemma StronglySorted_NoDup {A} (R : relation A) l :
  (∀ x, ¬ R x x) → StronglySorted R l → NoDup l.
Proof.
  intros Hirr. induction 1 as [|x l Hl IH Hx]; constructor; [|done].
  intros Hin. rewrite Forall_forall in Hx. by apply (Hirr x), Hx.
Qed.

(** Segments without events take no part in the history. *)
Lemma concat_used segs :
  concat (map seg_events (filter (λ s, seg_used s = true) segs))
  = concat (map seg_events segs).
Proof.
  induction segs as [|s segs IH]; [done|].
  rewrite filter_cons. cbn [map concat]. case_decide as Hused.
  - cbn [map concat]. by rewrite IH.
  - unfold seg_used in Hused. by destruct (seg_events s).
Qed.

(** The listing [verify_chain] sorts is the list of the segments that
    hold events, in the order of their creation. *)
Lemma sorted_glob_of_inv w closed cur events :
  store_inv w closed cur events →
  Py.sorted (glob "events_*.jsonl*" (disk w))
  = map seg_file (filter (λ s, seg_used s = true) (closed ++ [cur])).
Proof.
  intros Hinv.
  pose proof (inv_disk _ _ _ _ Hinv) as Hdisk. rewrite Forall_forall in Hdisk.
  pose proof (StronglySorted_filter _ (λ s, seg_used s = true) _
                (inv_order _ _ _ _ Hinv)) as Hsorted.
  set (present := filter (λ s, seg_used s = true) (closed ++ [cur])) in *.
  apply sorted_of_Sorted.
  - apply Sorted.StronglySorted_Sorted.
    apply (StronglySorted_fmap _ seg_before); [|done].
    intros a b Hab. by apply str_lt_le, seg_file_lt.
  - apply NoDup_Permutation; [apply NoDup_glob| |].
    + apply (StronglySorted_NoDup (λ a b, Py.str_lt a b = true)).
      * intros x Hx. by apply (str_lt_ne x x).
      * apply (StronglySorted_fmap _ seg_before); [|done].
        intros a b Hab. by apply seg_file_lt.
    + intros n. rewrite elem_of_glob, list_elem_of_fmap. split.
      * intros [_ Hn]. destruct (inv_names _ _ _ _ Hinv n Hn) as (s & Hs & ->).
        exists s. split; [done|]. apply list_elem_of_filter. split; [|done].
        specialize (Hdisk s Hs). unfold seg_on_disk, seg_used in *.
        destruct (seg_events s); [|done]. rewrite Hdisk in Hn. by destruct Hn.
      * intros (s & -> & [Hused Hs]%list_elem_of_filter).
        split; [apply fnmatch_seg_file|].
        specialize (Hdisk s Hs). unfold seg_on_disk, seg_used in *.
        rewrite Hdisk. by destruct (seg_events s).
Qed.

Lemma verify_chain_of_inv w closed cur events :
  store_inv w closed cur events →
  (∀ c, gzip_decompress (gzip_compress c) = Some c) →
  Forall line_ok (link GENESIS_HASH events) →
  verify_chain (disk w) = (true, None).
Proof.
  intros Hinv Hgzip Hok. unfold verify_chain.
  rewrite (sorted_glob_of_inv _ _ _ _ Hinv), verify_files_events.
  pose proof (inv_disk _ _ _ _ Hinv) as Hdisk. rewrite Forall_forall in Hdisk.
  rewrite <- (inv_chain _ _ _ _ Hinv) in Hok.
  assert (∀ s, s ∈ closed ++ [cur] → Forall line_ok (seg_events s)) as Hsegs.
  { intros s Hs. apply (Forall_concat_elem _ _ _ Hok).
    apply list_elem_of_fmap. by exists s. }
  assert (∀ l, (∀ s, s ∈ l → s ∈ closed ++ [cur]) →
               forward_events (disk w) (map seg_file l)
               = concat (map seg_events l)) as Hread.
  { unfold forward_events. induction l as [|s l IH]; intros Hl; [done|].
    cbn [map concat]. rewrite IH by (intros; apply Hl; by right).
    rewrite read_forward_segment; [done..| |];
      [apply Hdisk | apply Hsegs]; apply Hl; by left. }
  rewrite Hread by (by intros s [_ ?]%list_elem_of_filter).
  rewrite concat_used, (inv_chain _ _ _ _ Hinv), verify_events_link. done.
Qed.

(** A store object is started on an empty directory; events are
    appended, none of the writes failing, and in between the event loop
    may run compression tasks to their end.  If every append that
    rotates reads a clock that is later, to the second, than the reading
    that named the active segment, then [verify_chain] right after the
    run answers valid. *)
Theorem verify_chain_valid_after_appends stamp acts :
  String.length stamp = 15%nat →
  clock_ok (fresh_world stamp) acts →
  (∀ c, gzip_decompress (gzip_compress c) = Some c) →
  Forall line_ok (link GENESIS_HASH (appended acts)) →
  initialize init_store ∅ stamp = Ok (store (fresh_world stamp)) ∧
  verify_chain (disk (run (fresh_world stamp) acts)) = (true, None).
Proof.
  intros Hwidth Hclock Hgzip Hok. split; [done|].
  destruct (inv_run acts _ _ _ _ (inv_fresh stamp Hwidth) Hclock)
    as (closed & cur & Hinv).
  by eapply verify_chain_of_inv.
Qed.

End VerifyRun.

(** Under a segment size of zero every append after the first rotates;
    the three appends read the clock at three successive seconds, and the
    first closed segment is compressed in between. *)
Lemma verify_chain_valid_after_appends_witness :
  Py.sorted (glob "events_*.jsonl*"
               (disk (run (L := Scenario.lib0) (fresh_world Scenario.t0)
                        Scenario.later_seconds)))
  = ["events_20250101_000000.jsonl.gz"; "events_20250101_000001.jsonl";
     "events_20250101_000002.jsonl"] ∧
  verify_chain (L := Scenario.lib0)
    (disk (run (L := Scenario.lib0) (fresh_world Scenario.t0)
             Scenario.later_seconds)) = (true, None).
Proof.
  split.
  - vm_compute; reflexivity.
  - apply (verify_chain_valid_after_appends (L := Scenario.lib0)
             Scenario.t0 Scenario.later_seconds).
    + reflexivity.
    + repeat (split;
        [first [ reflexivity
               | split;
                 [reflexivity
                 | split;
                   [reflexivity
                   | intros Hrot;
                     first [ vm_compute; reflexivity
                           | vm_compute in Hrot; discriminate Hrot ]]]]|]).
      exact I.
    + apply Gzip_round_trip.
    + repeat apply Forall_cons_2; [..|apply Forall_nil_2];
        (split; [split; [|split]|]; by vm_compute).
Defined.

(** C1 fails on a rotation within the second that named the active
    segment.  [_rotate_file] is to rotate to a new file and compress the
    old one, but [_create_new_file] names the new file by the clock to
    the second.  With a segment size of zero, A, B and C are appended
    within one second, every append returning its event, and the
    compression task of the rotation runs before C is appended: the
    rotation has given the new segment the name of the old one, the task
    replaces that file by its compressed copy, C starts the file anew,
    and [verify_chain] reads C before A and B and reports a broken
    chain. *)
Lemma verify_chain_broken_after_same_second_rotation :
  appends_ok (L := Scenario.lib0) (fresh_world Scenario.t0) Scenario.same_second
    = true ∧
  Py.sorted (glob "events_*.jsonl*"
               (disk (run (L := Scenario.lib0) (fresh_world Scenario.t0)
                        Scenario.same_second)))
    = ["events_20250101_000000.jsonl"; "events_20250101_000000.jsonl.gz"] ∧
  verify_chain (L := Scenario.lib0)
    (disk (run (L := Scenario.lib0) (fresh_world Scenario.t0)
             Scenario.same_second))
    = (false,
       Some "Chain broken at event C: expected 0000000000000000, got d33f1efcb15d051d").
Proof. split; [|split]; vm_compute; reflexivity. Qed.

(** ** Evaluation on concrete runs *)

(** The clock condition of a concrete run, action by action. *)
Ltac clock_steps :=
  repeat (split;
    [first [ reflexivity
           | split;
             [reflexivity
             | split;
               [reflexivity
               | let Hrot := fresh "Hrot" in
                 intros Hrot;
                 first [ vm_compute; reflexivity
                       | vm_compute in Hrot; discriminate Hrot ]]]]|]);
  exact I.

(** A closed term is replaced by its value. *)
Ltac evaluate t :=
  let v := eval vm_compute in t in
  replace t with v by (vm_compute; reflexivity).

(** Two closed terms of a type with decidable equality differ. *)
Ltac differ :=
  lazymatch goal with
  | |- ?a ≠ ?b => apply (bool_decide_eq_false_1 (a = b))
  | |- ?a = ?b → False => apply (bool_decide_eq_false_1 (a = b))
  end;
  vm_compute; reflexivity.

(** The records of the events of a concrete list. *)
Ltac lines_ok :=
  match goal with |- Forall line_ok ?l => evaluate l end;
  repeat apply Forall_cons_2; [..|apply Forall_nil_2];
  (split; [split; [|split]|]; by vm_compute).

(** ** What an append does *)

Section AppendEffect.
Context {L : Lib}.

(** The store after the rotation check and the file-name check of
    [append], before the write. *)
Lemma append_file_chosen env w :
  let w1 := if needs_rotation w then _rotate_file w (now_stamp env) else w in
  ∃ f,
    match Store.current_file (store w1) with
    | Some _ => store w1
    | None => _create_new_file (store w1) (now_stamp env)
    end = Store.mk (Some f) (Store.last_hash (store w))
            (Store.event_count (store w)) ∧
    disk w1 = disk w.
Proof.
  cbv zeta. unfold needs_rotation, _rotate_file.
  destruct w as [[[cur|] h n] d ts]; cbn; [|by eexists].
  destruct (d !! cur) as [content|] eqn:Hcur; cbn; [|by eexists].
  case_bool_decide; cbn; [|by eexists].
  case_decide; cbn; by eexists.
Qed.

Lemma append_written env w event :
  fault env = WriteOk →
  ∃ f,
    append env w event
    = (mkWorld
         (Store.mk (Some f)
            (compute_hash (Event.set_previous_hash event
                             (Store.last_hash (store w))))
            (Store.event_count (store w) + 1))
         (<[f := default EmptyString (disk w !! f)
                 +:+ event_line (with_hash (Event.set_previous_hash event
                                              (Store.last_hash (store w))))]>
            (disk w))
         (tasks (if needs_rotation w then _rotate_file w (now_stamp env)
                 else w)),
       Ok (with_hash (Event.set_previous_hash event
                        (Store.last_hash (store w))))).
Proof.
  intros Hfault. destruct (append_file_chosen env w) as (f & Hst & Hd).
  exists f. unfold append. cbv zeta in Hst. rewrite Hst, Hfault, Hd. done.
Qed.

Lemma append_failed env w event :
  fault env ≠ WriteOk →
  ∃ exn, (append env w event).2 = Raised exn ∧
    Store.last_hash (store (append env w event).1) = Store.last_hash (store w) ∧
    Store.event_count (store (append env w event).1)
      = Store.event_count (store w).
Proof.
  intros Hfault. destruct (append_file_chosen env w) as (f & Hst & Hd).
  unfold append. cbv zeta in Hst. rewrite Hst.
  destruct (fault env); [done|by eexists..].
Qed.

(** An [append] whose write succeeds returns the event it was given
    with the two chain fields set: [previous_hash] to the [last_hash] of
    the store, [hash] to the hash of the event so linked.  The store
    moves on to that hash and counts one event more; the record is
    added as one line at the end of the active segment, and no other
    file changes. *)
Theorem append_links_and_writes_one_line env w event :
  fault env = WriteOk →
  ∃ e' f,
    (append env w event).2 = Ok e' ∧
    e' = Event.set_hash
           (Event.set_previous_hash event (Store.last_hash (store w)))
           (Event.hash e') ∧
    Event.hash e' = compute_hash e' ∧
    Store.current_file (store (append env w event).1) = Some f ∧
    Store.last_hash (store (append env w event).1) = Event.hash e' ∧
    Store.event_count (store (append env w event).1)
      = Store.event_count (store w) + 1 ∧
    disk (append env w event).1 !! f
      = Some (default EmptyString (disk w !! f) +:+ event_line e') ∧
    ∀ g, g ≠ f → disk (append env w event).1 !! g = disk w !! g.
Proof.
  intros Hfault. destruct (append_written env w event Hfault) as (f & ->).
  eexists _, f. cbn [fst snd store disk].
  split; [done|]. split; [done|].
  split; [by rewrite compute_hash_with_hash|].
  split; [done|]. split; [done|]. split; [done|].
  split; [by rewrite lookup_insert_eq|].
  intros g Hg. by rewrite lookup_insert_ne.
Qed.

(** Whatever the outcome of the write, [append] deletes no file and
    rewrites none: every file of the directory is still there, with its
    former content as a prefix of the new one. *)
Theorem append_only_adds_text env w event g content :
  disk w !! g = Some content →
  ∃ added, disk (append env w event).1 !! g = Some (content +:+ added).
Proof.
  intros Hg. destruct (append_file_chosen env w) as (f & Hst & Hd).
  unfold append. cbv zeta in Hst. rewrite Hst, Hd.
  cbn [Store.current_file default from_option id].
  destruct (fault env) as [| |written]; cbn [fst disk].
  - destruct (decide (g = f)) as [->|Hne].
    + rewrite lookup_insert_eq, Hg. by eexists.
    + rewrite lookup_insert_ne by done. exists EmptyString.
      by rewrite str_app_nil_r.
  - exists EmptyString. by rewrite str_app_nil_r.
  - destruct (decide (g = f)) as [->|Hne].
    + rewrite lookup_insert_eq, Hg. by eexists.
    + rewrite lookup_insert_ne by done. exists EmptyString.
      by rewrite str_app_nil_r.
Qed.

(** *** The events a run returns *)


Lemma returned_step w a acts :
  returned w (a :: acts)
  = match a with
    | Append env e =>
        match (append env w e).2 with
        | Ok e' => [e']
        | Raised _ => []
        end
    | RunTask _ => []
    end ++ returned (step w a) acts.
Proof. destruct a as [env e|f]; [|done]. cbn. by destruct (append env w e).2. Qed.

Lemma run_cons w a acts : run w (a :: acts) = run (step w a) acts.
Proof. done. Qed.

Lemma chained_app p es1 es2 :
  chained p (es1 ++ es2) ↔ chained p es1 ∧ chained (tip p es1) es2.
Proof.
  revert p. induction es1 as [|x es1 IH]; intros p.
  - cbn. unfold tip. cbn. tauto.
  - cbn [app chained]. rewrite IH, tip_cons. tauto.
Qed.

Lemma tip_app p es1 es2 : tip p (es1 ++ es2) = tip (tip p es1) es2.
Proof.
  revert p. induction es1 as [|x es1 IH]; intros p; [done|].
  cbn [app]. by rewrite !tip_cons.
Qed.

Lemma run_chain_state acts : ∀ w,
  chained (Store.last_hash (store w)) (returned w acts) ∧
  Store.last_hash (store (run w acts))
    = tip (Store.last_hash (store w)) (returned w acts) ∧
  Store.event_count (store (run w acts))
    = Store.event_count (store w) + Z.of_nat (length (returned w acts)).
Proof.
  induction acts as [|a acts IH]; intros w.
  - cbn. unfold tip. cbn. split; [done|]. split; [done|lia].
  - rewrite returned_step, run_cons, chained_app, tip_app, length_app.
    destruct (IH (step w a)) as (Hch & Hlast & Hcount).
    rewrite Hlast, Hcount. clear IH Hlast Hcount.
    destruct a as [env e|f]; cbn [step] in *.
    + assert (fault env = WriteOk ∨ fault env ≠ WriteOk) as [Hok|Hfail]
        by (destruct (fault env); [by left|by right..]).
      * destruct (append_written env w e Hok) as (f & Heq).
        rewrite Heq in *. cbn [fst snd store Store.last_hash
          Store.event_count] in *.
        rewrite tip_cons. unfold tip at 1 3. cbn [last fmap option_fmap
          option_map default Event.hash Event.set_hash with_hash].
        cbn [chained]. rewrite compute_hash_with_hash.
        split; [|split; [done|cbn [length]; lia]].
        split; [|done]. split; [by destruct e|]. split; [by destruct e|done].
      * destruct (append_failed env w e Hfail) as (exn & Hr & Hh & Hc).
        rewrite Hr, Hh, Hc in *. unfold tip at 1 3. cbn.
        split; [done|]. split; [done|lia].
    + assert (store (run_task f w) = store w) as Hst
        by (unfold run_task; by destruct (tasks w)).
      rewrite Hst in *.
      replace (tip (Store.last_hash (store w)) [])
        with (Store.last_hash (store w)) by done.
      cbn [length]. split; [done|]. split; [done|lia].
Qed.

(** Through any run of appends and compression tasks, failed writes
    included, the events the appends return form a chain that starts at
    the [last_hash] the store had; the store ends with the hash of the
    last returned event as its [last_hash], and its [event_count] has
    grown by the number of returned events. *)
Theorem run_returns_a_chain acts w :
  chained (Store.last_hash (store w)) (returned w acts) ∧
  Store.last_hash (store (run w acts))
    = tip (Store.last_hash (store w)) (returned w acts) ∧
  Store.event_count (store (run w acts))
    = Store.event_count (store w) + Z.of_nat (length (returned w acts)).
Proof. apply run_chain_state. Qed.

End AppendEffect.

(** D is appended to the store of A, B and C: the returned event links
    to the hash of C and carries the hash of its own fields. *)
Lemma append_links_and_writes_one_line_witness :
  ∃ e',
    (append (L := Scenario.lib100) (Scenario.at_ Scenario.t0) Scenario.abc
       Scenario.D).2 = Ok e' ∧
    Event.previous_hash e' = Event.hash Scenario.C' ∧
    Event.hash e' = compute_hash (L := Scenario.lib100) e' ∧
    Store.event_count
      (store (append (L := Scenario.lib100) (Scenario.at_ Scenario.t0)
                Scenario.abc Scenario.D).1) = 4.
Proof.
  destruct (append_links_and_writes_one_line (L := Scenario.lib100)
              (Scenario.at_ Scenario.t0) Scenario.abc Scenario.D eq_refl)
    as (e' & f & Hr & He & Hh & _ & _ & Hc & _).
  exists e'. split; [exact Hr|]. split; [|split; [exact Hh|]].
  - rewrite He. vm_compute. reflexivity.
  - rewrite Hc. vm_compute. reflexivity.
Defined.

(** The write of D stops after forty bytes: the segment of A, B and C
    keeps its content and has grown. *)
Lemma append_only_adds_text_witness :
  ∃ content added,
    disk Scenario.abc !! Scenario.seg0 = Some content ∧
    disk Scenario.torn !! Scenario.seg0 = Some (content +:+ added).
Proof.
  assert (disk Scenario.abc !! Scenario.seg0
          = Some (text_of (L := Scenario.lib100) Scenario.chain_abc)) as Hc
    by (vm_compute; reflexivity).
  destruct (append_only_adds_text (L := Scenario.lib100)
              (mkAppendEnv Scenario.t0 (WriteFails 40)) Scenario.abc
              Scenario.D Scenario.seg0 _ Hc) as [added Ha].
  exists (text_of (L := Scenario.lib100) Scenario.chain_abc), added.
  split; [exact Hc|exact Ha].
Defined.

(** ** The history a run leaves on disk *)

Section RunHistory.
Context {L : Lib}.

(** When no write fails, the returned events are the given ones,
    linked. *)
Lemma returned_link acts : ∀ w,
  clock_ok w acts →
  returned w acts = link (Store.last_hash (store w)) (appended acts).
Proof.
  induction acts as [|a acts IH]; intros w Hclock; [done|].
  cbn [clock_ok] in Hclock. destruct Hclock as [Ha Hrest].
  rewrite returned_step, (IH _ Hrest). destruct a as [env e|f].
  - destruct Ha as (Hfault & _). rewrite appended_cons_append. cbn [step link].
    destruct (append_written env w e Hfault) as (f & ->). done.
  - rewrite appended_cons_task. cbn [step app]. unfold run_task.
    by destruct (tasks w).
Qed.

Lemma readlines_text_of es :
  Forall line_ok es → Py.readlines (text_of es) = map event_line es.
Proof.
  induction 1 as [|e es He _ IH]; [done|].
  rewrite text_of_cons, readlines_line by apply He. by rewrite IH.
Qed.

Lemma yield_event_lines es :
  Forall line_ok es → yield_lines true (map event_line es) = es.
Proof.
  induction 1 as [|e es He _ IH]; [done|].
  cbn [map]. by rewrite yield_lines_event, IH.
Qed.

Lemma split_text_of es :
  Forall line_ok es → es ≠ [] →
  Py.split Py.nl (Py.strip (text_of es))
  = map (λ e, json_dumps false (model_dump e)) es.
Proof.
  intros Hok Hne. rewrite text_of_joined by done.
  destruct (joined_tight es Hok Hne) as [Hs Hj].
  by rewrite strip_line, split_joined.
Qed.

Lemma map_reverse {A B} (f : A → B) l : map f (reverse l) = reverse (map f l).
Proof.
  induction l as [|x l IH]; [done|].
  cbn [map]. by rewrite !reverse_cons, map_app, IH.
Qed.

(** What [_read_file] yields for a segment of the store. *)
Lemma read_reverse_segment (d : Disk) s :
  (∀ c, gzip_decompress (gzip_compress c) = Some c) →
  seg_on_disk d s →
  Forall line_ok (seg_events s) →
  _read_file d (seg_file s) = reverse (seg_events s).
Proof.
  intros Hgzip Hdisk Hok. unfold _read_file, seg_on_disk in *.
  rewrite Hdisk, is_gz_seg_file. unfold seg_content.
  destruct (seg_events s) as [|e es] eqn:Hes; [done|].
  assert (Forall line_ok (reverse (e :: es))) as Hrev
    by by apply Forall_reverse.
  destruct (seg_gz s).
  - rewrite Hgzip, split_text_of by done.
    rewrite <- map_reverse. by apply yield_dumped.
  - rewrite readlines_text_of by done.
    rewrite <- map_reverse. by apply yield_event_lines.
Qed.

Lemma concat_reverse {A} (ls : list (list A)) :
  concat (map reverse (reverse ls)) = reverse (concat ls).
Proof.
  induction ls as [|l ls IH]; [done|].
  rewrite reverse_cons, map_app, concat_app, IH. cbn [map concat].
  by rewrite app_nil_r, reverse_app.
Qed.

Lemma inv_segments_ok w closed cur events s :
  store_inv w closed cur events →
  Forall line_ok (link GENESIS_HASH events) →
  s ∈ closed ++ [cur] → Forall line_ok (seg_events s).
Proof.
  intros Hinv Hok Hs. rewrite <- (inv_chain _ _ _ _ Hinv) in Hok.
  apply (Forall_concat_elem _ _ _ Hok), list_elem_of_fmap. by exists s.
Qed.

Lemma history_of_inv w closed cur events :
  store_inv w closed cur events →
  (∀ c, gzip_decompress (gzip_compress c) = Some c) →
  Forall line_ok (link GENESIS_HASH events) →
  history (disk w) = link GENESIS_HASH events ∧
  history_newest_first (disk w) = reverse (link GENESIS_HASH events).
Proof.
  intros Hinv Hgzip Hok. unfold history, history_newest_first.
  rewrite (sorted_glob_of_inv _ _ _ _ Hinv).
  pose proof (inv_disk _ _ _ _ Hinv) as Hdisk. rewrite Forall_forall in Hdisk.
  pose proof (λ s, inv_segments_ok _ _ _ _ s Hinv Hok) as Hsegs.
  rewrite <- (inv_chain _ _ _ _ Hinv), <- concat_used.
  set (used := filter (λ s, seg_used s = true) (closed ++ [cur])).
  assert (∀ s, s ∈ used → s ∈ closed ++ [cur]) as Hused
    by by intros s [_ ?]%list_elem_of_filter.
  clearbody used. split.
  - unfold forward_events. rewrite map_map. f_equal.
    apply map_ext_in. intros s Hs%list_elem_of_In.
    apply read_forward_segment; auto.
  - rewrite <- concat_reverse, <- !map_reverse, !map_map. f_equal.
    apply map_ext_in. intros s Hs%list_elem_of_In.
    rewrite elem_of_reverse in Hs. apply read_reverse_segment; auto.
Qed.

(** Rotation and compression lose nothing.  A store object is started
    on an empty directory; events are appended, no write failing, and
    compression tasks run in between; every rotation reads a later
    second than the one that named the active segment.  Then the events
    [verify_chain] reads from the directory, oldest segment first, are
    the events the appends returned, in the order of the appends. *)
Theorem history_is_what_appends_returned stamp acts :
  String.length stamp = 15%nat →
  clock_ok (fresh_world stamp) acts →
  (∀ c, gzip_decompress (gzip_compress c) = Some c) →
  Forall line_ok (returned (fresh_world stamp) acts) →
  history (disk (run (fresh_world stamp) acts))
  = returned (fresh_world stamp) acts.
Proof.
  intros Hwidth Hclock Hgzip Hok. rewrite returned_link in * by done.
  destruct (inv_run acts _ _ _ _ (inv_fresh stamp Hwidth) Hclock)
    as (closed & cur & Hinv).
  by destruct (history_of_inv _ _ _ _ Hinv Hgzip Hok) as [-> _].
Qed.

(** After such a run, [query] pages through the returned events, last
    append first: it answers the matching ones from position [offset]
    on, at most [limit] of them. *)
Theorem query_pages_through_returned_events stamp acts q :
  String.length stamp = 15%nat →
  clock_ok (fresh_world stamp) acts →
  (∀ c, gzip_decompress (gzip_compress c) = Some c) →
  Forall line_ok (returned (fresh_world stamp) acts) →
  0 ≤ EventQuery.offset q →
  query (disk (run (fresh_world stamp) acts)) q
  = take (Z.to_nat (EventQuery.limit q))
      (drop (Z.to_nat (EventQuery.offset q))
         (filter (λ e, _matches_query e q = true)
            (reverse (returned (fresh_world stamp) acts)))).
Proof.
  intros Hwidth Hclock Hgzip Hok Hoff. rewrite returned_link in * by done.
  destruct (inv_run acts _ _ _ _ (inv_fresh stamp Hwidth) Hclock)
    as (closed & cur & Hinv).
  destruct (history_of_inv _ _ _ _ Hinv Hgzip Hok) as [_ Hnewest].
  unfold history_newest_first in Hnewest. unfold query.
  rewrite (query_files_spec _ _ _ _ _ eq_refl), Hnewest.
  cbn [app length]. rewrite Z.sub_0_r. by apply slice_of_prefix.
Qed.

End RunHistory.

(** With a segment size of zero, A, B and C are appended at three
    successive seconds and the first segment is compressed in between:
    the three segments read back as the three returned events. *)
Lemma history_is_what_appends_returned_witness :
  history (L := Scenario.lib0)
    (disk (run (L := Scenario.lib0) (fresh_world Scenario.t0)
             Scenario.later_seconds))
  = returned (L := Scenario.lib0) (fresh_world Scenario.t0)
      Scenario.later_seconds.
Proof.
  apply (history_is_what_appends_returned (L := Scenario.lib0)
           Scenario.t0 Scenario.later_seconds).
  - reflexivity.
  - clock_steps.
  - apply Gzip_round_trip.
  - lines_ok.
Defined.

(** On the same directory a query for two events from offset one
    answers B and A. *)
Lemma query_pages_through_returned_events_witness :
  query (L := Scenario.lib0)
    (disk (run (L := Scenario.lib0) (fresh_world Scenario.t0)
             Scenario.later_seconds))
    (Scenario.all_events 2 1)
  = [Scenario.B'; Scenario.A'].
Proof.
  etrans.
  - apply (query_pages_through_returned_events (L := Scenario.lib0)
             Scenario.t0 Scenario.later_seconds (Scenario.all_events 2 1)).
    + reflexivity.
    + clock_steps.
    + apply Gzip_round_trip.
    + lines_ok.
    + by vm_compute.
  - vm_compute. reflexivity.
Defined.

(** ** The status of a store after a run *)

Section StatusRun.
Context {L : Lib}.

Lemma filter_nonblank_event_lines es :
  Forall line_ok es →
  filter (λ l, Py.strip l ≠ EmptyString) (map event_line es)
  = map event_line es.
Proof.
  induction 1 as [|e es ((_ & Hstrip & Hne) & _) _ IH]; [done|].
  cbn [map]. rewrite filter_cons, IH.
  by rewrite decide_True by (unfold event_line; by rewrite strip_line).
Qed.

(** The counting loop of [get_status] on segments of the store. *)
Lemma count_events_segments (d : Disk) segs : ∀ n,
  (∀ c, gzip_decompress (gzip_compress c) = Some c) →
  (∀ s, s ∈ segs →
        seg_on_disk d s ∧ seg_used s = true ∧ Forall line_ok (seg_events s)) →
  count_events d (map seg_file segs) n
  = Ok (n + Z.of_nat (length (concat (map seg_events segs)))).
Proof.
  induction segs as [|s segs IH]; intros n Hgzip Hsegs.
  - cbn. f_equal. lia.
  - destruct (Hsegs s) as (Hdisk & Hused & Hok); [by left|].
    cbn [map count_events concat]. rewrite is_gz_seg_file.
    unfold seg_on_disk, seg_used in *.
    destruct (seg_events s) as [|e es] eqn:Hes; [done|].
    rewrite Hdisk. cbn [default from_option id]. unfold seg_content.
    rewrite Hes, length_app. destruct (seg_gz s).
    + rewrite Hgzip, split_text_of, length_map by done.
      rewrite IH by (intros; auto; apply Hsegs; by right). f_equal. lia.
    + rewrite readlines_text_of, filter_nonblank_event_lines, length_map
        by done.
      rewrite IH by (intros; auto; apply Hsegs; by right). f_equal. lia.
Qed.

Lemma status_of_inv w closed cur events now_iso :
  store_inv w closed cur events →
  (∀ c, gzip_decompress (gzip_compress c) = Some c) →
  Forall line_ok (link GENESIS_HASH events) →
  ∃ s, get_status (store w) (disk w) now_iso = Ok s ∧
    ChainStatus.total_events s
      = Z.of_nat (length (link GENESIS_HASH events)) ∧
    ChainStatus.first_event_time s
      = Event.timestamp <$> head (link GENESIS_HASH events) ∧
    ChainStatus.last_hash s = tip GENESIS_HASH (link GENESIS_HASH events).
Proof.
  intros Hinv Hgzip Hok. unfold get_status.
  rewrite (sorted_glob_of_inv _ _ _ _ Hinv).
  pose proof (inv_disk _ _ _ _ Hinv) as Hdisk. rewrite Forall_forall in Hdisk.
  pose proof (λ s, inv_segments_ok _ _ _ _ s Hinv Hok) as Hsegs.
  rewrite (inv_tip _ _ _ _ Hinv), <- (inv_chain _ _ _ _ Hinv), <- concat_used.
  set (used := filter (λ s, seg_used s = true) (closed ++ [cur])).
  assert (∀ s, s ∈ used → s ∈ closed ++ [cur] ∧ seg_used s = true) as Hused.
  { intros s [? ?]%list_elem_of_filter. done. }
  clearbody used.
  rewrite count_events_segments; [|done|].
  2:{ intros s [Hs Hu]%Hused. auto. }
  eexists. split; [done|]. cbn. split; [lia|]. split; [|done].
  destruct used as [|s used]; [done|]. cbn [map concat].
  destruct (Hused s) as [Hs Hu]; [by left|].
  rewrite read_forward_segment by auto.
  unfold seg_used in Hu. by destruct (seg_events s).
Qed.

(** After a run of appends without a failed write, on a store started
    on an empty directory and with every rotation at a later second,
    [get_status] returns: its [total_events] is the number of events
    the appends returned, whether their segments are compressed or not,
    its [first_event_time] the timestamp of the first of them, and its
    [last_hash] the hash of the last. *)
Theorem get_status_counts_returned_events stamp acts now_iso :
  String.length stamp = 15%nat →
  clock_ok (fresh_world stamp) acts →
  (∀ c, gzip_decompress (gzip_compress c) = Some c) →
  Forall line_ok (returned (fresh_world stamp) acts) →
  ∃ s,
    get_status (store (run (fresh_world stamp) acts))
      (disk (run (fresh_world stamp) acts)) now_iso = Ok s ∧
    ChainStatus.total_events s
      = Z.of_nat (length (returned (fresh_world stamp) acts)) ∧
    ChainStatus.first_event_time s
      = Event.timestamp <$> head (returned (fresh_world stamp) acts) ∧
    ChainStatus.last_hash s
      = tip GENESIS_HASH (returned (fresh_world stamp) acts).
Proof.
  intros Hwidth Hclock Hgzip Hok. rewrite returned_link in * by done.
  destruct (inv_run acts _ _ _ _ (inv_fresh stamp Hwidth) Hclock)
    as (closed & cur & Hinv).
  by apply (status_of_inv _ _ _ _ now_iso Hinv).
Qed.

End StatusRun.

(** After A, B and C, appended at three successive seconds with the
    first segment compressed in between, the status counts three events
    and gives the timestamp of A as the first. *)
Lemma get_status_counts_returned_events_witness :
  ∃ s,
    get_status (L := Scenario.lib0)
      (store (run (L := Scenario.lib0) (fresh_world Scenario.t0)
                Scenario.later_seconds))
      (disk (run (L := Scenario.lib0) (fresh_world Scenario.t0)
               Scenario.later_seconds))
      "2026-11-04T12:00:00+00:00" = Ok s ∧
    ChainStatus.total_events s = 3 ∧
    ChainStatus.first_event_time s = Some "2025-01-01T00:00:00+00:00" ∧
    ChainStatus.last_hash s = Event.hash Scenario.C'.
Proof.
  destruct (get_status_counts_returned_events (L := Scenario.lib0)
              Scenario.t0 Scenario.later_seconds "2026-11-04T12:00:00+00:00")
    as (s & Hs & Htotal & Hfirst & Hlast).
  - reflexivity.
  - clock_steps.
  - apply Gzip_round_trip.
  - lines_ok.
  - exists s. split; [exact Hs|].
    split; [|split];
      [rewrite Htotal | rewrite Hfirst | rewrite Hlast];
      vm_compute; reflexivity.
Defined.

(** ** A restart on the directory of a run *)

Section Restart.
Context {L : Lib}.

Lemma last_sorted_max l m :
  m ∈ l → (∀ x, x ∈ l → String.le x m) → last (Py.sorted l) = Some m.
Proof.
  intros Hm Hmax.
  destruct (last (Py.sorted l)) as [z|] eqn:Hlast.
  - f_equal. apply last_Some in Hlast as [l' Hl'].
    assert (z ∈ l) as Hz.
    { apply elem_of_sorted. rewrite Hl'. apply elem_of_app. right. by left. }
    apply (anti_symm String.le); [by apply Hmax|].
    pose proof (Sorted_sorted l) as Hs. rewrite Hl' in Hs.
    apply Sorted_StronglySorted in Hs; [|apply _].
    apply elem_of_sorted in Hm. rewrite Hl' in Hm.
    apply elem_of_app in Hm as [Hm|Hm%list_elem_of_singleton].
    + eapply StronglySorted_app_1_elem_of; [done..|by left].
    + by subst.
  - apply last_None in Hlast. apply elem_of_sorted in Hm.
    rewrite Hlast in Hm. by apply elem_of_nil in Hm.
Qed.

Lemma fnmatch_plain_segment stamp :
  Py.fnmatch "events_*.jsonl" (new_file_name stamp) = true.
Proof.
  unfold new_file_name. rewrite events_app.
  do 7 (rewrite fnmatch_literal by done; rewrite Ascii.eqb_refl, andb_true_l).
  by apply fnmatch_star.
Qed.

(** The invariant of a run, with the fact that the active segment holds
    the last event. *)
Lemma inv_run_active acts : ∀ w closed cur events,
  store_inv w closed cur events →
  (events ≠ [] → seg_events cur ≠ []) →
  clock_ok w acts →
  ∃ closed' cur',
    store_inv (run w acts) closed' cur' (events ++ appended acts) ∧
    (events ++ appended acts ≠ [] → seg_events cur' ≠ []).
Proof.
  induction acts as [|a acts IH]; intros w closed cur events Hinv Hact Hclock.
  - exists closed, cur. by rewrite app_nil_r.
  - cbn [clock_ok] in Hclock. destruct Hclock as [Ha Hrest].
    rewrite run_cons. destruct a as [env e|f].
    + destruct Ha as (Hfault & Hlen & Hlater).
      rewrite appended_cons_append.
      replace (events ++ e :: appended acts)
        with ((events ++ [e]) ++ appended acts) by by rewrite <- app_assoc.
      destruct (needs_rotation w) eqn:Hrot.
      * destruct (inv_append_rotate env w closed cur events e) as [e' He'];
          [by auto..|].
        eapply IH; [done| |done]. done.
      * destruct (inv_append_keep env w closed cur events e) as [e' He'];
          [done..|].
        eapply IH; [done| |done]. cbn [seg_events]. intros _.
        by destruct (seg_events cur).
    + subst f. rewrite appended_cons_task.
      destruct (inv_run_task w closed cur events Hinv) as [closed' Hinv'].
      by eapply IH.
Qed.

Lemma newest_plain_of_inv w closed cur events :
  store_inv w closed cur events →
  seg_events cur ≠ [] →
  last (Py.sorted (glob "events_*.jsonl" (disk w))) = Some (seg_plain cur).
Proof.
  intros Hinv Hne.
  pose proof (inv_disk _ _ _ _ Hinv) as Hdisk. rewrite Forall_forall in Hdisk.
  pose proof (seg_file_cur _ _ _ _ Hinv) as Hfile.
  apply last_sorted_max.
  - apply elem_of_glob. split; [apply fnmatch_plain_segment|].
    specialize (Hdisk cur). unfold seg_on_disk in Hdisk.
    rewrite Hfile in Hdisk. rewrite Hdisk.
    + by destruct (seg_events cur).
    + apply elem_of_app. right. by left.
  - intros x [_ Hx]%elem_of_glob.
    destruct (inv_names _ _ _ _ Hinv x Hx)
      as (s & [Hs|Hs%list_elem_of_singleton]%elem_of_app & ->).
    + rewrite <- Hfile. apply str_lt_le, seg_file_lt.
      by eapply inv_closed_before_cur.
    + subst s. by rewrite Hfile.
Qed.

Lemma initialize_of_inv w closed cur events st stamp :
  store_inv w closed cur events →
  seg_events cur ≠ [] →
  Forall line_ok (link GENESIS_HASH events) →
  (∀ e, last (link GENESIS_HASH events) = Some e →
        json_loads (json_dumps false (model_dump e)) = Some (model_dump e)) →
  initialize st (disk w) stamp
  = Ok (Store.mk (Store.current_file (store w)) (Store.last_hash (store w))
          (Z.of_nat (length (seg_events cur)))).
Proof.
  intros Hinv Hne Hok Hloads.
  pose proof (inv_segments_ok _ _ _ _ cur Hinv Hok) as Hcur.
  unfold initialize. rewrite (newest_plain_of_inv _ _ _ _ Hinv Hne).
  rewrite (inv_cur_text _ _ _ _ Hinv), (inv_current _ _ _ _ Hinv),
    (inv_tip _ _ _ _ Hinv), <- (inv_chain _ _ _ _ Hinv) in *.
  rewrite map_app, concat_app in *. cbn [map concat] in *.
  rewrite app_nil_r in *.
  destruct (seg_events cur) as [|x es'] eqn:Hes using rev_ind; [done|].
  clear IHes'. rewrite app_assoc in *.
  rewrite readlines_text_of, map_app, length_app, length_map
    by (apply Hcur, elem_of_app; right; by left).
  cbn [map length]. rewrite reverse_snoc. cbn [initialize_scan].
  rewrite tip_snoc, length_app. cbn [length].
  assert (line_ok x) as ((Hnl & Hstrip & Hnb) & _).
  { assert (Forall line_ok (es' ++ [x])) as Hall
      by (apply Hcur, elem_of_app; right; by left).
    rewrite Forall_forall in Hall. apply Hall, elem_of_app. right. by left. }
  assert (Py.strip (event_line x) = json_dumps false (model_dump x)) as ->
    by (unfold event_line; by apply strip_line).
  rewrite decide_False by done.
  rewrite Hloads by apply last_snoc.
  unfold model_dump. by rewrite dict_get_hash_of_dump.
Qed.

(** A new store object is started on the directory a run has left, a run
    of at least one append, without a failed write and with every
    rotation at a later second.  [initialize] takes up the active
    segment and the [last_hash] of the store that ran; its [event_count]
    is the number of records of the active segment alone, which the
    count of the store that ran may exceed. *)
Theorem initialize_recovers_tip_and_counts_one_segment stamp acts stamp' :
  String.length stamp = 15%nat →
  clock_ok (fresh_world stamp) acts →
  Forall line_ok (returned (fresh_world stamp) acts) →
  (∀ e, last (returned (fresh_world stamp) acts) = Some e →
        json_loads (json_dumps false (model_dump e)) = Some (model_dump e)) →
  returned (fresh_world stamp) acts ≠ [] →
  ∃ f st,
    Store.current_file (store (run (fresh_world stamp) acts)) = Some f ∧
    initialize init_store (disk (run (fresh_world stamp) acts)) stamp' = Ok st ∧
    Store.current_file st = Some f ∧
    Store.last_hash st = Store.last_hash (store (run (fresh_world stamp) acts)) ∧
    Store.event_count st
      = Z.of_nat (length (_read_file_forward
                            (disk (run (fresh_world stamp) acts)) f)) ∧
    Store.event_count st
      ≤ Store.event_count (store (run (fresh_world stamp) acts)).
Proof.
  intros Hwidth Hclock Hok Hloads Hsome.
  destruct (run_chain_state acts (fresh_world stamp)) as (_ & _ & Hcount).
  rewrite returned_link in * by done.
  change (Store.last_hash (store (fresh_world stamp))) with GENESIS_HASH in *.
  destruct (inv_run_active acts _ _ _ _ (inv_fresh stamp Hwidth)
              (λ H, False_ind _ (H eq_refl)) Hclock)
    as (closed & cur & Hinv & Hact).
  cbn [app] in *.
  assert (seg_events cur ≠ []) as Hne.
  { apply Hact. intros Hnil. by rewrite Hnil in Hsome. }
  exists (seg_plain cur). eexists.
  split; [apply (inv_current _ _ _ _ Hinv)|].
  split; [by apply (initialize_of_inv _ _ _ _ _ _ Hinv)|].
  cbn [Store.current_file Store.last_hash Store.event_count].
  split; [apply (inv_current _ _ _ _ Hinv)|]. split; [done|].
  pose proof (inv_segments_ok _ _ _ _ cur Hinv Hok) as Hcur.
  pose proof (inv_disk _ _ _ _ Hinv) as Hdisk. rewrite Forall_forall in Hdisk.
  assert (cur ∈ closed ++ [cur]) as Hin by (apply elem_of_app; right; by left).
  split.
  - unfold _read_file_forward. rewrite <- (seg_file_cur _ _ _ _ Hinv).
    specialize (Hdisk cur Hin). unfold seg_on_disk in Hdisk. rewrite Hdisk.
    rewrite is_gz_seg_file, (inv_cur_plain _ _ _ _ Hinv).
    unfold seg_content. rewrite (inv_cur_plain _ _ _ _ Hinv).
    destruct (seg_events cur) as [|x es] eqn:Hes; [done|].
    by rewrite read_text_plain by auto.
  - rewrite Hcount. cbn [fresh_world store _create_new_file init_store
      Store.event_count]. rewrite <- (inv_chain _ _ _ _ Hinv).
    rewrite map_app, concat_app, length_app. cbn [map concat].
    rewrite app_nil_r. lia.
Qed.

(** *** Continuing after the restart *)

Lemma link_app p es1 es2 :
  link p (es1 ++ es2) = link p es1 ++ link (tip p (link p es1)) es2.
Proof.
  revert p. induction es1 as [|x es1 IH]; intros p; [done|].
  cbn [app link]. by rewrite IH, tip_cons.
Qed.

Lemma inv_restarted w closed cur events n :
  store_inv w closed cur events →
  store_inv
    (mkWorld (Store.mk (Store.current_file (store w))
                (Store.last_hash (store w)) n) (disk w) [])
    closed cur events.
Proof.
  intros [Hcur Hplain Hwidth Hclosed Hchain Htip Hdisk Hnames Horder Htasks].
  split; try done. split; [constructor|]. by intros p Hp%elem_of_nil.
Qed.

(** The chain goes on over a restart.  After a run as above, a new
    store object is started on the directory and a second run of
    appends follows, again without a failed write, every rotation at a
    later second.  Then the directory holds the returned events of the
    first run followed by those of the second, and [verify_chain]
    answers valid. *)
Theorem chain_continues_after_restart stamp acts1 stamp' acts2 :
  String.length stamp = 15%nat →
  clock_ok (fresh_world stamp) acts1 →
  (∀ c, gzip_decompress (gzip_compress c) = Some c) →
  Forall line_ok (returned (fresh_world stamp) acts1) →
  (∀ e, last (returned (fresh_world stamp) acts1) = Some e →
        json_loads (json_dumps false (model_dump e)) = Some (model_dump e)) →
  returned (fresh_world stamp) acts1 ≠ [] →
  ∃ w2,
    restart (run (fresh_world stamp) acts1) stamp' = Ok w2 ∧
    (clock_ok w2 acts2 →
     Forall line_ok (returned w2 acts2) →
     history (disk (run w2 acts2))
       = returned (fresh_world stamp) acts1 ++ returned w2 acts2 ∧
     verify_chain (disk (run w2 acts2)) = (true, None)).
Proof.
  intros Hwidth Hclock Hgzip Hok Hloads Hsome.
  rewrite returned_link in * by done.
  change (Store.last_hash (store (fresh_world stamp))) with GENESIS_HASH in *.
  destruct (inv_run_active acts1 _ _ _ _ (inv_fresh stamp Hwidth)
              (λ H, False_ind _ (H eq_refl)) Hclock)
    as (closed & cur & Hinv & Hact).
  cbn [app] in *.
  assert (seg_events cur ≠ []) as Hne.
  { apply Hact. intros Hnil. by rewrite Hnil in Hsome. }
  unfold restart.
  rewrite (initialize_of_inv _ _ _ _ _ stamp' Hinv) by done.
  pose proof (inv_tip _ _ _ _ Hinv) as Htip.
  apply (inv_restarted _ _ _ _ (Z.of_nat (length (seg_events cur)))) in Hinv.
  match type of Hinv with store_inv ?w _ _ _ => set (w2 := w) in * end.
  change (Store.last_hash (store w2)
          = tip GENESIS_HASH (link GENESIS_HASH (appended acts1))) in Htip.
  exists w2. split; [done|]. clearbody w2. intros Hclock2 Hok2.
  rewrite returned_link in * by done. rewrite Htip in *.
  rewrite <- link_app in *.
  assert (Forall line_ok (link GENESIS_HASH (appended acts1 ++ appended acts2)))
    as Hall.
  { rewrite link_app. by apply Forall_app. }
  destruct (inv_run acts2 _ _ _ _ Hinv Hclock2) as (closed' & cur' & Hinv').
  split.
  - by destruct (history_of_inv _ _ _ _ Hinv' Hgzip Hall) as [-> _].
  - by eapply verify_chain_of_inv.
Qed.

End Restart.

(** After A, B and C, each in a segment of its own, a new store object
    takes up the third segment and the hash of C, and counts one
    event where the store that ran counted three. *)
Lemma initialize_recovers_tip_and_counts_one_segment_witness :
  ∃ st,
    initialize (L := Scenario.lib0) init_store
      (disk (run (L := Scenario.lib0) (fresh_world Scenario.t0)
               Scenario.later_seconds)) Scenario.t_next_day = Ok st ∧
    Store.current_file st = Some "events_20250101_000002.jsonl" ∧
    Store.last_hash st = Event.hash Scenario.C' ∧
    Store.event_count st = 1 ∧
    Store.event_count
      (store (run (L := Scenario.lib0) (fresh_world Scenario.t0)
                Scenario.later_seconds)) = 3.
Proof.
  destruct (initialize_recovers_tip_and_counts_one_segment
              (L := Scenario.lib0) Scenario.t0 Scenario.later_seconds
              Scenario.t_next_day)
    as (f & st & Hf & Hst & Hcur & Hhash & Hcount & _).
  - reflexivity.
  - clock_steps.
  - lines_ok.
  - evaluate (returned (L := Scenario.lib0) (fresh_world Scenario.t0)
                Scenario.later_seconds).
    intros e [= <-]. vm_compute. reflexivity.
  - evaluate (returned (L := Scenario.lib0) (fresh_world Scenario.t0)
                Scenario.later_seconds).
    discriminate.
  - exists st. split; [exact Hst|].
    assert (Some f = Some "events_20250101_000002.jsonl") as [= ->]
      by (rewrite <- Hf; vm_compute; reflexivity).
    split; [exact Hcur|]. split; [|split].
    + rewrite Hhash. vm_compute. reflexivity.
    + rewrite Hcount. vm_compute. reflexivity.
    + vm_compute. reflexivity.
Defined.

(** After the same run the store is started anew and D is appended on
    the next day: the chain of the four events verifies. *)
Lemma chain_continues_after_restart_witness :
  ∃ w2,
    restart (L := Scenario.lib0)
      (run (L := Scenario.lib0) (fresh_world Scenario.t0)
         Scenario.later_seconds) Scenario.t_next_day = Ok w2 ∧
    verify_chain (L := Scenario.lib0)
      (disk (run (L := Scenario.lib0) w2
               [Append (Scenario.at_ Scenario.t_next_day) Scenario.D]))
    = (true, None).
Proof.
  destruct (chain_continues_after_restart (L := Scenario.lib0)
              Scenario.t0 Scenario.later_seconds Scenario.t_next_day
              [Append (Scenario.at_ Scenario.t_next_day) Scenario.D])
    as (w2 & Hw2 & Hgoes).
  - reflexivity.
  - clock_steps.
  - apply Gzip_round_trip.
  - lines_ok.
  - evaluate (returned (L := Scenario.lib0) (fresh_world Scenario.t0)
                Scenario.later_seconds).
    intros e [= <-]. vm_compute. reflexivity.
  - evaluate (returned (L := Scenario.lib0) (fresh_world Scenario.t0)
                Scenario.later_seconds).
    discriminate.
  - exists w2. split; [exact Hw2|].
    match type of Hw2 with
    | ?r = _ =>
        let v := eval vm_compute in r in
        assert (r = v) as Hr by (vm_compute; reflexivity)
    end.
    rewrite Hr in Hw2. injection Hw2 as <-.
    apply Hgoes; [clock_steps|lines_ok].
Defined.

(** ** What [verify_chain] accepts *)

Section VerifySpec.
Context {L : Lib}.

Lemma verify_events_tip p es p' :
  verify_events p es = inl p' → p' = tip p es.
Proof.
  revert p. induction es as [|e es IH]; intros p; cbn [verify_events].
  - by intros [= <-].
  - repeat case_decide; try done. rewrite tip_cons. apply IH.
Qed.

Lemma verify_events_chained p es :
  verify_events p es = inl (tip p es) ↔ chained p es.
Proof.
  revert p. induction es as [|e es IH]; intros p; cbn [verify_events chained].
  - done.
  - rewrite tip_cons, <- IH.
    repeat case_decide; split; try done; tauto.
Qed.

Lemma verify_events_first_failure p es1 e es2 :
  chained p es1 →
  verify_events p (es1 ++ e :: es2)
  = if decide (Event.previous_hash e ≠ tip p es1)
    then inr (chain_broken_msg e (tip p es1))
    else if decide (Event.hash e ≠ compute_hash e)
         then inr (hash_mismatch_msg e (compute_hash e))
         else verify_events (Event.hash e) es2.
Proof.
  intros Hch%verify_events_chained. by rewrite verify_events_app, Hch.
Qed.

Lemma verify_chain_history d :
  verify_chain d = verdict (verify_events GENESIS_HASH (history d)).
Proof. unfold verify_chain, history. apply verify_files_events. Qed.

(** [verify_chain] answers valid exactly when the events it can read
    from the directory, oldest segment first, satisfy the chain
    conditions from the genesis hash on; and when it answers invalid it
    gives a description. *)
Theorem verify_chain_valid_iff_chained d :
  (verify_chain d = (true, None) ↔ chained GENESIS_HASH (history d)) ∧
  (verify_chain d ≠ (true, None) → ∃ msg, verify_chain d = (false, Some msg)).
Proof.
  rewrite verify_chain_history, <- verify_events_chained. split.
  - destruct (verify_events GENESIS_HASH (history d)) as [p|msg] eqn:Hv.
    + apply verify_events_tip in Hv as ->. done.
    + done.
  - destruct (verify_events GENESIS_HASH (history d)); [done|].
    intros _. by eexists.
Qed.

(** [verify_chain] fails at the first event that breaks the chain: when
    the events before [e] are chained, a [previous_hash] of [e] that is
    not the hash before it is reported as a broken chain at [e], and
    otherwise a [hash] of [e] that is not the hash of its fields as a
    hash mismatch at [e]; what follows [e] is not looked at. *)
Theorem verify_chain_reports_first_failure d es1 e es2 :
  history d = es1 ++ e :: es2 →
  chained GENESIS_HASH es1 →
  (Event.previous_hash e ≠ tip GENESIS_HASH es1 →
   verify_chain d
   = (false, Some (chain_broken_msg e (tip GENESIS_HASH es1)))) ∧
  (Event.previous_hash e = tip GENESIS_HASH es1 →
   Event.hash e ≠ compute_hash e →
   verify_chain d = (false, Some (hash_mismatch_msg e (compute_hash e)))).
Proof.
  intros Hd Hch. rewrite verify_chain_history, Hd.
  rewrite verify_events_first_failure by done. split.
  - intros Hprev. by rewrite decide_True.
  - intros Hprev Hhash. rewrite decide_False by (by intros []).
    by rewrite decide_True.
Qed.

(** POST /verify returns the status valid exactly for the directories
    whose readable events are chained from the genesis hash; for every
    other directory it raises an [HTTPException] with status 500 whose
    detail carries the description [verify_chain] gives. *)
Theorem verify_endpoint_answers_for_the_chain d :
  (chained GENESIS_HASH (history d) →
   App.verify_chain d
   = Returned (JDict [("status", JStr "valid");
                      ("message", JStr "Chain integrity verified")])) ∧
  (¬ chained GENESIS_HASH (history d) →
   ∃ msg, verify_chain d = (false, Some msg) ∧
     App.verify_chain d
     = HTTPException 500
         (JDict [("status", JStr "invalid"); ("error", JStr msg)])).
Proof.
  unfold App.verify_chain. rewrite verify_chain_history.
  rewrite <- verify_events_chained.
  destruct (verify_events GENESIS_HASH (history d)) as [p|msg] eqn:Hv.
  - apply verify_events_tip in Hv as ->. split; [done|]. by intros [].
  - split; [done|]. intros _. by exists msg.
Qed.

(** *** Verification after a clean-up *)

Lemma cleanup_lookup cutoff (d : Disk) f :
  (cleanup_old_events cutoff d).1 !! f
  = if Py.fnmatch "events_*.jsonl*" f && expired cutoff f
    then None else d !! f.
Proof.
  unfold cleanup_old_events.
  destruct (cleanup_files_spec cutoff d
              (Py.sorted (glob "events_*.jsonl*" d))) as [_ Hlook].
  { intros g [Hm _]%elem_of_sorted%elem_of_glob.
    by apply (date_part_is_Some "*.jsonl*"). }
  rewrite Hlook. case_decide as Hd.
  - destruct Hd as [[-> _]%elem_of_sorted%elem_of_glob ->]. done.
  - destruct (Py.fnmatch "events_*.jsonl*" f) eqn:Hm; [|done].
    destruct (expired cutoff f) eqn:He; [|done]. cbn.
    destruct (d !! f) eqn:Hf; [|done].
    exfalso. apply Hd. split; [|done].
    apply elem_of_sorted, elem_of_glob. split; [done|by eexists].
Qed.

Lemma cleanup_returns cutoff (d : Disk) :
  (cleanup_old_events cutoff d).2 = Ok ().
Proof.
  unfold cleanup_old_events.
  apply (cleanup_files_spec cutoff d (Py.sorted (glob "events_*.jsonl*" d))).
  intros g [Hm _]%elem_of_sorted%elem_of_glob.
  by apply (date_part_is_Some "*.jsonl*").
Qed.

(** The listing after a clean-up is the listing before it without the
    expired names. *)
Lemma sorted_glob_cleanup cutoff (d : Disk) :
  Py.sorted (glob "events_*.jsonl*" (cleanup_old_events cutoff d).1)
  = filter (λ g, expired cutoff g = false)
      (Py.sorted (glob "events_*.jsonl*" d)).
Proof.
  pose proof (NoDup_sorted _ (NoDup_glob "events_*.jsonl*" d)) as Hnd.
  apply sorted_of_Sorted.
  - apply Sorted.StronglySorted_Sorted, StronglySorted_filter.
    apply Sorted_StronglySorted; [apply _|]. apply Sorted_sorted.
  - apply NoDup_Permutation; [apply NoDup_glob|by apply NoDup_filter|].
    intros g. rewrite elem_of_glob, list_elem_of_filter, elem_of_sorted,
      elem_of_glob, cleanup_lookup.
    destruct (Py.fnmatch "events_*.jsonl*" g); cbn;
      destruct (expired cutoff g); cbn;
      split; try tauto; try (intros [? ?]; done); by intros [_ [? [=]]].
Qed.

Lemma history_cleanup cutoff (d : Disk) :
  history (cleanup_old_events cutoff d).1
  = forward_events d
      (filter (λ g, expired cutoff g = false)
         (Py.sorted (glob "events_*.jsonl*" d))).
Proof.
  unfold history. rewrite sorted_glob_cleanup.
  apply forward_events_ext. intros g [Hg _]%list_elem_of_filter.
  apply read_forward_same. rewrite cleanup_lookup, Hg. by rewrite andb_false_r.
Qed.

Lemma forward_events_kept (P : string → Prop) `{∀ g, Decision (P g)}
    (d : Disk) files e rest :
  forward_events d (filter P files) = e :: rest →
  ∃ pre post, forward_events d files = pre ++ e :: post.
Proof.
  unfold forward_events. induction files as [|g files IH]; [done|].
  rewrite filter_cons. cbn [map concat]. case_decide.
  - cbn [map concat].
    destruct (_read_file_forward d g) as [|x xs].
    + cbn [app]. apply IH.
    + intros [= -> <-]. by exists [], (xs ++ concat (map (_read_file_forward d) files)).
  - intros (pre & post & ->)%IH.
    exists (_read_file_forward d g ++ pre), post. by rewrite app_assoc.
Qed.

(** Retention breaks verification.  The history verifies, and no event
    carries the genesis hash as its own hash.  A clean-up deletes the
    oldest segment, which held events, and leaves events to read.  Then
    [verify_chain] answers invalid: the first event left does not link
    to the genesis hash. *)
Theorem verify_chain_fails_after_cleanup_of_oldest_segment
    cutoff (d : Disk) f fs e rest :
  Py.sorted (glob "events_*.jsonl*" d) = f :: fs →
  expired cutoff f = true →
  _read_file_forward d f ≠ [] →
  verify_chain d = (true, None) →
  Forall (λ x, Event.hash x ≠ GENESIS_HASH) (history d) →
  history (cleanup_old_events cutoff d).1 = e :: rest →
  verify_chain (cleanup_old_events cutoff d).1
  = (false, Some (chain_broken_msg e GENESIS_HASH)).
Proof.
  intros Hfiles Hexp Hold Hvalid Hhashes Hleft.
  rewrite verify_chain_history in *. rewrite Hleft.
  rewrite history_cleanup, Hfiles, filter_cons in Hleft.
  rewrite decide_False in Hleft by (by rewrite Hexp).
  apply forward_events_kept in Hleft as (pre & post & Hfs).
  unfold history in Hvalid, Hhashes. rewrite Hfiles in Hvalid, Hhashes.
  unfold forward_events in Hvalid, Hhashes. cbn [map concat] in Hvalid, Hhashes.
  fold (forward_events d fs) in Hvalid, Hhashes.
  rewrite Hfs, app_assoc in Hvalid, Hhashes.
  apply verify_events_valid_app in Hvalid as (p & Hp & Hprev & _).
  apply verify_events_tip in Hp. subst p.
  cbn [verify_events]. rewrite decide_True; [done|].
  rewrite Hprev.
  destruct (_read_file_forward d f ++ pre) as [|x xs] eqn:Hes using rev_ind.
  { apply app_eq_nil in Hes as [? _]. done. }
  rewrite tip_snoc. rewrite Forall_forall in Hhashes.
  apply Hhashes. apply elem_of_app. left. apply elem_of_app. right. by left.
Qed.

End VerifySpec.

(** The history of A, B and C with the action of B rewritten: the
    event before B is chained, B links to it, and the hash of B is not
    the hash of its fields. *)
Lemma verify_chain_reports_first_failure_witness :
  verify_chain (L := Scenario.lib100) Scenario.abc_action
  = (false,
     Some (hash_mismatch_msg Scenario.B_action
             (compute_hash (L := Scenario.lib100) Scenario.B_action))).
Proof.
  apply (proj2 (verify_chain_reports_first_failure (L := Scenario.lib100)
                  Scenario.abc_action [Scenario.A'] Scenario.B_action
                  [Scenario.C'] ltac:(vm_compute; reflexivity)
                  ltac:(vm_compute; repeat split))).
  - vm_compute. reflexivity.
  - differ.
Defined.

(** A was appended in 2024 and B in 2025, each to a segment of its
    own; a clean-up in between deletes the segment of A, and the
    verification of what is left fails at B. *)
Lemma verify_chain_fails_after_cleanup_of_oldest_segment_witness :
  verify_chain (L := Scenario.lib0)
    (cleanup_old_events "20240601"
       (disk (run (L := Scenario.lib0) (fresh_world Scenario.t_old)
                Scenario.two_days))).1
  = (false, Some (chain_broken_msg Scenario.B' GENESIS_HASH)).
Proof.
  apply (verify_chain_fails_after_cleanup_of_oldest_segment
           (L := Scenario.lib0) "20240601"
           (disk (run (L := Scenario.lib0) (fresh_world Scenario.t_old)
                    Scenario.two_days))
           "events_20240101_000000.jsonl" ["events_20250101_000000.jsonl"]
           Scenario.B' []).
  - vm_compute. reflexivity.
  - vm_compute. reflexivity.
  - differ.
  - vm_compute. reflexivity.
  - evaluate (history (L := Scenario.lib0)
                (disk (run (L := Scenario.lib0) (fresh_world Scenario.t_old)
                         Scenario.two_days))).
    repeat apply Forall_cons_2; [..|apply Forall_nil_2]; differ.
  - vm_compute. reflexivity.
Defined.

(** The events of A, B and C are chained, so their history verifies. *)
Lemma verify_chain_valid_iff_chained_witness :
  verify_chain (L := Scenario.lib100) (disk Scenario.abc) = (true, None).
Proof.
  apply (proj1 (verify_chain_valid_iff_chained (L := Scenario.lib100)
                  (disk Scenario.abc))).
  vm_compute. repeat split.
Defined.

(** With the action of B rewritten the events are not chained, and the
    endpoint raises with status 500. *)
Lemma verify_endpoint_answers_for_the_chain_witness :
  ∃ msg,
    App.verify_chain (L := Scenario.lib100) Scenario.abc_action
    = HTTPException 500
        (JDict [("status", JStr "invalid"); ("error", JStr msg)]).
Proof.
  destruct (proj2 (verify_endpoint_answers_for_the_chain
                     (L := Scenario.lib100) Scenario.abc_action))
    as (msg & _ & Hraises).
  - evaluate (history (L := Scenario.lib100) Scenario.abc_action).
    intros (_ & _ & _ & Hhash & _). revert Hhash. differ.
  - exists msg. exact Hraises.
Defined.

(** ** Retention by the date in the name *)

Section RetentionDates.

Lemma expired_mono c1 c2 f :
  String.le c1 c2 → expired c1 f = true → expired c2 f = true.
Proof.
  unfold expired. destruct (date_part f) as [date|]; [|done].
  intros Hle [Hd Hne]%str_lt_iff. apply str_lt_iff. split.
  - by trans c1.
  - intros ->. apply Hne. by apply (anti_symm String.le).
Qed.

(** Clean-ups compose: after a clean-up with the cutoff [c1], a
    clean-up with a cutoff [c2] that is not before [c1] leaves what it
    would have left of the directory at the start.  With [c2 = c1]: a
    second clean-up with the same cutoff changes nothing. *)
Theorem cleanup_old_events_composes (c1 c2 : string) (d : Disk) :
  String.le c1 c2 →
  (cleanup_old_events c2 (cleanup_old_events c1 d).1).1
    = (cleanup_old_events c2 d).1 ∧
  (cleanup_old_events c1 (cleanup_old_events c1 d).1).1
    = (cleanup_old_events c1 d).1.
Proof.
  intros Hle.
  assert (∀ a b, String.le a b →
            (cleanup_old_events b (cleanup_old_events a d).1).1
            = (cleanup_old_events b d).1) as Hcomp.
  { intros a b Hab. apply map_eq. intros f.
    rewrite !cleanup_lookup.
    destruct (Py.fnmatch "events_*.jsonl*" f); [|done]. cbn.
    destruct (expired b f) eqn:Hb; [done|].
    destruct (expired a f) eqn:Ha; [|done].
    by rewrite (expired_mono a b f Hab Ha) in Hb. }
  split; [by apply Hcomp|]. by apply Hcomp.
Qed.

(** *** The date of a segment the store has named *)

Lemma contains_char_cons sep c s :
  Py.contains (String sep EmptyString) (String c s) = false
  ↔ c ≠ sep ∧ Py.contains (String sep EmptyString) s = false.
Proof.
  cbn [Py.contains String.prefix].
  destruct (ascii_dec sep c) as [<-|Hne].
  - split; [by destruct s | by intros [? _]].
  - cbn [orb]. split; [intros H; split; [congruence|done] | by intros [_ ?]].
Qed.

Lemma split_first sep l rest :
  Py.contains (String sep EmptyString) l = false →
  Py.split sep (l +:+ String sep rest) = l :: Py.split sep rest.
Proof.
  induction l as [|c l IH]; intros Hl.
  - rewrite str_app_nil_l. cbn [Py.split]. by rewrite Ascii.eqb_refl.
  - apply contains_char_cons in Hl as [Hc Hl].
    rewrite str_app_cons. cbn [Py.split].
    destruct (Ascii.eqb_spec c sep) as [?|_]; [done|]. by rewrite IH.
Qed.

Lemma stem_new_file_name stamp :
  Py.stem (new_file_name stamp) = "events_" +:+ stamp.
Proof.
  rewrite new_file_name_split.
  by apply suffix_ext; [apply events_prefix_ne|..].
Qed.

Lemma stem_compressed_name stamp :
  Py.stem (new_file_name stamp +:+ ".gz") = new_file_name stamp.
Proof.
  change (new_file_name stamp +:+ ".gz")
    with (new_file_name stamp +:+ String "."%char "gz").
  by apply suffix_ext; [apply new_file_name_ne|..].
Qed.

Lemma date_part_of_split date rest :
  Py.contains "_" date = false →
  Py.take_str 8 <$> Py.index (Py.split "_"%char
                                ("events_" +:+ date +:+ String "_"%char rest)) 1
  = Some (Py.take_str 8 date).
Proof.
  intros Hdate.
  change ("events_" +:+ date +:+ String "_"%char rest)
    with ("events" +:+ String "_"%char (date +:+ String "_"%char rest)).
  rewrite split_first by done. by rewrite split_first.
Qed.

Lemma date_part_of_segment date time :
  Py.contains "_" date = false →
  date_part (new_file_name (date +:+ "_" +:+ time))
    = Some (Py.take_str 8 date) ∧
  date_part (new_file_name (date +:+ "_" +:+ time) +:+ ".gz")
    = Some (Py.take_str 8 date).
Proof.
  intros Hdate. unfold date_part.
  rewrite stem_new_file_name, stem_compressed_name. unfold new_file_name.
  rewrite !str_app_assoc.
  change ("_" +:+ time +:+ ".jsonl") with (String "_"%char (time +:+ ".jsonl")).
  change ("_" +:+ time) with (String "_"%char time).
  split; by apply date_part_of_split.
Qed.

(** A segment the store has named at the clock reading [date_time],
    and its compressed file, are deleted by a clean-up exactly when the
    first eight characters of [date] are before the cutoff. *)
Theorem cleanup_goes_by_the_date_of_creation cutoff (d : Disk) date time :
  Py.contains "_" date = false →
  (cleanup_old_events cutoff d).1 !! new_file_name (date +:+ "_" +:+ time)
    = (if Py.str_lt (Py.take_str 8 date) cutoff then None
       else d !! new_file_name (date +:+ "_" +:+ time)) ∧
  (cleanup_old_events cutoff d).1
    !! (new_file_name (date +:+ "_" +:+ time) +:+ ".gz")
    = (if Py.str_lt (Py.take_str 8 date) cutoff then None
       else d !! (new_file_name (date +:+ "_" +:+ time) +:+ ".gz")).
Proof.
  intros Hdate. destruct (date_part_of_segment date time Hdate) as [Hp Hz].
  rewrite !cleanup_lookup. unfold expired. rewrite Hp, Hz.
  rewrite fnmatch_segment.
  rewrite <- (str_app_nil_r (new_file_name _)) at 1. by rewrite fnmatch_segment.
Qed.

End RetentionDates.

(** On the directory with a segment of 2024 and one of 2025, a
    clean-up with a cutoff in June 2025 after one with a cutoff in June
    2024 leaves what the later cutoff alone leaves: nothing. *)
Lemma cleanup_old_events_composes_witness :
  (cleanup_old_events "20250601"
     (cleanup_old_events "20240601"
        (disk (run (L := Scenario.lib0) (fresh_world Scenario.t_old)
                 Scenario.two_days))).1).1
  = (cleanup_old_events "20250601"
       (disk (run (L := Scenario.lib0) (fresh_world Scenario.t_old)
                Scenario.two_days))).1 ∧
  (cleanup_old_events "20250601"
     (disk (run (L := Scenario.lib0) (fresh_world Scenario.t_old)
              Scenario.two_days))).1 = ∅.
Proof.
  split.
  - apply (cleanup_old_events_composes "20240601" "20250601"). by vm_compute.
  - vm_compute. reflexivity.
Defined.

(** The segment named at the first second of 2024 is deleted by a
    clean-up with a cutoff in June 2024, and so would be its compressed
    file. *)
Lemma cleanup_goes_by_the_date_of_creation_witness :
  (cleanup_old_events "20240601"
     (disk (run (L := Scenario.lib0) (fresh_world Scenario.t_old)
              Scenario.two_days))).1 !! "events_20240101_000000.jsonl" = None ∧
  (cleanup_old_events "20240601"
     (disk (run (L := Scenario.lib0) (fresh_world Scenario.t_old)
              Scenario.two_days))).1 !! "events_20240101_000000.jsonl.gz" = None.
Proof.
  apply (cleanup_goes_by_the_date_of_creation "20240601"
           (disk (run (L := Scenario.lib0) (fresh_world Scenario.t_old)
                    Scenario.two_days)) "20240101" "000000").
  reflexivity.
Defined.

(** ** What a query returns *)

Section QueryResult.
Context {L : Lib}.

Lemma rejects_false q test :
  rejects q test = false →
  ∀ s, q = Some s → s ≠ EmptyString → test s = false.
Proof.
  intros Hr s -> Hs. unfold rejects in Hr.
  rewrite bool_decide_eq_false_2 in Hr by done. done.
Qed.

Lemma matches_query_filters e q :
  _matches_query e q = true →
  (∀ c, EventQuery.category q = Some c → Event.category e = c) ∧
  (∀ a, EventQuery.action q = Some a → a ≠ EmptyString →
        Py.contains a (Event.action e) = true) ∧
  (∀ a, EventQuery.actor q = Some a → a ≠ EmptyString → Event.actor e = a) ∧
  (∀ t, EventQuery.target q = Some t → t ≠ EmptyString →
        Event.target e = Some t) ∧
  (∀ t, EventQuery.start_time q = Some t → t ≠ EmptyString →
        Py.str_lt (Event.timestamp e) t = false) ∧
  (∀ t, EventQuery.end_time q = Some t → t ≠ EmptyString →
        Py.str_lt t (Event.timestamp e) = false).
Proof.
  unfold _matches_query. intros H.
  destruct (match EventQuery.category q with
            | Some c => negb (bool_decide (Event.category e = c))
            | None => false
            end) eqn:Hcat; [done|].
  destruct (rejects (EventQuery.action q) _) eqn:Hact; [done|].
  destruct (rejects (EventQuery.actor q) _) eqn:Hactor; [done|].
  destruct (rejects (EventQuery.target q) _) eqn:Htarget; [done|].
  destruct (rejects (EventQuery.start_time q) _) eqn:Hstart; [done|].
  destruct (rejects (EventQuery.end_time q) _) eqn:Hend; [done|].
  repeat split.
  - intros c Hc. rewrite Hc in Hcat.
    by apply negb_false_iff, bool_decide_eq_true in Hcat.
  - intros a Ha Hne. by apply negb_false_iff, (rejects_false _ _ Hact a).
  - intros a Ha Hne. pose proof (rejects_false _ _ Hactor a Ha Hne) as Hr.
    apply negb_false_iff in Hr. by apply bool_decide_eq_true in Hr.
  - intros t Ht Hne. pose proof (rejects_false _ _ Htarget t Ht Hne) as Hr.
    apply negb_false_iff in Hr. by apply bool_decide_eq_true in Hr.
  - intros t Ht Hne. by apply (rejects_false _ _ Hstart t).
  - intros t Ht Hne. by apply (rejects_false _ _ Hend t).
Qed.

Lemma Forall_slice {A} (P : A → Prop) l a b :
  Forall P l → Forall P (Py.slice l a b).
Proof. intros H. unfold Py.slice. by apply Forall_take, Forall_drop. Qed.

Lemma query_collects d q :
  query d q
  = Py.slice
      (take (Z.to_nat (EventQuery.limit q + EventQuery.offset q))
         (filter (λ e, _matches_query e q = true) (history_newest_first d)))
      (EventQuery.offset q) (EventQuery.offset q + EventQuery.limit q).
Proof.
  unfold query, history_newest_first.
  rewrite (query_files_spec _ _ _ _ _ eq_refl). cbn [app length].
  by rewrite Z.sub_0_r.
Qed.

(** Whatever the limit and the offset, every event [query] returns is
    one that [_read_file] reads from a segment of the directory, and it
    passes every filter of the query that is set to a value other than
    the empty string: its category is the one asked for, its action
    contains the text asked for, its actor and its target are the ones
    asked for, and its timestamp is neither before the start time nor
    after the end time, as strings. *)
Theorem query_returns_stored_events_that_pass_the_filters d q :
  Forall (λ e,
    e ∈ history_newest_first d ∧
    (∀ c, EventQuery.category q = Some c → Event.category e = c) ∧
    (∀ a, EventQuery.action q = Some a → a ≠ EmptyString →
          Py.contains a (Event.action e) = true) ∧
    (∀ a, EventQuery.actor q = Some a → a ≠ EmptyString → Event.actor e = a) ∧
    (∀ t, EventQuery.target q = Some t → t ≠ EmptyString →
          Event.target e = Some t) ∧
    (∀ t, EventQuery.start_time q = Some t → t ≠ EmptyString →
          Py.str_lt (Event.timestamp e) t = false) ∧
    (∀ t, EventQuery.end_time q = Some t → t ≠ EmptyString →
          Py.str_lt t (Event.timestamp e) = false))
    (query d q).
Proof.
  rewrite query_collects. apply Forall_slice, Forall_take.
  apply Forall_forall. intros e [Hm He]%list_elem_of_filter.
  split; [done|]. by apply matches_query_filters.
Qed.

(** *** GET /events/{event_id} *)

Lemma matches_empty_query e limit offset :
  _matches_query e (EventQuery.mk None None None None None None limit offset)
  = true.
Proof. done. Qed.

Lemma filter_all {A} (P : A → Prop) `{∀ x, Decision (P x)} (l : list A) :
  (∀ x, P x) → filter P l = l.
Proof.
  intros HP. induction l as [|x l IH]; [done|].
  rewrite filter_cons, IH. by rewrite decide_True.
Qed.

Lemma first_with_id_found event_id events e :
  App.first_with_id event_id events = Returned e →
  Event.id e = event_id ∧ e ∈ events.
Proof.
  induction events as [|x events IH]; [done|]. cbn [App.first_with_id].
  case_decide.
  - intros [= <-]. split; [done|by left].
  - intros [? ?]%IH. split; [done|by right].
Qed.

Lemma first_with_id_missing event_id events :
  Forall (λ e, Event.id e ≠ event_id) events →
  App.first_with_id event_id events
  = HTTPException 404 (JStr "Event not found").
Proof.
  induction 1 as [|x events Hx _ IH]; [done|]. cbn [App.first_with_id].
  by rewrite decide_False.
Qed.

(** The endpoint looks for the event among the thousand newest events
    [_read_file] reads from the directory: it returns the newest of
    them that carries the id, and answers 404 when none does, whether
    or not an older stored event carries it. *)
Theorem get_event_searches_the_thousand_newest d event_id :
  App.get_event d event_id
    = App.first_with_id event_id (take 1000 (history_newest_first d)) ∧
  (∀ e, App.get_event d event_id = Returned e →
        Event.id e = event_id ∧ e ∈ take 1000 (history_newest_first d)) ∧
  (Forall (λ e, Event.id e ≠ event_id) (take 1000 (history_newest_first d)) →
   App.get_event d event_id = HTTPException 404 (JStr "Event not found")).
Proof.
  assert (App.get_event d event_id
          = App.first_with_id event_id (take 1000 (history_newest_first d)))
    as Heq.
  { unfold App.get_event. rewrite query_collects.
    cbn [EventQuery.limit EventQuery.offset].
    rewrite filter_all by (intros; apply matches_empty_query).
    by rewrite (slice_of_prefix _ 0 1000). }
  rewrite Heq. split; [done|]. split.
  - apply first_with_id_found.
  - apply first_with_id_missing.
Qed.

End QueryResult.

(** On the store of A, B and C the endpoint finds B and does not find
    an id that no event carries. *)
Lemma get_event_searches_the_thousand_newest_witness :
  App.get_event (L := Scenario.lib100) (disk Scenario.abc) "B"
    = Returned Scenario.B' ∧
  App.get_event (L := Scenario.lib100) (disk Scenario.abc) "Z"
    = HTTPException 404 (JStr "Event not found").
Proof.
  split.
  - etrans.
    + exact (proj1 (get_event_searches_the_thousand_newest
                      (L := Scenario.lib100) (disk Scenario.abc) "B")).
    + vm_compute. reflexivity.
  - apply (proj2 (proj2 (get_event_searches_the_thousand_newest
                           (L := Scenario.lib100) (disk Scenario.abc) "Z"))).
    evaluate (take 1000 (history_newest_first (L := Scenario.lib100)
                           (disk Scenario.abc))).
    repeat apply Forall_cons_2; [..|apply Forall_nil_2]; differ.
Defined.

(** ** Start-up on a segment with lines that are no records *)

Section StartupEdges.
Context {L : Lib}.

Lemma initialize_scan_passed_over n st ls rest :
  forallb passed_over ls = true →
  initialize_scan n st (ls ++ rest) = initialize_scan n st rest.
Proof.
  induction ls as [|l ls IH]; [done|]. cbn [forallb app initialize_scan].
  intros [Hl Hls]%andb_prop. unfold passed_over in Hl.
  case_decide; [by apply IH|].
  destruct (json_loads (Py.strip l)); [done|]. by apply IH.
Qed.

Lemma forallb_reverse {A} (f : A → bool) l :
  forallb f (reverse l) = forallb f l.
Proof.
  induction l as [|x l IH]; [done|].
  rewrite reverse_cons, forallb_app, IH. cbn. by rewrite andb_true_r, andb_comm.
Qed.

Lemma initialize_lines st (d : Disk) stamp f :
  last (Py.sorted (glob "events_*.jsonl" d)) = Some f →
  initialize st d stamp
  = initialize_scan
      (Z.of_nat (length (Py.readlines (default EmptyString (d !! f)))))
      (Store.mk (Some f) (Store.last_hash st) (Store.event_count st))
      (reverse (Py.readlines (default EmptyString (d !! f)))).
Proof. intros Hlast. unfold initialize. by rewrite Hlast. Qed.

(** [initialize] goes back from the end of the newest plain segment
    over the blank lines and the lines [json.loads] rejects.  The first
    line it can load as an object gives the [last_hash]: the value under
    the key [hash], or the genesis hash when the object has no such key;
    [event_count] becomes the number of all lines of the segment, the
    passed ones included.  When every line is passed over, [last_hash]
    and [event_count] stay as they were. *)
Theorem initialize_takes_the_last_line_that_loads
    st (d : Disk) stamp f ls1 l ls2 items :
  last (Py.sorted (glob "events_*.jsonl" d)) = Some f →
  (Py.readlines (default EmptyString (d !! f)) = ls1 ++ l :: ls2 →
   forallb passed_over ls2 = true →
   Py.strip l ≠ EmptyString →
   json_loads (Py.strip l) = Some (JDict items) →
   (∀ h, dict_get "hash" items = Some (JStr h) →
      initialize st d stamp
      = Ok (Store.mk (Some f) h (Z.of_nat (length (ls1 ++ l :: ls2))))) ∧
   (dict_get "hash" items = None →
      initialize st d stamp
      = Ok (Store.mk (Some f) GENESIS_HASH
              (Z.of_nat (length (ls1 ++ l :: ls2)))))) ∧
  (forallb passed_over (Py.readlines (default EmptyString (d !! f))) = true →
   initialize st d stamp
   = Ok (Store.mk (Some f) (Store.last_hash st) (Store.event_count st))).
Proof.
  intros Hlast. rewrite (initialize_lines _ _ _ _ Hlast). split.
  - intros -> Hpassed Hblank Hloads.
    rewrite reverse_app, reverse_cons, <- app_assoc.
    rewrite initialize_scan_passed_over by by rewrite forallb_reverse.
    cbn [app initialize_scan]. rewrite decide_False by done. rewrite Hloads.
    split; [intros h Hh|intros Hh]; by rewrite Hh.
  - intros Hpassed.
    rewrite <- (app_nil_r (reverse _)).
    by rewrite initialize_scan_passed_over by by rewrite forallb_reverse.
Qed.

(** A last loadable line that is JSON but no object stops the start-up:
    [initialize] raises [AttributeError] at the call of [get]. *)
Theorem initialize_raises_on_a_line_that_is_no_object
    st (d : Disk) stamp f ls1 l ls2 v :
  last (Py.sorted (glob "events_*.jsonl" d)) = Some f →
  Py.readlines (default EmptyString (d !! f)) = ls1 ++ l :: ls2 →
  forallb passed_over ls2 = true →
  Py.strip l ≠ EmptyString →
  json_loads (Py.strip l) = Some v →
  (∀ items, v ≠ JDict items) →
  initialize st d stamp = Raised "AttributeError".
Proof.
  intros Hlast Hlines Hpassed Hblank Hloads Hv.
  rewrite (initialize_lines _ _ _ _ Hlast), Hlines.
  rewrite reverse_app, reverse_cons, <- app_assoc.
  rewrite initialize_scan_passed_over by by rewrite forallb_reverse.
  cbn [app initialize_scan]. rewrite decide_False by done. rewrite Hloads.
  destruct v; try done. by destruct (Hv items).
Qed.

End StartupEdges.

(** The write of D to the store of A, B and C has stopped after forty
    bytes.  A store started on that directory passes over the torn
    line, takes the hash of C and counts four lines. *)
Lemma initialize_takes_the_last_line_that_loads_witness :
  initialize (L := Scenario.lib100) init_store (disk Scenario.torn) Scenario.t1
  = Ok (Store.mk (Some Scenario.seg0) (Event.hash Scenario.C') 4).
Proof.
  destruct (initialize_takes_the_last_line_that_loads (L := Scenario.lib100)
              init_store (disk Scenario.torn) Scenario.t1 Scenario.seg0
              [event_line (L := Scenario.lib100) Scenario.A';
               event_line (L := Scenario.lib100) Scenario.B']
              (event_line (L := Scenario.lib100) Scenario.C')
              [Py.take_str 40
                 (event_line (L := Scenario.lib100)
                    (with_hash (L := Scenario.lib100)
                       (Event.set_previous_hash Scenario.D
                          (Event.hash Scenario.C'))))]
              (dump_fields Scenario.C'
                 ++ [("hash", JStr (Event.hash Scenario.C'))]))
    as [Hlast _]; [vm_compute; reflexivity|].
  destruct Hlast as [Hhash _].
  - vm_compute. reflexivity.
  - vm_compute. reflexivity.
  - differ.
  - vm_compute. reflexivity.
  - apply (Hhash (Event.hash Scenario.C')). vm_compute. reflexivity.
Defined.

(** A segment whose only line is a JSON list stops the start-up. *)
Lemma initialize_raises_on_a_line_that_is_no_object_witness :
  initialize (L := Scenario.lib100) init_store Scenario.no_object Scenario.t1
  = Raised "AttributeError".
Proof.
  apply (initialize_raises_on_a_line_that_is_no_object (L := Scenario.lib100)
           init_store Scenario.no_object Scenario.t1 Scenario.seg0
           [] ("[1, 2]" +:+ String Py.nl EmptyString) []
           (JList [JInt 1; JInt 2])).
  - vm_compute. reflexivity.
  - vm_compute. reflexivity.
  - reflexivity.
  - differ.
  - vm_compute. reflexivity.
  - intros items H. discriminate H.
Defined.

(** ** The status of a directory with damaged segments *)

Section StatusEdges.
Context {L : Lib}.

Lemma count_events_raises (d : Disk) files f : ∀ n,
  f ∈ files →
  is_gz f = true →
  gzip_decompress (default EmptyString (d !! f)) = None →
  ∃ exn, count_events d files n = Raised exn.
Proof.
  induction files as [|g files IH]; intros n Hf Hgz Hbad.
  - by apply elem_of_nil in Hf.
  - cbn [count_events]. apply elem_of_cons in Hf as [<-|Hf].
    + rewrite Hgz, Hbad. by eexists.
    + destruct (is_gz g); [|by apply IH].
      destruct (gzip_decompress (default EmptyString (d !! g)));
        [by apply IH|by eexists].
Qed.

(** A compressed segment that does not decompress makes [get_status]
    raise, whatever else the directory holds, while the two readers
    catch the exception and yield no event for it, so that
    [verify_chain] and [query] pass the segment over. *)
Theorem get_status_raises_on_a_segment_that_does_not_decompress
    st (d : Disk) now_iso f raw :
  d !! f = Some raw →
  Py.fnmatch "events_*.jsonl*" f = true →
  is_gz f = true →
  gzip_decompress raw = None →
  (∃ exn, get_status st d now_iso = Raised exn) ∧
  _read_file_forward d f = [] ∧ _read_file d f = [].
Proof.
  intros Hf Hm Hgz Hbad. split.
  - unfold get_status.
    destruct (count_events_raises d (Py.sorted (glob "events_*.jsonl*" d)) f 0)
      as [exn ->]; [| |by rewrite Hf|by eexists]; [|done].
    apply elem_of_sorted, elem_of_glob. split; [done|by eexists].
  - unfold _read_file_forward, _read_file. by rewrite Hf, Hgz, Hbad.
Qed.

(** *** Lines counted and events read *)

Lemma yield_lines_le_nonblank ls :
  (length (yield_lines true ls)
   ≤ length (filter (λ l, Py.strip l ≠ EmptyString) ls))%nat.
Proof.
  induction ls as [|l ls IH]; [done|]. cbn [yield_lines].
  rewrite filter_cons. case_decide as Hblank.
  - rewrite decide_False by (by intros []). done.
  - rewrite decide_True by done.
    destruct (model_validate_json (Py.strip l)); cbn [length]; lia.
Qed.

Lemma yield_lines_le_lines ls :
  (length (yield_lines false ls) ≤ length ls)%nat.
Proof.
  induction ls as [|l ls IH]; [done|]. cbn [yield_lines].
  case_decide; [cbn [length]; lia|].
  destruct (model_validate_json l); cbn [length]; lia.
Qed.

Lemma count_events_bounds (d : Disk) files : ∀ n total,
  count_events d files n = Ok total →
  n + Z.of_nat (length (forward_events d files)) ≤ total.
Proof.
  unfold forward_events.
  induction files as [|g files IH]; intros n total; cbn [count_events map concat].
  - intros [= <-]. cbn. lia.
  - rewrite length_app. unfold _read_file_forward at 1.
    destruct (d !! g) as [raw|] eqn:Hg; cbn [default from_option id];
      destruct (is_gz g).
    + destruct (gzip_decompress raw) as [content|]; [|done].
      intros Hc%IH.
      pose proof (yield_lines_le_lines (Py.split Py.nl (Py.strip content))).
      lia.
    + intros Hc%IH. pose proof (yield_lines_le_nonblank (Py.readlines raw)).
      lia.
    + destruct (gzip_decompress EmptyString); [|done]. intros Hc%IH.
      cbn [length]. pose proof (Nat2Z.is_nonneg
        (length (Py.split Py.nl (Py.strip s)))). lia.
    + intros Hc%IH. cbn [length Py.readlines filter] in *. cbn in Hc. lia.
Qed.

(** [total_events] counts lines, not records: when [get_status]
    returns, the number it reports is at least the number of events
    [verify_chain] reads from the directory. *)
Theorem get_status_counts_at_least_the_events_read st (d : Disk) now_iso s :
  get_status st d now_iso = Ok s →
  Z.of_nat (length (history d)) ≤ ChainStatus.total_events s.
Proof.
  unfold get_status, history.
  destruct (count_events d (Py.sorted (glob "events_*.jsonl*" d)) 0)
    as [total|exn] eqn:Hc; [|done].
  intros [= <-]. cbn [ChainStatus.total_events].
  apply count_events_bounds in Hc. lia.
Qed.

End StatusEdges.

(** A directory whose only segment is a compressed file that is no
    gzip file: [get_status] raises, [verify_chain] answers valid. *)
Lemma get_status_raises_on_a_segment_that_does_not_decompress_witness :
  (∃ exn, get_status (L := Scenario.lib100) init_store Scenario.bad_gz
            "2026-11-04T12:00:00+00:00" = Raised exn) ∧
  verify_chain (L := Scenario.lib100) Scenario.bad_gz = (true, None).
Proof.
  destruct (get_status_raises_on_a_segment_that_does_not_decompress
              (L := Scenario.lib100) init_store Scenario.bad_gz
              "2026-11-04T12:00:00+00:00"
              "events_20250101_000000.jsonl.gz" "not gzip")
    as (Hraises & _ & _).
  - vm_compute. reflexivity.
  - vm_compute. reflexivity.
  - vm_compute. reflexivity.
  - vm_compute. reflexivity.
  - split; [exact Hraises|]. vm_compute. reflexivity.
Defined.

(** The history of A, B and C with the record of B replaced by a line
    that is no JSON: the status counts three events, the verifier reads
    one. *)
Lemma get_status_counts_at_least_the_events_read_witness :
  ∃ s,
    get_status (L := Scenario.lib100) (store Scenario.abc) Scenario.abc_garbage
      "2026-11-04T12:00:00+00:00" = Ok s ∧
    ChainStatus.total_events s = 3 ∧
    length (history (L := Scenario.lib100) Scenario.abc_garbage) = 1%nat ∧
    Z.of_nat (length (history (L := Scenario.lib100) Scenario.abc_garbage))
      ≤ ChainStatus.total_events s.
Proof.
  eexists. split; [vm_compute; reflexivity|].
  split; [reflexivity|]. split; [vm_compute; reflexivity|].
  apply (get_status_counts_at_least_the_events_read (L := Scenario.lib100)
           (store Scenario.abc) Scenario.abc_garbage
           "2026-11-04T12:00:00+00:00").
  vm_compute. reflexivity.
Defined.

(** ** Compression and the readers *)

Section CompressRead.
Context {L : Lib}.

Lemma compress_done (d : Disk) stamp content :
  d !! new_file_name stamp = Some content →
  _compress_file NoFault d (new_file_name stamp)
  = delete (new_file_name stamp)
      (<[new_file_name stamp +:+ ".gz" := gzip_compress content]> d).
Proof.
  intros Hf. unfold _compress_file, compress_trace.
  rewrite Hf, compressed_path_eq. cbn [last default from_option id].
  by rewrite insert_insert_eq.
Qed.

(** Compression loses no event.  A segment holds the records of the
    events [es] as [append] writes them; after a compression task that
    does not fail, the segment is gone and both readers yield for the
    compressed file what they yielded for the segment: [es] in forward
    order, and [es] reversed. *)
Theorem compress_file_keeps_the_events_readable (d : Disk) stamp es :
  (∀ c, gzip_decompress (gzip_compress c) = Some c) →
  Forall line_ok es →
  d !! new_file_name stamp = Some (text_of es) →
  _read_file_forward d (new_file_name stamp) = es ∧
  _read_file d (new_file_name stamp) = reverse es ∧
  _compress_file NoFault d (new_file_name stamp) !! new_file_name stamp
    = None ∧
  _read_file_forward (_compress_file NoFault d (new_file_name stamp))
    (new_file_name stamp +:+ ".gz") = es ∧
  _read_file (_compress_file NoFault d (new_file_name stamp))
    (new_file_name stamp +:+ ".gz") = reverse es.
Proof.
  intros Hgzip Hok Hf. rewrite (compress_done _ _ _ Hf).
  assert (new_file_name stamp +:+ ".gz" ≠ new_file_name stamp) as Hne
    by by apply str_app_ne_self.
  destruct es as [|e es].
  - unfold _read_file_forward, _read_file, is_gz.
    rewrite Hf, lookup_delete_eq, lookup_delete_ne, lookup_insert_eq by done.
    rewrite new_file_name_suffix, gz_name_suffix by apply new_file_name_ne.
    rewrite bool_decide_eq_false_2 by done.
    rewrite bool_decide_eq_true_2 by done. by rewrite Hgzip.
  - set (d' := delete _ _).
    pose proof (read_forward_segment d (mkSeg stamp false (e :: es)) Hgzip)
      as Hplain.
    pose proof (read_reverse_segment d (mkSeg stamp false (e :: es)) Hgzip)
      as Hplain_r.
    pose proof (read_forward_segment d' (mkSeg stamp true (e :: es)) Hgzip)
      as Hgz.
    pose proof (read_reverse_segment d' (mkSeg stamp true (e :: es)) Hgzip)
      as Hgz_r.
    unfold seg_on_disk, seg_file, seg_plain, seg_content in *.
    cbn [seg_gz seg_stamp seg_events] in *.
    assert (d' !! (new_file_name stamp +:+ ".gz")
            = Some (gzip_compress (text_of (e :: es)))) as Hz.
    { unfold d'. by rewrite lookup_delete_ne, lookup_insert_eq. }
    split; [by apply Hplain|]. split; [by apply Hplain_r|].
    split; [unfold d'; by rewrite lookup_delete_eq|].
    split; [by apply Hgz|by apply Hgz_r].
Qed.

(** A compression task whose segment is not in the directory changes
    nothing, whatever fault it is given; so a second task for a segment
    a first one has compressed leaves the directory as it is. *)
Theorem compress_file_of_a_missing_segment_is_a_no_op
    (f : compress_fault) (d : Disk) stamp :
  (d !! new_file_name stamp = None →
   _compress_file f d (new_file_name stamp) = d) ∧
  _compress_file f (_compress_file NoFault d (new_file_name stamp))
    (new_file_name stamp)
  = _compress_file NoFault d (new_file_name stamp).
Proof.
  assert (∀ d0 : Disk, d0 !! new_file_name stamp = None →
            _compress_file f d0 (new_file_name stamp) = d0) as Hmissing.
  { intros d0 Hnone. unfold _compress_file, compress_trace. rewrite Hnone.
    by destruct f. }
  split; [apply Hmissing|]. apply Hmissing.
  destruct (d !! new_file_name stamp) as [content|] eqn:Hf.
  - rewrite (compress_done _ _ _ Hf). apply lookup_delete_eq.
  - unfold _compress_file, compress_trace. by rewrite Hf.
Qed.

(** *** The two readers *)

Lemma yield_lines_one (b : bool) l ls :
  yield_lines b (l :: ls)
  = if readable b l then yield_lines b [l] ++ yield_lines b ls else [].
Proof.
  unfold readable. cbn [yield_lines]. case_decide as Hblank.
  - rewrite Hblank. rewrite bool_decide_eq_true_2 by done.
    by destruct (model_validate_json EmptyString).
  - rewrite bool_decide_eq_false_2 by done.
    by destruct (model_validate_json _).
Qed.

Lemma yield_lines_reverse (b : bool) ls :
  forallb (readable b) ls = true →
  yield_lines b (reverse ls) = reverse (yield_lines b ls).
Proof.
  induction ls as [|l ls IH]; [done|]. cbn [forallb].
  intros [Hl Hls]%andb_prop.
  rewrite reverse_cons, yield_lines_app by by rewrite forallb_reverse.
  rewrite IH by done. rewrite (yield_lines_one b l ls), Hl, reverse_app.
  f_equal. cbn [yield_lines].
  case_decide; [done|]. by destruct (model_validate_json _).
Qed.

Lemma read_file_lines (d : Disk) f :
  _read_file d f
  = match segment_lines d f with
    | Some (b, ls) => yield_lines b (reverse ls)
    | None => []
    end.
Proof.
  unfold _read_file, segment_lines. destruct (d !! f) as [raw|]; [|done].
  destruct (is_gz f); [|done]. by destruct (gzip_decompress raw).
Qed.

(** On a segment whose lines are all blank or valid records, the
    reader of [query] yields the events the reader of [verify_chain]
    yields, in reverse order. *)
Theorem readers_agree_on_readable_segments (d : Disk) f (b : bool) ls :
  segment_lines d f = Some (b, ls) →
  forallb (readable b) ls = true →
  _read_file d f = reverse (_read_file_forward d f).
Proof.
  intros Hlines Hok. rewrite read_file_lines, read_forward_lines, Hlines.
  by apply yield_lines_reverse.
Qed.

(** At a line that is no valid record the two readers part: the reader
    of [verify_chain] yields the events before the line and stops, the
    reader of [query] yields the events after it, last first, and
    stops; neither yields the events on the other side. *)
Theorem readers_part_at_a_malformed_line
    (d : Disk) f (b : bool) ls1 bad ls2 :
  segment_lines d f = Some (b, ls1 ++ bad :: ls2) →
  forallb (readable b) ls1 = true →
  forallb (readable b) ls2 = true →
  readable b bad = false →
  _read_file_forward d f = yield_lines b ls1 ∧
  _read_file d f = reverse (yield_lines b ls2).
Proof.
  intros Hlines Hok1 Hok2 Hbad.
  rewrite read_file_lines, read_forward_lines, Hlines. split.
  - rewrite yield_lines_app by done.
    by rewrite (yield_lines_one b bad ls2), Hbad, app_nil_r.
  - rewrite reverse_app, reverse_cons, <- app_assoc.
    rewrite yield_lines_app by by rewrite forallb_reverse.
    cbn [app]. rewrite (yield_lines_one b bad), Hbad, app_nil_r.
    by apply yield_lines_reverse.
Qed.

End CompressRead.

(** The segment of A, B and C is compressed: the compressed file reads
    back as the three events. *)
Lemma compress_file_keeps_the_events_readable_witness :
  _read_file_forward (L := Scenario.lib100)
    (_compress_file (L := Scenario.lib100) NoFault (disk Scenario.abc)
       (new_file_name Scenario.t0))
    (new_file_name Scenario.t0 +:+ ".gz")
  = [Scenario.A'; Scenario.B'; Scenario.C'].
Proof.
  destruct (compress_file_keeps_the_events_readable (L := Scenario.lib100)
              (disk Scenario.abc) Scenario.t0
              [Scenario.A'; Scenario.B'; Scenario.C'])
    as (_ & _ & _ & Hread & _).
  - apply Gzip_round_trip.
  - lines_ok.
  - vm_compute. reflexivity.
  - exact Hread.
Defined.

(** A second compression task for the segment of A, B and C, failing
    or not, leaves the directory as the first one left it. *)
Lemma compress_file_of_a_missing_segment_is_a_no_op_witness :
  _compress_file (L := Scenario.lib100) UnlinkFails
    (_compress_file (L := Scenario.lib100) NoFault (disk Scenario.abc)
       (new_file_name Scenario.t0))
    (new_file_name Scenario.t0)
  = _compress_file (L := Scenario.lib100) NoFault (disk Scenario.abc)
      (new_file_name Scenario.t0).
Proof.
  apply (compress_file_of_a_missing_segment_is_a_no_op
           (L := Scenario.lib100) UnlinkFails (disk Scenario.abc) Scenario.t0).
Defined.

(** On the segment of A, B and C the reader of [query] yields C, B, A
    and the reader of [verify_chain] A, B, C. *)
Lemma readers_agree_on_readable_segments_witness :
  _read_file (L := Scenario.lib100) (disk Scenario.abc) Scenario.seg0
  = reverse (_read_file_forward (L := Scenario.lib100) (disk Scenario.abc)
               Scenario.seg0).
Proof.
  apply (readers_agree_on_readable_segments (L := Scenario.lib100)
           (disk Scenario.abc) Scenario.seg0 true
           [event_line (L := Scenario.lib100) Scenario.A';
            event_line (L := Scenario.lib100) Scenario.B';
            event_line (L := Scenario.lib100) Scenario.C']).
  - vm_compute. reflexivity.
  - vm_compute. reflexivity.
Defined.

(** With the record of B replaced by a line that is no JSON, the
    reader of [verify_chain] yields A alone and the reader of [query] C
    alone. *)
Lemma readers_part_at_a_malformed_line_witness :
  _read_file_forward (L := Scenario.lib100) Scenario.abc_garbage Scenario.seg0
    = [Scenario.A'] ∧
  _read_file (L := Scenario.lib100) Scenario.abc_garbage Scenario.seg0
    = [Scenario.C'].
Proof.
  destruct (readers_part_at_a_malformed_line (L := Scenario.lib100)
              Scenario.abc_garbage Scenario.seg0 true
              [event_line (L := Scenario.lib100) Scenario.A']
              ("not json" +:+ String Py.nl EmptyString)
              [event_line (L := Scenario.lib100) Scenario.C'])
    as [Hforward Hback].
  - vm_compute. reflexivity.
  - vm_compute. reflexivity.
  - vm_compute. reflexivity.
  - vm_compute. reflexivity.
  - split; [etrans; [exact Hforward|] | etrans; [exact Hback|]];
      vm_compute; reflexivity.
Defined.

(** ** Rotation *)

Section Rotation.
Context {L : Lib}.

(** The rotation check of [append], which comes before the write and
    does not depend on its outcome.  When the active segment is in the
    directory and its size has reached [MAX_FILE_SIZE_MB] MiB, the store
    moves to the segment named by the clock and schedules one
    compression task, for the segment it leaves; below that size, and
    when the active segment is not in the directory, the store stays on
    its segment and schedules nothing. *)
Theorem append_rotates_at_the_size_limit env w event f :
  Store.current_file (store w) = Some f →
  (∀ content,
     disk w !! f = Some content →
     MAX_FILE_SIZE_MB * (1024 * 1024) ≤ Z.of_nat (String.length content) →
     Store.current_file (store (append env w event).1)
       = Some (new_file_name (now_stamp env)) ∧
     tasks (append env w event).1 = tasks w ++ [f]) ∧
  (∀ content,
     disk w !! f = Some content →
     Z.of_nat (String.length content) < MAX_FILE_SIZE_MB * (1024 * 1024) →
     Store.current_file (store (append env w event).1) = Some f ∧
     tasks (append env w event).1 = tasks w) ∧
  (disk w !! f = None →
   Store.current_file (store (append env w event).1) = Some f ∧
   tasks (append env w event).1 = tasks w).
Proof.
  intros Hcur. unfold append, needs_rotation, _rotate_file. rewrite Hcur.
  split; [|split].
  - intros content Hf Hsize. rewrite Hf.
    rewrite bool_decide_eq_true_2 by done.
    rewrite decide_True by (by eexists). cbn. by destruct (fault env).
  - intros content Hf Hsize. rewrite Hf.
    rewrite bool_decide_eq_false_2 by lia. rewrite Hcur. cbn.
    by destruct (fault env).
  - intros Hf. rewrite Hf, Hcur. cbn. by destruct (fault env).
Qed.

(** A rotation within the second that named the active segment hands
    the active segment to the compressor.  The segment has reached the
    size limit and the clock still reads the second in its name: the
    append writes to the same file and schedules it for compression,
    and when that task is the next to run and does not fail, the file
    the store writes to is no longer in the directory. *)
Theorem rotation_within_the_second_compresses_the_active_segment
    env w event stamp content :
  Store.current_file (store w) = Some (new_file_name stamp) →
  disk w !! new_file_name stamp = Some content →
  MAX_FILE_SIZE_MB * (1024 * 1024) ≤ Z.of_nat (String.length content) →
  now_stamp env = stamp →
  fault env = WriteOk →
  tasks w = [] →
  Store.current_file (store (append env w event).1)
    = Some (new_file_name stamp) ∧
  tasks (append env w event).1 = [new_file_name stamp] ∧
  Store.current_file (store (run_task NoFault (append env w event).1))
    = Some (new_file_name stamp) ∧
  disk (run_task NoFault (append env w event).1) !! new_file_name stamp = None.
Proof.
  intros Hcur Hf Hsize Hstamp Hfault Htasks.
  unfold append, needs_rotation, _rotate_file.
  rewrite Hcur, Hf, Hfault, Hstamp, Htasks.
  rewrite bool_decide_eq_true_2 by done.
  rewrite decide_True by (by eexists).
  cbn [store disk tasks fst Store.current_file _create_new_file default
       from_option id app].
  split; [done|]. split; [done|].
  unfold run_task. cbn [tasks store disk Store.current_file].
  split; [done|].
  erewrite compress_done by by rewrite lookup_insert_eq.
  apply lookup_delete_eq.
Qed.

End Rotation.

(** With a segment size of zero the append of B, one second after A,
    moves the store to a new segment and schedules the compression of
    the segment of A. *)
Lemma append_rotates_at_the_size_limit_witness :
  let w := run (L := Scenario.lib0) (fresh_world Scenario.t0)
             [Append (Scenario.at_ Scenario.t0) Scenario.A] in
  Store.current_file
    (store (append (L := Scenario.lib0) (Scenario.at_ Scenario.t1) w
              Scenario.B).1) = Some "events_20250101_000001.jsonl" ∧
  tasks (append (L := Scenario.lib0) (Scenario.at_ Scenario.t1) w Scenario.B).1
    = ["events_20250101_000000.jsonl"].
Proof.
  intros w.
  destruct (append_rotates_at_the_size_limit (L := Scenario.lib0)
              (Scenario.at_ Scenario.t1) w Scenario.B Scenario.seg0)
    as (Hrotates & _ & _); [vm_compute; reflexivity|].
  destruct (Hrotates (event_line (L := Scenario.lib0) Scenario.A'))
    as [Hcur Htasks].
  - vm_compute. reflexivity.
  - by vm_compute.
  - split; [etrans; [exact Hcur|] | etrans; [exact Htasks|]];
      vm_compute; reflexivity.
Defined.

(** With a segment size of zero B is appended within the second of A,
    and the compression task runs: the store still writes to the
    segment of that second, which is no longer in the directory. *)
Lemma rotation_within_the_second_compresses_the_active_segment_witness :
  let w := run (L := Scenario.lib0) (fresh_world Scenario.t0)
             [Append (Scenario.at_ Scenario.t0) Scenario.A] in
  Store.current_file
    (store (run_task (L := Scenario.lib0) NoFault
              (append (L := Scenario.lib0) (Scenario.at_ Scenario.t0) w
                 Scenario.B).1)) = Some (new_file_name Scenario.t0) ∧
  disk (run_task (L := Scenario.lib0) NoFault
          (append (L := Scenario.lib0) (Scenario.at_ Scenario.t0) w
             Scenario.B).1) !! new_file_name Scenario.t0 = None.
Proof.
  intros w.
  destruct (rotation_within_the_second_compresses_the_active_segment
              (L := Scenario.lib0) (Scenario.at_ Scenario.t0) w Scenario.B
              Scenario.t0 (event_line (L := Scenario.lib0) Scenario.A'))
    as (_ & _ & Hcur & Hgone).
  - vm_compute. reflexivity.
  - vm_compute. reflexivity.
  - by vm_compute.
  - reflexivity.
  - reflexivity.
  - vm_compute. reflexivity.
  - split; [exact Hcur|exact Hgone].
Defined.

(** ** The page a query returns *)

Section QueryPage.
Context {L : Lib}.




End QueryPage.


